(** * OS-Simulator: scheduling and operation-timing engine

    A shallow embedding of the simulator of [Sim03/src/simulator.cpp]
    together with the [Program]/[Operation] model of
    [Sim02/source/Program.h] and [Sim02/source/Program.cpp].

    C++ [int] values are integers of [Z] reduced to 32 bits by [wrap]
    wherever the code computes with them.  The simulator object is a
    record that every member function threads through a small state and
    error monad; the wall clock is an oracle giving the successive
    readings of [std::chrono::system_clock::now()]. *)

From Stdlib Require Import ZArith List String Ascii Bool Lia.
From Stdlib Require Import Sorted Permutation DecimalString.
Import ListNotations.

Local Open Scope Z_scope.

(** ** Machine integers and text helpers *)

Definition wrap (z : Z) : Z := (z + 2 ^ 31) mod 2 ^ 32 - 2 ^ 31.

Definition in_int (z : Z) : Prop := - 2 ^ 31 <= z < 2 ^ 31.

(** [std::to_string(int)]. *)
Definition to_string (z : Z) : string := NilZero.string_of_int (Z.to_int z).

Definition nl : string := String (ascii_of_nat 10) EmptyString.

(** ** Program.h: the data model *)

Inductive State : Type := START | READY | RUNNING | EXIT.

(** [struct Operation].  Program.h of Sim02 declares [type], [description]
    and [duration]; simulator.cpp of Sim03 also reads and writes [cycles]
    and [cycleTime]. *)
Record Operation : Type := mkOperation {
  type : ascii;
  description : string;
  cycles : Z;
  cycleTime : Z;
  duration : Z
}.

Definition with_type (c : ascii) (o : Operation) : Operation :=
  mkOperation c (description o) (cycles o) (cycleTime o) (duration o).

Definition with_description (d : string) (o : Operation) : Operation :=
  mkOperation (type o) d (cycles o) (cycleTime o) (duration o).

Definition with_cycles (n : Z) (o : Operation) : Operation :=
  mkOperation (type o) (description o) n (cycleTime o) (duration o).

Definition with_cycleTime (t : Z) (o : Operation) : Operation :=
  mkOperation (type o) (description o) (cycles o) t (duration o).

Definition with_duration (d : Z) (o : Operation) : Operation :=
  mkOperation (type o) (description o) (cycles o) (cycleTime o) d.

(** [class Program], with its default member initialisers. *)
Record Program : Type := mkProgram {
  operations : list Operation;
  state : State;
  running_time : Z;
  id : Z
}.

Definition Program_new : Program :=
  {| operations := []; state := START; running_time := 0; id := 0 |}.

Definition with_state (s : State) (p : Program) : Program :=
  {| operations := operations p; state := s;
     running_time := running_time p; id := id p |}.

Definition with_id (i : Z) (p : Program) : Program :=
  {| operations := operations p; state := state p;
     running_time := running_time p; id := i |}.

Definition with_operations (ops : list Operation) (p : Program) : Program :=
  {| operations := ops; state := state p;
     running_time := running_time p; id := id p |}.

(** [Program::add_operation]: push on the queue, add the duration. *)
Definition add_operation (operation : Operation) (p : Program) : Program :=
  {| operations := operations p ++ [operation];
     state := state p;
     running_time := wrap (running_time p + duration operation);
     id := id p |}.

(** [Program::operator<]. *)
Definition Program_lt (p other : Program) : bool :=
  running_time p <? running_time other.

(** Modelled from the spec: the members [next], [done] and
    [remaining_operations] of Sim03's [Program], which simulator.cpp calls
    and whose header is absent.  [next] removes and returns the front of
    the operation queue ("FIFO consumption order"), [done] is "operations
    empty", [remaining_operations] is the number of queued operations.
    [next] on an empty queue is undefined ([std::queue::front]). *)
Definition next (p : Program) : option (Operation * Program) :=
  match operations p with
  | [] => None
  | operation :: rest => Some (operation, with_operations rest p)
  end.

Definition done (p : Program) : bool :=
  match operations p with [] => true | _ :: _ => false end.

Definition remaining_operations (p : Program) : Z :=
  Z.of_nat (List.length (operations p)).

(** ** The simulator object and its environment *)

Inductive LogLocation : Type := SCREEN | FILE | BOTH.

(** What a run does, in order: the calls of [print] with the elapsed time
    they computed, the calls of [sleep_for], and two ghost records of the
    scheduler's own steps: the Program object bound for dispatch and every
    assignment to a [state] field (with the object as it was before). *)
Inductive Event : Type :=
| EvPrint (time : Z) (message : string)
| EvSleep (ms : Z)
| EvSelect (p : Program)
| EvState (p : Program) (s : State).

Record Simulator : Type := mkSimulator {
  schedulingCode_ : string;
  logLocation_ : LogLocation;
  processorCycleTime_ : Z;
  monitorDisplayTime_ : Z;
  hardDriveCycleTime_ : Z;
  printerCycleTime_ : Z;
  keyboardCycleTime_ : Z;
  programs_ : list Program;
  SRTF_queue_ : list Program;
  start_ : Z;
  (* environment *)
  clock_reads : nat;
  trace : list Event
}.

Definition with_start (t : Z) (s : Simulator) : Simulator :=
  mkSimulator (schedulingCode_ s) (logLocation_ s) (processorCycleTime_ s)
    (monitorDisplayTime_ s) (hardDriveCycleTime_ s) (printerCycleTime_ s)
    (keyboardCycleTime_ s) (programs_ s) (SRTF_queue_ s) t
    (clock_reads s) (trace s).

Definition with_queue (q : list Program) (s : Simulator) : Simulator :=
  mkSimulator (schedulingCode_ s) (logLocation_ s) (processorCycleTime_ s)
    (monitorDisplayTime_ s) (hardDriveCycleTime_ s) (printerCycleTime_ s)
    (keyboardCycleTime_ s) (programs_ s) q (start_ s)
    (clock_reads s) (trace s).

Definition with_programs (ps : list Program) (s : Simulator) : Simulator :=
  mkSimulator (schedulingCode_ s) (logLocation_ s) (processorCycleTime_ s)
    (monitorDisplayTime_ s) (hardDriveCycleTime_ s) (printerCycleTime_ s)
    (keyboardCycleTime_ s) ps (SRTF_queue_ s) (start_ s)
    (clock_reads s) (trace s).

Definition tick (s : Simulator) : Simulator :=
  mkSimulator (schedulingCode_ s) (logLocation_ s) (processorCycleTime_ s)
    (monitorDisplayTime_ s) (hardDriveCycleTime_ s) (printerCycleTime_ s)
    (keyboardCycleTime_ s) (programs_ s) (SRTF_queue_ s) (start_ s)
    (S (clock_reads s)) (trace s).

Definition record (e : Event) (s : Simulator) : Simulator :=
  mkSimulator (schedulingCode_ s) (logLocation_ s) (processorCycleTime_ s)
    (monitorDisplayTime_ s) (hardDriveCycleTime_ s) (printerCycleTime_ s)
    (keyboardCycleTime_ s) (programs_ s) (SRTF_queue_ s) (start_ s)
    (clock_reads s) (trace s ++ [e]).

(** ** Results and the simulator monad *)

Inductive error : Type :=
| UnableToOpenFile
| StartFlagMissing
| EndFlagMissing
| NoEndLine
| UnrecognizedOperationType
| StoiInvalidArgument
| StoiOutOfRange
| SubstrOutOfRange.

(** [Throw]: a C++ exception leaves the function.  [Undefined]: the code
    has no defined behaviour there ([front] of an empty container).
    [Timeout]: a loop was cut by its iteration bound. *)
Inductive result (A : Type) : Type :=
| Ok (a : A)
| Throw (e : error)
| Undefined
| Timeout.

Arguments Ok {A} a.
Arguments Throw {A} e.
Arguments Undefined {A}.
Arguments Timeout {A}.

Definition M (A : Type) : Type := Simulator -> result (A * Simulator).

Definition ret {A} (a : A) : M A := fun s => Ok (a, s).

Definition bind {A B} (m : M A) (k : A -> M B) : M B :=
  fun s =>
    match m s with
    | Ok (a, s') => k a s'
    | Throw e => Throw e
    | Undefined => Undefined
    | Timeout => Timeout
    end.

Declare Scope sim_scope.
Delimit Scope sim_scope with sim.
Notation "x <- m ;; k" := (bind m (fun x => k))
  (at level 61, m at next level, right associativity) : sim_scope.
Notation "m ;; k" := (bind m (fun _ => k))
  (at level 61, right associativity) : sim_scope.
Local Open Scope sim_scope.

Definition gets {A} (f : Simulator -> A) : M A := fun s => Ok (f s, s).
Definition modify (f : Simulator -> Simulator) : M unit :=
  fun s => Ok (tt, f s).
Definition undefined {A} : M A := fun _ => Undefined.
Definition timeout {A} : M A := fun _ => Timeout.
Definition emit (e : Event) : M unit := modify (record e).

Definition of_option {A} (o : option A) : M A :=
  match o with Some a => ret a | None => undefined end.

Section Engine.

(** The successive values of [std::chrono::system_clock::now()], in ticks. *)
Variable system_clock : nat -> Z.

Definition now : M Z :=
  fun s => Ok (system_clock (clock_reads s), tick s).

(** [Simulator::elapsed_seconds]. *)
Definition elapsed_seconds : M Z :=
  t <- now ;; start <- gets start_ ;; ret (t - start).

(** [Simulator::print]: one line, stamped, to the sinks of [logLocation_]. *)
Definition print (message : string) : M unit :=
  time <- elapsed_seconds ;; emit (EvPrint time message).

Definition sleep_for (ms : Z) : M unit := emit (EvSleep ms).

(** [program.state = s]. *)
Definition assign_state (program : Program) (s : State) : M Program :=
  emit (EvState program s) ;; ret (with_state s program).

(** [Simulator::process_IO]. *)
Definition process_IO (operation : Operation) (programID : Z) : M unit :=
  if String.eqb (description operation) "hard drive" then
    let accessType : string :=
      if Ascii.eqb (type operation) "I" then "input"%string
      else "output"%string in
    print ("Process " ++ to_string programID ++ ": start hard drive "
             ++ accessType) ;;
    sleep_for (duration operation) ;;
    print ("Process " ++ to_string programID ++ ": end hard drive "
             ++ accessType)
  else if String.eqb (description operation) "keyboard" then
    print ("Process " ++ to_string programID ++ ": start keyboard input") ;;
    sleep_for (duration operation) ;;
    print ("Process " ++ to_string programID ++ ": end keyboard input")
  else if String.eqb (description operation) "monitor" then
    print ("Process " ++ to_string programID ++ ": start monitor output") ;;
    sleep_for (duration operation) ;;
    print ("Process " ++ to_string programID ++ ": end monitor output")
  else if String.eqb (description operation) "printer" then
    print ("Process " ++ to_string programID ++ ": start printer output") ;;
    sleep_for (duration operation) ;;
    print ("Process " ++ to_string programID ++ ": end printer output")
  else ret tt.

Definition is_start (operation : Operation) : bool :=
  Ascii.eqb (type operation) "A" && String.eqb (description operation) "start".

(** [Simulator::process_operation].  The I/O thread is joined before the
    function goes on, so its body runs in line. *)
Definition process_operation (program : Program) : M Program :=
  let programID := id program in
  r <- of_option (next program) ;;
  r <- (if is_start (fst r) then
          print ("OS: starting process " ++ to_string programID) ;;
          of_option (next (snd r))
        else ret r) ;;
  let operation := fst r in
  let program := snd r in
  (if Ascii.eqb (type operation) "P" then
     print ("Process " ++ to_string programID ++ ": start processing action") ;;
     sleep_for (duration operation) ;;
     print ("Process " ++ to_string programID ++ ": end processing action")
   else if Ascii.eqb (type operation) "I" || Ascii.eqb (type operation) "O" then
     process_IO operation programID
   else ret tt) ;;
  if remaining_operations program =? 1 then
    r <- of_option (next program) ;;
    print ("OS: removing process " ++ to_string programID) ;;
    ret (snd r)
  else ret program.

(** Modelled from the spec: the priority structure [SRTF_queue_], declared
    in the absent simulator.h.  Programs are kept "ordered ascending by
    runningTime (ties broken by admission/insertion order)": [push] puts a
    Program before the first queued one it is less than, by
    [Program::operator<]; [top] is the front and [pop] removes it. *)
Fixpoint pq_push (p : Program) (q : list Program) : list Program :=
  match q with
  | [] => [p]
  | x :: q' => if Program_lt p x then p :: x :: q' else x :: pq_push p q'
  end.

Definition SRTF_push (p : Program) : M unit :=
  modify (fun s => with_queue (pq_push p (SRTF_queue_ s)) s).

Definition SRTF_top : M Program :=
  q <- gets SRTF_queue_ ;; of_option (hd_error q).

Definition SRTF_pop : M unit :=
  modify (fun s => with_queue (tl (SRTF_queue_ s)) s).

Definition SRTF_empty : M bool :=
  q <- gets SRTF_queue_ ;; ret (match q with [] => true | _ => false end).

(** [for( Program program : programs_ )]: the body gets a copy of each
    element. *)
Fixpoint for_each (programs : list Program) (body : Program -> M unit)
  : M unit :=
  match programs with
  | [] => ret tt
  | program :: rest => body program ;; for_each rest body
  end.

(** [while( !program.done() ) process_operation( program )]. *)
Fixpoint drain (fuel : nat) (program : Program) : M Program :=
  if done program then ret program
  else match fuel with
       | O => timeout
       | S fuel' =>
           program <- process_operation program ;; drain fuel' program
       end.

(** The dispatch loop of the FIFO branch. *)
Fixpoint FIFO_loop (programs : list Program) (programCounter : Z) : M unit :=
  match programs with
  | [] => ret tt
  | program :: rest =>
      emit (EvSelect program) ;;
      print "OS: selecting next process" ;;
      let programCounter := wrap (programCounter + 1) in
      let program := with_id programCounter program in
      program <- assign_state program RUNNING ;;
      program <- drain (List.length (operations program)) program ;;
      _ <- assign_state program EXIT ;;
      FIFO_loop rest programCounter
  end.

(** One turn of [while( !SRTF_queue_.empty() )]; gives the new
    [programCounter]. *)
Definition SRTF_turn (programCounter : Z) : M Z :=
  print "OS: selecting next process" ;;
  program <- SRTF_top ;;
  SRTF_pop ;;
  emit (EvSelect program) ;;
  let programCounter :=
    if id program =? 0 then wrap (programCounter + 1) else programCounter in
  let program :=
    if id program =? 0 then with_id programCounter program else program in
  program <- assign_state program RUNNING ;;
  program <- process_operation program ;;
  (if done program then
     _ <- assign_state program EXIT ;; ret tt
   else
     program <- assign_state program READY ;;
     SRTF_push program) ;;
  ret programCounter.

Fixpoint SRTF_loop (fuel : nat) (programCounter : Z) : M unit :=
  empty <- SRTF_empty ;;
  if (empty : bool) then ret tt
  else match fuel with
       | O => timeout
       | S fuel' =>
           programCounter <- SRTF_turn programCounter ;;
           SRTF_loop fuel' programCounter
       end.

Definition total_operations (programs : list Program) : nat :=
  list_sum (map (fun p => List.length (operations p)) programs).

(** [Simulator::run]. *)
Definition run : M unit :=
  t <- now ;;
  modify (with_start t) ;;
  print "Simulator program starting" ;;
  code <- gets schedulingCode_ ;;
  programs <- gets programs_ ;;
  (if String.eqb code "FIFO" then
     print "OS: preparing all processes" ;;
     for_each programs (fun program =>
       _ <- assign_state program READY ;; ret tt) ;;
     FIFO_loop programs 0
   else
     print "OS: preparing all processes" ;;
     for_each programs (fun program =>
       program <- assign_state program READY ;;
       SRTF_push program) ;;
     q <- gets SRTF_queue_ ;;
     SRTF_loop (total_operations q) 0) ;;
  print "Simulator program ending".

End Engine.

(** ** Reading the meta-data file *)

(** An input file stream: what is still to be read, and whether the
    stream is [good()].  Once end of file has been met no operation
    extracts anything any more. *)
Record istream : Type := mkIstream { rdbuf : string; good : bool }.

Definition isspace (c : ascii) : bool :=
  let n := nat_of_ascii c in
  Nat.eqb n 32 || (Nat.leb 9 n && Nat.leb n 13).

Definition isdigit (c : ascii) : bool :=
  let n := nat_of_ascii c in Nat.leb 48 n && Nat.leb n 57.

(** The characters before the first [delim], and what follows it; [None]
    when the end of the text comes first. *)
Fixpoint extract (delim : ascii) (buf : string) : string * option string :=
  match buf with
  | EmptyString => (EmptyString, None)
  | String c rest =>
      if Ascii.eqb c delim then (EmptyString, Some rest)
      else let r := extract delim rest in (String c (fst r), snd r)
  end.

(** [std::getline(fin, str, delim)]: a stream that is not good leaves
    [str] as it was. *)
Definition getline (fin : istream) (str : string) (delim : ascii)
  : string * istream :=
  if good fin then
    match extract delim (rdbuf fin) with
    | (line, Some rest) => (line, mkIstream rest true)
    | (line, None) => (line, mkIstream EmptyString false)
    end
  else (str, fin).

Fixpoint skipws (buf : string) : string :=
  match buf with
  | EmptyString => EmptyString
  | String c rest => if isspace c then skipws rest else buf
  end.

(** [fin >> std::ws]. *)
Definition ws (fin : istream) : istream :=
  if good fin then
    match skipws (rdbuf fin) with
    | EmptyString => mkIstream EmptyString false
    | rest => mkIstream rest true
    end
  else fin.

(** [fin.peek()]; [None] is [EOF]. *)
Definition peek (fin : istream) : option ascii * istream :=
  if good fin then
    match rdbuf fin with
    | EmptyString => (None, mkIstream EmptyString false)
    | String c _ => (Some c, fin)
    end
  else (None, fin).

(** [int paranthesisLocation = input.find(')')]: [npos] becomes [-1]. *)
Fixpoint find (c : ascii) (s : string) : option nat :=
  match s with
  | EmptyString => None
  | String c' rest =>
      if Ascii.eqb c' c then Some O else option_map S (find c rest)
  end.

Definition find_int (c : ascii) (s : string) : Z :=
  match find c s with Some n => Z.of_nat n | None => -1 end.

Definition throw {A} (e : error) : M A := fun _ => Throw e.

(** [input.front()]. *)
Definition front (input : string) : M ascii :=
  match input with
  | EmptyString => undefined
  | String c _ => ret c
  end.

(** [input.substr(pos, count)], [count] converted to [size_t]: a negative
    [int] is past any length. *)
Definition substr (input : string) (pos : nat) (count : Z) : M string :=
  if Nat.ltb (String.length input) pos then throw SubstrOutOfRange
  else ret (substring pos
              (if count <? 0 then String.length input else Z.to_nat count)
              input).

(** [std::string( input.begin()+n, input.end() )]. *)
Definition from_position (input : string) (n : Z) : string :=
  substring (Z.to_nat n) (String.length input) input.

Fixpoint digits (s : string) (acc : Z) : Z :=
  match s with
  | EmptyString => acc
  | String c rest =>
      if isdigit c then digits rest (10 * acc + Z.of_nat (nat_of_ascii c - 48))
      else acc
  end.

(** [std::stoi]: blanks, a sign, then decimal digits; what follows the
    digits is ignored. *)
Definition stoi (s : string) : M Z :=
  let s := skipws s in
  let signed :=
    match s with
    | String "-" rest => (true, rest)
    | String "+" rest => (false, rest)
    | _ => (false, s)
    end in
  match snd signed with
  | EmptyString => throw StoiInvalidArgument
  | String c _ =>
      if isdigit c then
        let v := digits (snd signed) 0 in
        let v := if fst signed then - v else v in
        if (- 2 ^ 31 <=? v) && (v <? 2 ^ 31) then ret v
        else throw StoiOutOfRange
      else throw StoiInvalidArgument
  end.

(** [Simulator::set_operation_cycle_time]. *)
Definition set_operation_cycle_time (operation : Operation) : M Operation :=
  if Ascii.eqb (type operation) "P" then
    t <- gets processorCycleTime_ ;; ret (with_cycleTime t operation)
  else if Ascii.eqb (type operation) "I" || Ascii.eqb (type operation) "O" then
    if String.eqb (description operation) "hard drive" then
      t <- gets hardDriveCycleTime_ ;; ret (with_cycleTime t operation)
    else if String.eqb (description operation) "keyboard" then
      t <- gets keyboardCycleTime_ ;; ret (with_cycleTime t operation)
    else if String.eqb (description operation) "monitor" then
      t <- gets monitorDisplayTime_ ;; ret (with_cycleTime t operation)
    else if String.eqb (description operation) "printer" then
      t <- gets printerCycleTime_ ;; ret (with_cycleTime t operation)
    else ret operation
  else if Ascii.eqb (type operation) "A" || Ascii.eqb (type operation) "S" then
    ret (with_cycleTime 0 operation)
  else throw UnrecognizedOperationType.

(** Modelled from the spec: where Sim03 fills in [operation.duration] is
    not in the sources at hand; "Derived duration = cycles * cycleTime". *)
Definition derive_duration (operation : Operation) : Operation :=
  with_duration (wrap (cycles operation * cycleTime operation)) operation.

(** The text of one token made into the fields of [operation], as the body
    of the [do] loop of [load_meta_data] does it. *)
Definition parse_operation (input : string) (operation : Operation)
  : M Operation :=
  let paranthesisLocation := find_int ")" input in
  c <- front input ;;
  let operation := with_type c operation in
  d <- substr input 2 (paranthesisLocation - 2) ;;
  let operation := with_description d operation in
  n <- stoi (from_position input (paranthesisLocation + 1)) ;;
  let operation := with_cycles n operation in
  operation <- set_operation_cycle_time operation ;;
  ret (derive_duration operation).

(** The local variables of [load_meta_data] that live across its loops. *)
Record Locals : Type := mkLocals {
  fin : istream;
  input : string;
  operation : Operation
}.

(** The [do { ... } while( input != "A(end)0" )] loop, filling
    [newProgram]. *)
Fixpoint read_program (fuel : nat) (l : Locals) (newProgram : Program)
  : M (Locals * Program) :=
  match fuel with
  | O => timeout
  | S fuel' =>
      let r := getline (fin l) (input l) ";" in
      operation <- parse_operation (fst r) (operation l) ;;
      let newProgram := add_operation operation newProgram in
      let l := mkLocals (ws (snd r)) (fst r) operation in
      if negb (String.eqb (fst r) "A(end)0") then
        read_program fuel' l newProgram
      else ret (l, newProgram)
  end.

Definition push_back (p : Program) : M unit :=
  modify (fun s => with_programs (programs_ s ++ [p]) s).

(** The [while( fin.peek() != 'S' )] loop. *)
Fixpoint read_programs (fuel : nat) (l : Locals) : M Locals :=
  let r := peek (fin l) in
  let l := mkLocals (snd r) (input l) (operation l) in
  if match fst r with Some c => Ascii.eqb c "S" | None => false end
  then ret l
  else
    match fuel with
    | O => timeout
    | S fuel' =>
        r' <- read_program fuel' l Program_new ;;
        push_back (snd r') ;;
        read_programs fuel' (fst r')
    end.

Definition preamble : string :=
  ("Start Program Meta-Data Code:" ++ nl ++ "S(start)0")%string.

(** [Simulator::load_meta_data].  [file] is the content of the file at
    [filePath], [None] when it cannot be opened; [operation0] is the
    indeterminate initial value of the local [operation]. *)
Definition load_meta_data (file : option string) (operation0 : Operation)
    (fuel : nat) : M unit :=
  match file with
  | None => throw UnableToOpenFile
  | Some text =>
      let r := getline (mkIstream text true) EmptyString ";" in
      let l := mkLocals (ws (snd r)) (fst r) operation0 in
      if negb (String.eqb (input l) preamble) then throw StartFlagMissing
      else
        l <- read_programs fuel l ;;
        let r := getline (fin l) (input l) "." in
        let l := mkLocals (ws (snd r)) (fst r) (operation l) in
        if negb (String.eqb (input l) "S(end)0") then throw EndFlagMissing
        else
          let r := getline (fin l) (input l) "." in
          if negb (String.eqb (fst r) "End Program Meta-Data Code")
          then throw NoEndLine
          else ret tt
  end.

(** ** Projections of a trace *)

Definition stamps (tr : list Event) : list Z :=
  flat_map (fun e => match e with EvPrint t _ => [t] | _ => [] end) tr.

Definition messages (tr : list Event) : list string :=
  flat_map (fun e => match e with EvPrint _ m => [m] | _ => [] end) tr.

Definition sleeps (tr : list Event) : list Z :=
  flat_map (fun e => match e with EvSleep d => [d] | _ => [] end) tr.

(** The Program objects bound for dispatch, in order. *)
Definition selects (tr : list Event) : list Program :=
  flat_map (fun e => match e with EvSelect p => [p] | _ => [] end) tr.

(** The assignments to [state]: the value before and the value after. *)
Definition transitions (tr : list Event) : list (State * State) :=
  flat_map (fun e => match e with EvState p s => [(state p, s)] | _ => [] end)
    tr.

(** The ghost records alone. *)
Definition scheduling (tr : list Event) : list Event :=
  filter (fun e => match e with EvSelect _ | EvState _ _ => true
                   | _ => false end) tr.

(** What reaches the screen and the log file. *)
Definition cout (s : Simulator) : list (Z * string) :=
  match logLocation_ s with
  | FILE => []
  | _ => flat_map (fun e => match e with EvPrint t m => [(t, m)] | _ => [] end)
           (trace s)
  end.

Definition fout_ (s : Simulator) : list (Z * string) :=
  match logLocation_ s with
  | SCREEN => []
  | _ => flat_map (fun e => match e with EvPrint t m => [(t, m)] | _ => [] end)
           (trace s)
  end.


(** * Specification vocabulary *)

(** [steps R m]: whenever [m] returns, the simulator before and after are
    related by [R]. *)
Definition steps (R : Simulator -> Simulator -> Prop) {A} (m : M A) : Prop :=
  forall s a s', m s = Ok (a, s') -> R s s'.

(** The stamps that [n] further calls of [print] compute when [r] readings
    of the clock have been taken and the run started at [start]. *)
Definition stamps_from (system_clock : nat -> Z) (start : Z) (r n : nat)
  : list Z :=
  map (fun k => system_clock k - start) (seq r n).

(** A step of the engine: it appends to the trace, stamps its lines with
    the next clock readings, and leaves [programs_] and [start_] alone. *)
Definition engine_step (system_clock : nat -> Z) (s s' : Simulator) : Prop :=
  programs_ s' = programs_ s /\
  start_ s' = start_ s /\
  (clock_reads s <= clock_reads s')%nat /\
  exists evs,
    trace s' = trace s ++ evs /\
    stamps evs =
      stamps_from system_clock (start_ s) (clock_reads s)
        (clock_reads s' - clock_reads s).

(** A step that only prints and sleeps: no scheduling record, and the
    priority structure is as before. *)
Definition output_step (system_clock : nat -> Z) (s s' : Simulator) : Prop :=
  programs_ s' = programs_ s /\
  SRTF_queue_ s' = SRTF_queue_ s /\
  start_ s' = start_ s /\
  (clock_reads s <= clock_reads s')%nat /\
  exists evs,
    trace s' = trace s ++ evs /\
    scheduling evs = [] /\
    stamps evs =
      stamps_from system_clock (start_ s) (clock_reads s)
        (clock_reads s' - clock_reads s).

(** What one call of [process_operation] leaves of an operation queue:
    the start announcement and the operation after it go together, and
    the last operation goes with the one before it. *)
Definition consume (ops : list Operation) : option (list Operation) :=
  match ops with
  | [] => None
  | o :: rest =>
      let after :=
        if is_start o then
          match rest with [] => None | _ :: rest' => Some rest' end
        else Some rest in
      match after with
      | None => None
      | Some [_] => Some []
      | Some rest' => Some rest'
      end
  end.

(** An operation queue whose last operation is not a start announcement:
    [process_operation] never reads past its end. *)
Definition ends_well (ops : list Operation) : Prop :=
  exists body e, ops = body ++ [e] /\ is_start e = false.

(** [m] returns [a] from every simulator; [m] runs into undefined
    behaviour from every simulator. *)
Definition returns {A} (m : M A) (a : A) : Prop :=
  forall s, exists s', m s = Ok (a, s').

Definition goes_wrong {A} (m : M A) : Prop := forall s, m s = Undefined.

(** A step during which [sleep_for] is called with exactly the durations
    [ds], in order. *)
Definition sleeps_are (ds : list Z) (s s' : Simulator) : Prop :=
  exists evs, trace s' = trace s ++ evs /\ sleeps evs = ds.

(** The operation queue once a leading start announcement is taken off. *)
Definition after_start (ops : list Operation) : list Operation :=
  match ops with
  | [] => []
  | o :: rest => if is_start o then rest else ops
  end.

(** The operations [process_operation] blocks for: processing, and input
    or output on one of the four devices [process_IO] knows. *)
Definition timed (o : Operation) : bool :=
  Ascii.eqb (type o) "P" ||
  ((Ascii.eqb (type o) "I" || Ascii.eqb (type o) "O") &&
   (String.eqb (description o) "hard drive" ||
    String.eqb (description o) "keyboard" ||
    String.eqb (description o) "monitor" ||
    String.eqb (description o) "printer")).

(** The priority structure holds its Programs in ascending
    [running_time]. *)
Definition pq_sorted (q : list Program) : Prop :=
  StronglySorted (fun a b => running_time a <= running_time b) q.

(** The Program object of an SRTF turn once its id is settled. *)
Definition identified (programCounter : Z) (p : Program) : Program :=
  if id p =? 0 then with_id (wrap (programCounter + 1)) p else p.

Definition turn_counter (programCounter : Z) (p : Program) : Z :=
  if id p =? 0 then wrap (programCounter + 1) else programCounter.

(** The scheduling records of the SRTF loop from a given priority
    structure, and the structure one turn leaves. *)
Definition turn_queue (p' : Program) (rest : list Program) : list Program :=
  match operations p' with
  | [] => rest
  | _ :: _ => pq_push (with_state READY p') rest
  end.

Definition turn_records (programCounter : Z) (p : Program)
    (ops' : list Operation) : list Event :=
  let p1 := identified programCounter p in
  let p2 := with_operations ops' (with_state RUNNING p1) in
  [EvSelect p; EvState p1 RUNNING;
   EvState p2 (match ops' with [] => EXIT | _ :: _ => READY end)].

Fixpoint SRTF_schedule (fuel : nat) (programCounter : Z) (q : list Program)
  : list Event :=
  match fuel, q with
  | S fuel', p :: rest =>
      match consume (operations p) with
      | None => []
      | Some ops' =>
          let p2 :=
            with_operations ops'
              (with_state RUNNING (identified programCounter p)) in
          turn_records programCounter p ops' ++
          SRTF_schedule fuel' (turn_counter programCounter p)
            (turn_queue p2 rest)
      end
  | _, _ => []
  end.

(** The priority structure after the admission loop of the SRTF branch. *)
Definition enqueue_all (programs q : list Program) : list Program :=
  fold_left (fun q p => pq_push (with_state READY p) q) programs q.

(** The scheduling records of the FIFO dispatch loop. *)
Fixpoint FIFO_schedule (programs : list Program) (programCounter : Z)
  : list Event :=
  match programs with
  | [] => []
  | p :: rest =>
      let p1 := with_id (wrap (programCounter + 1)) p in
      [EvSelect p; EvState p1 RUNNING;
       EvState (with_operations [] (with_state RUNNING p1)) EXIT] ++
      FIFO_schedule rest (wrap (programCounter + 1))
  end.

(** [post m s Q]: from [s], [m] returns, with a value and a simulator
    that satisfy [Q]. *)
Definition post {A} (m : M A) (s : Simulator) (Q : A -> Simulator -> Prop)
  : Prop :=
  exists a s', m s = Ok (a, s') /\ Q a s'.

(** The scheduling records of a whole run, by discipline. *)
Definition SRTF_records (programs : list Program) : list Event :=
  map (fun p => EvState p READY) programs ++
  SRTF_schedule (total_operations (enqueue_all programs [])) 0
    (enqueue_all programs []).

Definition FIFO_records (programs : list Program) : list Event :=
  map (fun p => EvState p READY) programs ++ FIFO_schedule programs 0.

(** A Program that was never dispatched: the test of the SRTF loop. *)
Definition fresh (p : Program) : bool := id p =? 0.

(** A Program as [load_meta_data] leaves it in [programs_]. *)
Definition as_loaded (p : Program) : Prop :=
  state p = START /\ id p = 0 /\ ends_well (operations p).

(** The next state of the life cycle, and the states in their order. *)
Definition follows (a b : State) : bool :=
  match a, b with
  | START, READY | READY, RUNNING | RUNNING, EXIT => true
  | _, _ => false
  end.

Definition rank (st : State) : nat :=
  match st with START => 0 | READY => 1 | RUNNING => 2 | EXIT => 3 end.

(** The step back of a re-queued Program. *)
Definition requeues (a b : State) : bool :=
  match a, b with RUNNING, READY => true | _, _ => false end.

(** The trace of a run that returns; nothing otherwise. *)
Definition run_trace (system_clock : nat -> Z) (s : Simulator) : list Event :=
  match run system_clock s with
  | Ok (_, s') => trace s'
  | _ => []
  end.

(** The bracketing program-control operations, [A(start)] and [A(end)]. *)
Definition bracketing (o : Operation) : bool :=
  Ascii.eqb (type o) "A" &&
  (String.eqb (description o) "start" || String.eqb (description o) "end").

(** A sum of [int]s accumulated with [+=]. *)
Definition int_sum (l : list Z) : Z :=
  fold_left (fun acc d => wrap (acc + d)) l 0.

(** The Program objects that the scheduling records of a trace are about. *)
Definition subjects (tr : list Event) : list Program :=
  flat_map (fun e => match e with
                     | EvSelect p | EvState p _ => [p]
                     | _ => []
                     end) tr.

(** [x] is a copy of the Program [y] that has run for a while: the same
    [running_time], and what is left of the operation queue. *)
Definition copy_of (y x : Program) : Prop :=
  running_time x = running_time y /\
  exists consumed, operations y = consumed ++ operations x.

(** ** Sample inputs *)

Definition sample_config (code : string) : Simulator :=
  mkSimulator code SCREEN 10 20 5 30 40 [] [] 0 0 [].

Definition sample_operation : Operation := mkOperation "?" EmptyString 0 0 0.

Definition closing : string :=
  (" S(end)0." ++ nl ++ "End Program Meta-Data Code." ++ nl)%string.

(** One Program with two timed operations. *)
Definition sample_text : string :=
  (preamble ++ "; A(start)0; P(run)3; I(hard drive)2; A(end)0;" ++ closing)
  %string.

(** A Program with nothing between its brackets. *)
Definition minimal_text : string :=
  (preamble ++ "; A(start)0; A(end)0;" ++ closing)%string.

(** An input operation on a device the simulator does not know. *)
Definition scanner_text : string :=
  (preamble ++ "; A(start)0; P(run)3; I(scanner)5; A(end)0;" ++ closing)%string.


(** Two Programs, the second the shorter. *)
Definition two_programs_text : string :=
  (preamble ++ "; A(start)0; P(run)3; I(hard drive)2; A(end)0;"
            ++ " A(start)0; P(run)1; O(monitor)1; A(end)0;" ++ closing)%string.


(** The simulator as its constructor leaves it: configured, and with the
    Programs of the meta-data file in [programs_]. *)
Definition constructed (code text : string) : Simulator :=
  match load_meta_data (Some text) sample_operation 64 (sample_config code) with
  | Ok (_, s) => s
  | _ => sample_config code
  end.

(** A system clock that is set back after the second reading. *)
Definition clock_set_back (n : nat) : Z :=
  if Nat.leb n 1 then 1000 + Z.of_nat n else 500 + Z.of_nat n.

(** What [load_meta_data] has put in the Program it is filling. *)
Definition filled (p : Program) : Prop :=
  state p = START /\ id p = 0 /\
  running_time p =
    int_sum (map duration
               (filter (fun o => negb (bracketing o)) (operations p))).

(** The simulator a run leaves; the one it was given if it does not
    return. *)
Definition run_state (system_clock : nat -> Z) (s : Simulator) : Simulator :=
  match run system_clock s with
  | Ok (_, s') => s'
  | _ => s
  end.

(** The events a run adds to the trace. *)
Definition run_events (system_clock : nat -> Z) (s : Simulator)
  : list Event :=
  skipn (List.length (trace s)) (run_trace system_clock s).

(** Decidable forms of [ends_well] and [as_loaded]. *)
Definition ends_wellb (ops : list Operation) : bool :=
  match rev ops with
  | [] => false
  | e :: _ => negb (is_start e)
  end.

Definition as_loadedb (p : Program) : bool :=
  match state p with START => true | _ => false end &&
  (id p =? 0) && ends_wellb (operations p).

(** A priority structure for the samples: the two Programs enqueued. *)
Definition sample_queue : list Program :=
  enqueue_all (programs_ (constructed "SRTF-N" two_programs_text)) [].

(** ** The text [load_meta_data] accepts *)

Fixpoint blank (w : string) : bool :=
  match w with
  | EmptyString => true
  | String c rest => isspace c && blank rest
  end.




(** * Further vocabulary *)

(** The operation types [set_operation_cycle_time] has a branch for. *)
Definition recognized_type (c : ascii) : bool :=
  Ascii.eqb c "P" || Ascii.eqb c "I" || Ascii.eqb c "O" ||
  Ascii.eqb c "A" || Ascii.eqb c "S".

(** The cycle time [set_operation_cycle_time] leaves on an operation. *)
Definition resolved_cycle_time (s : Simulator) (o : Operation) : Z :=
  if Ascii.eqb (type o) "P" then processorCycleTime_ s
  else if Ascii.eqb (type o) "I" || Ascii.eqb (type o) "O" then
    if String.eqb (description o) "hard drive" then hardDriveCycleTime_ s
    else if String.eqb (description o) "keyboard" then keyboardCycleTime_ s
    else if String.eqb (description o) "monitor" then monitorDisplayTime_ s
    else if String.eqb (description o) "printer" then printerCycleTime_ s
    else cycleTime o
  else 0.

(** Neither of two Programs is less than the other. *)
Definition Program_equiv (p q : Program) : Prop :=
  Program_lt p q = false /\ Program_lt q p = false.

(** What [load_meta_data] guarantees of a Program it has stored: the
    defaults of a new Program, a last operation read from [A(end)0], and
    operations of the five types with cycles in the range of [int]. *)
Definition loaded_shape (p : Program) : Prop :=
  state p = START /\ id p = 0 /\
  (exists body e,
     operations p = body ++ [e] /\
     type e = "A"%char /\ description e = "end"%string /\
     cycles e = 0 /\ cycleTime e = 0) /\
  Forall (fun o => recognized_type (type o) = true /\ in_int (cycles o))
    (operations p).

(** A token that [parse_operation] makes into an operation, whatever the
    local [operation] held before. *)
Definition parses (token : string) : Prop :=
  forall operation0 s, exists o, parse_operation token operation0 s = Ok (o, s).

(** The Programs set EXIT, and the Programs set RUNNING, as they were
    before the assignment. *)
Definition exits (tr : list Event) : list Program :=
  flat_map (fun e => match e with EvState p EXIT => [p] | _ => [] end) tr.

Definition running (tr : list Event) : list Program :=
  flat_map (fun e => match e with EvState p RUNNING => [p] | _ => [] end) tr.

(** The durations of the operations of a queue that are blocked for. *)
Definition timed_durations (ops : list Operation) : list Z :=
  map duration (filter timed ops).

(** An operation queue whose last operation is neither a start
    announcement nor blocked for, as the one read from [A(end)0]. *)
Definition ends_quietly (ops : list Operation) : Prop :=
  exists body e, ops = body ++ [e] /\ is_start e = false /\ timed e = false.

Definition ends_quietlyb (ops : list Operation) : bool :=
  match rev ops with
  | [] => false
  | e :: _ => negb (is_start e) && negb (timed e)
  end.

(** ** Sim01: main.cpp *)

Definition EXIT_SUCCESS : Z := 0.
Definition EXIT_FAILURE : Z := 1.

(** [main]: the exit status and the lines written to [std::cerr].
    [argv] holds the [argc] arguments of the command line; [argv[argc]]
    is the null pointer, here [None].  The Simulator of Sim01 is not
    among the sources: [simulate] stands for its construction from
    [argv[1]] and its [run]. *)
Definition main (simulate : option string -> result unit) (argc : Z)
    (argv : list string) : result (Z * list string) :=
  if negb (argc =? 1) then
    match nth_error argv 0 with
    | None => Undefined
    | Some name =>
        Ok (EXIT_FAILURE,
            [ "Error: Incorrect number of command line arguments"%string;
              ("Example usage: " ++ name ++ " config_file.cnf")%string ])
    end
  else
    match simulate (nth_error argv 1) with
    | Ok _ => Ok (EXIT_SUCCESS, [])
    | Throw e => Throw e
    | Undefined => Undefined
    | Timeout => Timeout
    end.

(** The Programs of the first dispatches with the Programs they are set
    RUNNING as: the pairs of a fresh selected Program and the Program the
    next assignment of RUNNING is made to. *)
Definition dispatches (tr : list Event) : list (Program * Program) :=
  combine (selects tr) (running tr).

(** ** The scheduling code *)

Definition with_code (code : string) (s : Simulator) : Simulator :=
  mkSimulator code (logLocation_ s) (processorCycleTime_ s)
    (monitorDisplayTime_ s) (hardDriveCycleTime_ s) (printerCycleTime_ s)
    (keyboardCycleTime_ s) (programs_ s) (SRTF_queue_ s) (start_ s)
    (clock_reads s) (trace s).

(** The outcome of a computation with the scheduling code of the final
    simulator replaced. *)
Definition recoded {A} (code : string) (r : result (A * Simulator))
  : result (A * Simulator) :=
  match r with
  | Ok (a, s) => Ok (a, with_code code s)
  | Throw e => Throw e
  | Undefined => Undefined
  | Timeout => Timeout
  end.

(** A computation that does not look at the scheduling code. *)
Definition code_blind {A} (m : M A) : Prop :=
  forall code s, m (with_code code s) = recoded code (m s).

(** The Program and the simulator one call of [process_operation] leaves;
    those it was given if it does not return. *)
Definition stepped (system_clock : nat -> Z) (p : Program) (s : Simulator)
  : Program * Simulator :=
  match process_operation system_clock p s with
  | Ok x => x
  | _ => (p, s)
  end.

(** The first Program of the sample file. *)
Definition sample_program : Program :=
  hd Program_new (programs_ (constructed "SRTF-N" sample_text)).

(** ** Pushes on the priority structure *)

(** The Programs pushed on the priority structure, as they are pushed.
    In the SRTF branch of [run] every assignment of READY is followed at
    once by the push of the Program assigned to: at admission (lines
    81-82) and when a Program that is not done is put back (lines
    112-113). *)
Definition readied (tr : list Event) : list Program :=
  flat_map (fun e => match e with
                     | EvState p READY => [with_state READY p]
                     | _ => []
                     end) tr.

(** Two Programs of the same [running_time], each of two timed
    operations. *)
Definition tied_programs_text : string :=
  (preamble ++ "; A(start)0; P(run)3; I(hard drive)2; A(end)0;"
            ++ " A(start)0; I(hard drive)2; P(run)3; A(end)0;" ++ closing)
  %string.

(** ** The dispatches of the FIFO loop *)

(** What one turn of the FIFO dispatch loop appends to the trace for the
    Program [p] numbered [programCounter]: the Program is bound, the
    selection is announced, the Program is set RUNNING, its operations
    are processed, one call of [sleep_for] for each timed operation in
    the order of the queue and no scheduling record in between, and the
    Program, its queue empty, is set EXIT. *)
Definition FIFO_block (p : Program) (programCounter : Z)
    (block : list Event) : Prop :=
  exists t body,
    block =
      EvSelect p :: EvPrint t "OS: selecting next process" ::
      EvState (with_id programCounter p) RUNNING ::
      body ++
      [EvState
         (with_operations [] (with_state RUNNING (with_id programCounter p)))
         EXIT] /\
    scheduling body = [] /\
    sleeps body = timed_durations (operations p).

(** One block for each Program, in order, numbered as the loop counts. *)
Fixpoint FIFO_blocks (programs : list Program) (programCounter : Z)
    (blocks : list (list Event)) : Prop :=
  match programs, blocks with
  | [], [] => True
  | p :: rest, block :: more =>
      FIFO_block p (wrap (programCounter + 1)) block /\
      FIFO_blocks rest (wrap (programCounter + 1)) more
  | _, _ => False
  end.

(** ** Programs run to their end *)

(** The Program object as it is when [run] assigns EXIT to it: RUNNING,
    its operation queue empty. *)
Definition finished (p : Program) : Program :=
  with_operations [] (with_state RUNNING p).

(** The Programs [l] numbered from [first] on, each run to its end. *)
Definition numbered_from (first : nat) (l : list Program) : list Program :=
  map (fun ip => finished (with_id (Z.of_nat (fst ip)) (snd ip)))
    (combine (seq first (List.length l)) l).

(** ** The text [load_meta_data] reads *)













(** ** More sample texts *)







(** * Reasoning about the simulator monad *)

Lemma bind_Ok {A B} (m : M A) (k : A -> M B) s r :
  bind m k s = Ok r ->
  exists a s1, m s = Ok (a, s1) /\ k a s1 = Ok r.
Proof.
  unfold bind. destruct (m s) as [[a s1]| | |]; try discriminate.
  intros H. exists a, s1. split; [reflexivity | exact H].
Qed.

Lemma bind_of_Ok {A B} (m : M A) (k : A -> M B) s a s1 :
  m s = Ok (a, s1) -> bind m k s = k a s1.
Proof. unfold bind. intros ->. reflexivity. Qed.

Ltac inv_bind H :=
  let a := fresh "a" in
  let s1 := fresh "s" in
  let H1 := fresh "Hm" in
  apply bind_Ok in H; destruct H as (a & s1 & H1 & H).

Section Steps.

Variable R : Simulator -> Simulator -> Prop.
Hypothesis R_refl : forall s, R s s.
Hypothesis R_trans : forall s1 s2 s3, R s1 s2 -> R s2 s3 -> R s1 s3.

Lemma steps_ret {A} (a : A) : steps R (ret a).
Proof. intros s a' s' H. inversion H; subst. apply R_refl. Qed.

Lemma steps_bind {A B} (m : M A) (k : A -> M B) :
  steps R m -> (forall a, steps R (k a)) -> steps R (bind m k).
Proof.
  intros Hm Hk s b s' H. inv_bind H.
  eapply R_trans; [eapply Hm | eapply Hk]; eassumption.
Qed.

Lemma steps_gets {A} (f : Simulator -> A) : steps R (gets f).
Proof. intros s a s' H. inversion H; subst. apply R_refl. Qed.

Lemma steps_undefined {A} : steps R (@undefined A).
Proof. intros s a s' H. discriminate. Qed.

Lemma steps_timeout {A} : steps R (@timeout A).
Proof. intros s a s' H. discriminate. Qed.

Lemma steps_throw {A} e : steps R (@throw A e).
Proof. intros s a s' H. discriminate. Qed.

Lemma steps_of_option {A} (o : option A) : steps R (of_option o).
Proof. destruct o; [apply steps_ret | apply steps_undefined]. Qed.

Lemma steps_modify f : (forall s, R s (f s)) -> steps R (modify f).
Proof. intros Hf s a s' H. inversion H; subst. apply Hf. Qed.

End Steps.

(** ** Projections of a trace *)

Lemma stamps_app a b : stamps (a ++ b) = stamps a ++ stamps b.
Proof. apply flat_map_app. Qed.

Lemma messages_app a b : messages (a ++ b) = messages a ++ messages b.
Proof. apply flat_map_app. Qed.

Lemma sleeps_app a b : sleeps (a ++ b) = sleeps a ++ sleeps b.
Proof. apply flat_map_app. Qed.

Lemma selects_app a b : selects (a ++ b) = selects a ++ selects b.
Proof. apply flat_map_app. Qed.

Lemma transitions_app a b :
  transitions (a ++ b) = transitions a ++ transitions b.
Proof. apply flat_map_app. Qed.

Lemma scheduling_app a b : scheduling (a ++ b) = scheduling a ++ scheduling b.
Proof. apply filter_app. Qed.

(** ** Computations that always return *)

Lemma returns_ret {A} (a : A) : returns (ret a) a.
Proof. intros s. exists s. reflexivity. Qed.

Lemma returns_bind {A B} (m : M A) (k : A -> M B) a b :
  returns m a -> returns (k a) b -> returns (bind m k) b.
Proof.
  intros Hm Hk s. destruct (Hm s) as [s1 H1]. destruct (Hk s1) as [s2 H2].
  exists s2. unfold bind. rewrite H1. exact H2.
Qed.

Lemma wrong_bind {A B} (m : M A) (k : A -> M B) a :
  returns m a -> goes_wrong (k a) -> goes_wrong (bind m k).
Proof.
  intros Hm Hk s. destruct (Hm s) as [s1 H1]. unfold bind. rewrite H1. apply Hk.
Qed.

Lemma wrong_first {A B} (m : M A) (k : A -> M B) :
  goes_wrong m -> goes_wrong (bind m k).
Proof. intros Hm s. unfold bind. rewrite Hm. reflexivity. Qed.

Lemma remaining_one p :
  (remaining_operations p =? 1) =
  match operations p with [_] => true | _ => false end.
Proof.
  unfold remaining_operations.
  destruct (operations p) as [|a [|b l]]; try reflexivity.
  apply Z.eqb_neq. cbn [List.length]. lia.
Qed.

(** ** Postconditions *)

Lemma post_ret {A} (a : A) s (Q : A -> Simulator -> Prop) :
  Q a s -> post (ret a) s Q.
Proof. intros H. exists a, s. split; [reflexivity | exact H]. Qed.

Lemma post_bind {A B} (m : M A) (k : A -> M B) s (Q : B -> Simulator -> Prop) :
  post m s (fun a s1 => post (k a) s1 Q) -> post (bind m k) s Q.
Proof.
  intros (a & s1 & H1 & b & s2 & H2 & HQ). exists b, s2. split; [|exact HQ].
  unfold bind. rewrite H1. exact H2.
Qed.

Lemma post_gets {A} (f : Simulator -> A) s (Q : A -> Simulator -> Prop) :
  Q (f s) s -> post (gets f) s Q.
Proof. intros H. exists (f s), s. split; [reflexivity | exact H]. Qed.

Lemma post_modify f s (Q : unit -> Simulator -> Prop) :
  Q tt (f s) -> post (modify f) s Q.
Proof. intros H. exists tt, (f s). split; [reflexivity | exact H]. Qed.

Lemma post_weaken {A} (m : M A) s (Q Q' : A -> Simulator -> Prop) :
  post m s Q -> (forall a s', Q a s' -> Q' a s') -> post m s Q'.
Proof. intros (a & s' & H & HQ) HI. exists a, s'. split; auto. Qed.

Lemma post_steps {A} (m : M A) s R (Q : A -> Simulator -> Prop) :
  steps R m -> post m s Q -> post m s (fun a s' => R s s' /\ Q a s').
Proof.
  intros HR (a & s' & H & HQ). exists a, s'. repeat split; auto.
  eapply HR; eassumption.
Qed.

Lemma post_returns {A} (m : M A) a s :
  returns m a -> post m s (fun a' _ => a' = a).
Proof. intros H. destruct (H s) as [s' Hs]. exists a, s'. split; auto. Qed.

Lemma post_Ok {A} (m : M A) s (Q : A -> Simulator -> Prop) a s' :
  post m s Q -> m s = Ok (a, s') -> Q a s'.
Proof. intros (a0 & s0 & H & HQ) H'. rewrite H in H'. inversion H'; subst. exact HQ. Qed.

Lemma sleeps_are_ret {A} (a : A) : steps (sleeps_are []) (ret a).
Proof.
  intros s a' s' H. inversion H; subst. exists []. rewrite app_nil_r. auto.
Qed.

Lemma sleeps_are_bind {A B} (m : M A) (k : A -> M B) l1 l2 l :
  steps (sleeps_are l1) m -> (forall a, steps (sleeps_are l2) (k a)) ->
  l = l1 ++ l2 -> steps (sleeps_are l) (bind m k).
Proof.
  intros Hm Hk -> s b s' H. inv_bind H.
  destruct (Hm _ _ _ Hm0) as (e1 & Ht1 & Hs1).
  destruct (Hk _ _ _ _ H) as (e2 & Ht2 & Hs2).
  exists (e1 ++ e2). split.
  - rewrite Ht2, Ht1, app_assoc. reflexivity.
  - rewrite sleeps_app, Hs1, Hs2. reflexivity.
Qed.

Lemma sleeps_are_of_option {A} (o : option A) : steps (sleeps_are []) (of_option o).
Proof.
  destruct o; [apply sleeps_are_ret | intros s a s' H; discriminate].
Qed.

Lemma returns_value {A} (m : M A) x s a s' :
  returns m x -> m s = Ok (a, s') -> a = x.
Proof.
  intros H E. destruct (H s) as [s1 H1]. rewrite H1 in E.
  inversion E; subst. reflexivity.
Qed.

Lemma sleeps_are_bind_ret {A B} (m : M A) (k : A -> M B) x l1 l2 l :
  returns m x -> steps (sleeps_are l1) m -> steps (sleeps_are l2) (k x) ->
  l = l1 ++ l2 -> steps (sleeps_are l) (bind m k).
Proof.
  intros Hx Hm Hk -> s b s' H. inv_bind H.
  assert (a = x) by (eapply returns_value; eassumption). subst a.
  destruct (Hm _ _ _ Hm0) as (e1 & Ht1 & Hs1).
  destruct (Hk _ _ _ H) as (e2 & Ht2 & Hs2).
  exists (e1 ++ e2). split.
  - rewrite Ht2, Ht1, app_assoc. reflexivity.
  - rewrite sleeps_app, Hs1, Hs2. reflexivity.
Qed.

(** ** Operation queues *)

Lemma ends_well_nil : ~ ends_well [].
Proof. intros (body & e & H & _). destruct body; discriminate. Qed.

Lemma ends_well_cons_inv o rest :
  ends_well (o :: rest) ->
  (rest = [] /\ is_start o = false) \/ ends_well rest.
Proof.
  intros (body & e & H & He). destruct body as [|b body]; cbn in H.
  - inversion H; subst. left. split; auto.
  - inversion H; subst. right. exists body, e. split; auto.
Qed.

Lemma ends_well_cons o rest : ends_well rest -> ends_well (o :: rest).
Proof.
  intros (body & e & H & He). exists (o :: body), e. subst. split; auto.
Qed.

Lemma consume_length ops ops' :
  consume ops = Some ops' -> (List.length ops' < List.length ops)%nat.
Proof.
  unfold consume. destruct ops as [|o rest]; [discriminate|].
  destruct (is_start o).
  - destruct rest as [|o1 [|o2 [|o3 r]]]; intros H; inversion H; subst;
      cbn; lia.
  - destruct rest as [|o2 [|o3 r]]; intros H; inversion H; subst; cbn; lia.
Qed.

Lemma consume_ends_well ops :
  ends_well ops -> exists ops', consume ops = Some ops'.
Proof.
  intros H. unfold consume. destruct ops as [|o rest].
  - destruct (ends_well_nil H).
  - destruct (is_start o) eqn:Hs.
    + destruct (ends_well_cons_inv _ _ H) as [[-> Ho]|Hr]; [congruence|].
      destruct rest as [|o1 [|o2 [|o3 r]]]; eauto.
      destruct (ends_well_nil Hr).
    + destruct rest as [|o2 [|o3 r]]; eauto.
Qed.

Lemma consume_after_start ops ops' :
  consume ops = Some ops' ->
  exists o r, after_start ops = o :: r /\
              ops' = match r with [_] => [] | _ => r end.
Proof.
  unfold consume, after_start. destruct ops as [|o rest]; [discriminate|].
  destruct (is_start o).
  - destruct rest as [|o1 r]; [discriminate|]. intros H. exists o1, r.
    split; [reflexivity|]. destruct r as [|x [|y l]]; inversion H; auto.
  - intros H. exists o, rest.
    split; [reflexivity|]. destruct rest as [|x [|y l]]; inversion H; auto.
Qed.

Lemma consume_suffix ops ops' :
  consume ops = Some ops' -> exists pre, ops = pre ++ ops'.
Proof.
  intros H. destruct (consume_after_start _ _ H) as (o & r & Ha & ->).
  unfold after_start in Ha. destruct ops as [|o1 rest]; [discriminate|].
  destruct (is_start o1).
  - subst rest. destruct r as [|x [|y l]].
    + exists [o1; o]. reflexivity.
    + exists [o1; o; x]. reflexivity.
    + exists [o1; o]. reflexivity.
  - inversion Ha; subst. destruct r as [|x [|y l]].
    + exists [o]. reflexivity.
    + exists [o; x]. reflexivity.
    + exists [o]. reflexivity.
Qed.

Lemma ends_well_suffix pre ops :
  ends_well (pre ++ ops) -> ops <> [] -> ends_well ops.
Proof.
  induction pre as [|a pre IH]; cbn; intros H Hne; [exact H|].
  destruct (ends_well_cons_inv _ _ H) as [[He _]|Hr].
  - destruct pre; destruct ops; try discriminate. congruence.
  - apply IH; assumption.
Qed.

Lemma consume_preserves ops ops' :
  ends_well ops -> consume ops = Some ops' -> ops' = [] \/ ends_well ops'.
Proof.
  intros Hw H. destruct (consume_suffix _ _ H) as [pre ->].
  destruct ops' as [|x l]; [left; reflexivity|right].
  eapply ends_well_suffix; [eassumption | discriminate].
Qed.

(** ** The priority structure *)

Lemma pq_push_perm p q : Permutation (pq_push p q) (p :: q).
Proof.
  induction q as [|x q IH]; cbn; [reflexivity|].
  destruct (Program_lt p x); [reflexivity|].
  rewrite IH. apply perm_swap.
Qed.

Lemma pq_push_Forall (P : Program -> Prop) p q :
  P p -> Forall P q -> Forall P (pq_push p q).
Proof.
  intros Hp Hq. eapply Permutation_Forall.
  - symmetry. apply pq_push_perm.
  - constructor; assumption.
Qed.

Lemma pq_push_sorted p q : pq_sorted q -> pq_sorted (pq_push p q).
Proof.
  unfold pq_sorted. induction q as [|x q IH]; cbn; intros H.
  - constructor; constructor.
  - inversion H as [|? ? Hq Hx]; subst.
    unfold Program_lt. destruct (Z.ltb_spec (running_time p) (running_time x)).
    + constructor; [exact H|]. constructor; [lia|].
      eapply Forall_impl; [|exact Hx]. cbn. intros; lia.
    + constructor; [apply IH; exact Hq|].
      apply pq_push_Forall; [lia | exact Hx].
Qed.

Lemma total_operations_cons p q :
  total_operations (p :: q) =
  (List.length (operations p) + total_operations q)%nat.
Proof. reflexivity. Qed.

Lemma total_operations_push p q :
  total_operations (pq_push p q) =
  (List.length (operations p) + total_operations q)%nat.
Proof.
  induction q as [|x q IH]; cbn [pq_push]; [reflexivity|].
  destruct (Program_lt p x); [reflexivity|].
  rewrite !total_operations_cons, IH. lia.
Qed.

Lemma filter_pq_push_other (f : Program -> bool) p q :
  f p = false -> filter f (pq_push p q) = filter f q.
Proof.
  intros Hp. induction q as [|x q IH]; cbn; [rewrite Hp; reflexivity|].
  destruct (Program_lt p x); cbn; [rewrite Hp; reflexivity|].
  rewrite IH. reflexivity.
Qed.

Lemma filter_none {A} (f : A -> bool) l :
  Forall (fun x => f x = false) l -> filter f l = [].
Proof.
  induction 1 as [|x l Hx _ IH]; cbn; [reflexivity|]. rewrite Hx. exact IH.
Qed.

(** A Program goes behind the queued Programs of the same
    [running_time]. *)
Lemma filter_pq_push_key k p q :
  pq_sorted q -> running_time p = k ->
  filter (fun x => running_time x =? k) (pq_push p q) =
  filter (fun x => running_time x =? k) q ++ [p].
Proof.
  unfold pq_sorted. intros Hq Hk. induction q as [|x q IH]; cbn.
  - rewrite Hk, Z.eqb_refl. reflexivity.
  - inversion Hq as [|? ? Hq' Hx]; subst.
    unfold Program_lt. destruct (Z.ltb_spec (running_time p) (running_time x)).
    + cbn. rewrite Z.eqb_refl.
      replace (running_time x =? running_time p) with false
        by (symmetry; apply Z.eqb_neq; lia).
      rewrite filter_none; [reflexivity|].
      eapply Forall_impl; [|exact Hx]. cbn. intros a Ha.
      apply Z.eqb_neq. lia.
    + cbn. rewrite IH by exact Hq'.
      destruct (running_time x =? running_time p); reflexivity.
Qed.

Lemma filter_pq_push_other_key k p q :
  running_time p <> k ->
  filter (fun x => running_time x =? k) (pq_push p q) =
  filter (fun x => running_time x =? k) q.
Proof.
  intros Hk. apply filter_pq_push_other. apply Z.eqb_neq. exact Hk.
Qed.

Lemma turn_queue_ends_well p ops' rest :
  ends_well (operations p) -> consume (operations p) = Some ops' ->
  Forall (fun x => ends_well (operations x)) rest ->
  forall st i, 
  Forall (fun x => ends_well (operations x))
    (turn_queue (with_operations ops' (with_state st (with_id i p))) rest).
Proof.
  intros Hw Hc Hr st i. unfold turn_queue. cbn [operations with_operations].
  destruct ops' as [|x l] eqn:E; [exact Hr|].
  apply pq_push_Forall; [|exact Hr]. cbn [operations with_state with_operations].
  destruct (consume_preserves _ _ Hw Hc) as [?|?]; [discriminate | assumption].
Qed.

Lemma ends_well_length ops : ends_well ops -> (0 < List.length ops)%nat.
Proof.
  destruct ops; [intros H; destruct (ends_well_nil H) | cbn; lia].
Qed.

Lemma turn_queue_total p' rest :
  total_operations (turn_queue p' rest) =
  (List.length (operations p') + total_operations rest)%nat.
Proof.
  unfold turn_queue. destruct (operations p') as [|x l] eqn:E.
  - reflexivity.
  - rewrite total_operations_push. cbn [operations with_state]. rewrite E.
    reflexivity.
Qed.

Lemma identified_operations pc p : operations (identified pc p) = operations p.
Proof. unfold identified. destruct (id p =? 0); reflexivity. Qed.

Lemma identified_running_time pc p :
  running_time (identified pc p) = running_time p.
Proof. unfold identified. destruct (id p =? 0); reflexivity. Qed.

Lemma identified_state pc p : state (identified pc p) = state p.
Proof. unfold identified. destruct (id p =? 0); reflexivity. Qed.

Lemma with_operations_nil p : operations p = [] -> with_operations [] p = p.
Proof. destruct p; cbn. intros ->. reflexivity. Qed.

Lemma scheduling_states (programs : list Program) st :
  scheduling (map (fun p => EvState p st) programs) =
  map (fun p => EvState p st) programs.
Proof.
  unfold scheduling. induction programs as [|p l IH]; cbn [map filter];
    [reflexivity | rewrite IH; reflexivity].
Qed.

Lemma enqueue_all_Forall (P : Program -> Prop) programs : forall q,
  Forall (fun p => P (with_state READY p)) programs -> Forall P q ->
  Forall P (enqueue_all programs q).
Proof.
  induction programs as [|p rest IH]; intros q Hp Hq; cbn [enqueue_all fold_left].
  - exact Hq.
  - inversion Hp; subst. apply IH; [assumption|].
    apply pq_push_Forall; assumption.
Qed.

Lemma selects_scheduling evs : selects (scheduling evs) = selects evs.
Proof.
  unfold selects, scheduling. induction evs as [|e evs IH]; [reflexivity|].
  destruct e; cbn [filter flat_map app]; rewrite IH; reflexivity.
Qed.

Lemma transitions_scheduling evs :
  transitions (scheduling evs) = transitions evs.
Proof.
  unfold transitions, scheduling. induction evs as [|e evs IH]; [reflexivity|].
  destruct e; cbn [filter flat_map app]; rewrite IH; reflexivity.
Qed.

Lemma selects_states (programs : list Program) st :
  selects (map (fun p => EvState p st) programs) = [].
Proof. induction programs; cbn; auto. Qed.

Lemma enqueue_all_sorted programs : forall q,
  pq_sorted q -> pq_sorted (enqueue_all programs q).
Proof.
  induction programs as [|p rest IH]; intros q Hq; cbn [enqueue_all fold_left];
    [exact Hq|].
  apply IH, pq_push_sorted, Hq.
Qed.

(** Admission is a stable insertion: the Programs of one [running_time]
    stay in the order they were pushed in. *)
Lemma enqueue_all_stable k programs : forall q,
  pq_sorted q ->
  filter (fun x => running_time x =? k) (enqueue_all programs q) =
  filter (fun x => running_time x =? k) q ++
  filter (fun x => running_time x =? k) (map (with_state READY) programs).
Proof.
  induction programs as [|p rest IH]; intros q Hq; cbn [enqueue_all fold_left map].
  - rewrite app_nil_r. reflexivity.
  - fold (enqueue_all rest (pq_push (with_state READY p) q)).
    rewrite IH by (apply pq_push_sorted, Hq).
    cbn [filter]. cbn [running_time with_state].
    destruct (Z.eqb_spec (running_time p) k) as [E|E].
    + rewrite filter_pq_push_key by (assumption || exact E).
      rewrite <- app_assoc. reflexivity.
    + rewrite filter_pq_push_other_key by exact E. reflexivity.
Qed.

Lemma turn_queue_sorted p' rest :
  pq_sorted rest -> pq_sorted (turn_queue p' rest).
Proof.
  intros H. unfold turn_queue. destruct (operations p'); [exact H|].
  apply pq_push_sorted, H.
Qed.

Lemma turn_queue_keys (P : Z -> Prop) p' rest :
  P (running_time p') -> Forall (fun x => P (running_time x)) rest ->
  Forall (fun x => P (running_time x)) (turn_queue p' rest).
Proof.
  intros Hp Hr. unfold turn_queue. destruct (operations p'); [exact Hr|].
  apply pq_push_Forall; [exact Hp | exact Hr].
Qed.

(** The SRTF loop dispatches in ascending [running_time]. *)
Lemma SRTF_schedule_ascending fuel : forall pc q,
  pq_sorted q ->
  StronglySorted (fun a b => running_time a <= running_time b)
    (selects (SRTF_schedule fuel pc q)) /\
  forall k, Forall (fun x => k <= running_time x) q ->
            Forall (fun x => k <= running_time x)
              (selects (SRTF_schedule fuel pc q)).
Proof.
  induction fuel as [|fuel IH]; intros pc q Hq; cbn [SRTF_schedule].
  - split; [constructor | intros; constructor].
  - destruct q as [|p rest]; [split; [constructor | intros; constructor]|].
    destruct (consume (operations p)) as [ops'|];
      [|split; [constructor | intros; constructor]].
    inversion Hq as [|? ? Hrest Hp]; subst.
    rewrite selects_app. cbn [turn_records selects flat_map app].
    fold (selects (SRTF_schedule fuel (turn_counter pc p)
            (turn_queue (with_operations ops'
               (with_state RUNNING (identified pc p))) rest))).
    destruct (IH (turn_counter pc p) _
                (turn_queue_sorted
                   (with_operations ops' (with_state RUNNING (identified pc p)))
                   rest Hrest)) as [Hs Hk].
    split.
    + constructor; [exact Hs|]. apply Hk.
      apply turn_queue_keys; [|exact Hp].
      cbn [running_time with_operations with_state].
      rewrite identified_running_time. lia.
    + intros k Hall. inversion Hall; subst. constructor; [assumption|].
      apply Hk. apply turn_queue_keys; [|assumption].
      cbn [running_time with_operations with_state].
      rewrite identified_running_time. assumption.
Qed.

Lemma wrap_small z : in_int z -> wrap z = z.
Proof.
  unfold in_int, wrap. intros H.
  rewrite Z.mod_small; lia.
Qed.

Lemma wrap_in_int z : in_int (wrap z).
Proof.
  unfold in_int, wrap.
  pose proof (Z.mod_pos_bound (z + 2 ^ 31) (2 ^ 32) ltac:(lia)). lia.
Qed.

Lemma filter_fresh_turn_queue pc p ops' rest :
  0 <= pc -> (fresh p = true -> pc + 1 < 2 ^ 31) ->
  filter fresh
    (turn_queue (with_operations ops' (with_state RUNNING (identified pc p)))
       rest) = filter fresh rest.
Proof.
  intros Hpc Hb. unfold turn_queue. cbn [operations with_operations].
  destruct ops' as [|x l]; [reflexivity|].
  apply filter_pq_push_other. unfold fresh, identified in *.
  cbn [id with_state with_operations].
  destruct (id p =? 0) eqn:E; cbn [id with_id]; [|exact E].
  apply Z.eqb_neq. rewrite wrap_small; [lia|]. unfold in_int.
  specialize (Hb eq_refl). lia.
Qed.

(** The first dispatches of the SRTF loop follow the priority structure:
    a Program put back behind others does not overtake one that has not
    run yet. *)
Lemma SRTF_schedule_first fuel : forall pc q,
  Forall (fun p => ends_well (operations p)) q ->
  (total_operations q <= fuel)%nat ->
  0 <= pc -> pc + Z.of_nat (List.length (filter fresh q)) < 2 ^ 31 ->
  filter fresh (selects (SRTF_schedule fuel pc q)) = filter fresh q.
Proof.
  induction fuel as [|fuel IH]; intros pc q Hw Hf Hpc Hb; cbn [SRTF_schedule].
  - destruct q as [|p rest]; [reflexivity|].
    inversion Hw as [|? ? Hp _]; subst. apply ends_well_length in Hp.
    rewrite total_operations_cons in Hf. lia.
  - destruct q as [|p rest]; [reflexivity|].
    inversion Hw as [|? ? Hp Hrest]; subst.
    destruct (consume_ends_well _ Hp) as [ops' Hc]. rewrite Hc.
    rewrite selects_app. cbn [turn_records selects flat_map app].
    fold (selects (SRTF_schedule fuel (turn_counter pc p)
            (turn_queue (with_operations ops'
               (with_state RUNNING (identified pc p))) rest))).
    assert (Hfr : fresh p = true -> pc + 1 < 2 ^ 31).
    { intros E. cbn [filter] in Hb. rewrite E in Hb. cbn [List.length] in Hb. lia. }
    cbn [filter]. rewrite IH.
    + rewrite filter_fresh_turn_queue by assumption. reflexivity.
    + unfold identified. destruct (id p =? 0).
      * apply turn_queue_ends_well; assumption.
      * replace p with (with_id (id p) p) at 1 by (destruct p; reflexivity).
        apply turn_queue_ends_well; assumption.
    + rewrite turn_queue_total. cbn [operations with_operations].
      apply consume_length in Hc. rewrite total_operations_cons in Hf. lia.
    + unfold turn_counter. fold (fresh p). destruct (fresh p) eqn:E.
      * rewrite wrap_small; [lia|]. unfold in_int. specialize (Hfr eq_refl). lia.
      * exact Hpc.
    + rewrite filter_fresh_turn_queue by assumption.
      unfold turn_counter. fold (fresh p). cbn [filter] in Hb.
      destruct (fresh p) eqn:E.
      * cbn [List.length] in Hb. rewrite wrap_small; [lia|].
        unfold in_int. lia.
      * exact Hb.
Qed.

Lemma filter_all {A} (f : A -> bool) l :
  Forall (fun x => f x = true) l -> filter f l = l.
Proof.
  induction 1 as [|x l Hx _ IH]; cbn; [reflexivity|]. rewrite Hx, IH.
  reflexivity.
Qed.

Lemma enqueue_all_length programs : forall q,
  List.length (enqueue_all programs q) = (List.length programs + List.length q)%nat.
Proof.
  induction programs as [|p rest IH]; intros q; cbn [enqueue_all fold_left];
    [reflexivity|].
  fold (enqueue_all rest (pq_push (with_state READY p) q)). rewrite IH.
  rewrite (Permutation_length (pq_push_perm _ _)). cbn [List.length]. lia.
Qed.

(** ** Loading *)

Lemma front_inv input s c s' :
  front input s = Ok (c, s') -> s' = s /\ exists rest, input = String c rest.
Proof.
  destruct input as [|c0 rest]; cbn; intros H; inversion H; subst.
  split; [reflexivity | eauto].
Qed.

Lemma substr_inv input pos count s d s' :
  substr input pos count s = Ok (d, s') ->
  s' = s /\ (pos <= String.length input)%nat /\
  d = substring pos
        (if count <? 0 then String.length input else Z.to_nat count) input.
Proof.
  unfold substr.
  destruct (Nat.ltb_spec (String.length input) pos) as [Hlt|Hle];
    intros H; inversion H; subst.
  repeat split. lia.
Qed.

Lemma stoi_inv str s n s' :
  stoi str s = Ok (n, s') -> s' = s /\ in_int n.
Proof.
  unfold stoi.
  destruct (snd _) as [|c rest]; [discriminate|].
  destruct (isdigit c); [|discriminate].
  match goal with |- context [if ?c then _ else _] => destruct c eqn:E end;
    [|discriminate].
  intros H. inversion H; subst. split; [reflexivity|].
  unfold in_int. apply andb_prop in E. destruct E as [E1 E2].
  apply Z.leb_le in E1. apply Z.ltb_lt in E2. split; assumption.
Qed.

Lemma set_operation_cycle_time_inv o s o' s' :
  set_operation_cycle_time o s = Ok (o', s') ->
  s' = s /\ type o' = type o /\ description o' = description o /\
  cycles o' = cycles o /\ (type o = "A"%char -> cycleTime o' = 0).
Proof.
  unfold set_operation_cycle_time.
  destruct (Ascii.eqb_spec (type o) "P") as [E|E].
  { cbn. intros H. inversion H; subst. repeat split.
    intros E'. rewrite E' in E. discriminate. }
  destruct (Ascii.eqb_spec (type o) "I") as [E1|E1];
    [|destruct (Ascii.eqb_spec (type o) "O") as [E2|E2]]; cbn [orb].
  1, 2: repeat match goal with
        | |- context [if ?c then _ else _] => destruct c
        end; cbn; intros H; inversion H; subst; repeat split;
        intros E'; congruence.
  destruct (Ascii.eqb (type o) "A" || Ascii.eqb (type o) "S")%bool;
    cbn; intros H; inversion H; subst. repeat split.
Qed.

Lemma parse_operation_inv input op s o s' :
  parse_operation input op s = Ok (o, s') ->
  s' = s /\ in_int (duration o) /\ (type o = "A"%char -> duration o = 0).
Proof.
  unfold parse_operation. intros H.
  inv_bind H. apply front_inv in Hm. destruct Hm as (-> & rest & ->).
  inv_bind H. apply substr_inv in Hm. destruct Hm as (-> & _ & ->).
  inv_bind H. apply stoi_inv in Hm. destruct Hm as (-> & _).
  inv_bind H. apply set_operation_cycle_time_inv in Hm.
  destruct Hm as (-> & Ht & _ & _ & Hz).
  inversion H; subst; clear H. split; [reflexivity|].
  cbn [duration derive_duration with_duration type]. split.
  - apply wrap_in_int.
  - intros E. rewrite Hz by congruence. rewrite Z.mul_0_r. reflexivity.
Qed.

Lemma parse_operation_end op s :
  parse_operation "A(end)0" op s = Ok (mkOperation "A" "end" 0 0 0, s).
Proof. reflexivity. Qed.

Lemma int_sum_app l d : int_sum (l ++ [d]) = wrap (int_sum l + d).
Proof. unfold int_sum. rewrite fold_left_app. reflexivity. Qed.

Lemma int_sum_in_int l : in_int (int_sum l).
Proof.
  destruct l as [|d l] using rev_ind.
  - unfold int_sum, in_int. cbn. lia.
  - rewrite int_sum_app. apply wrap_in_int.
Qed.

Lemma with_programs_same s : with_programs (programs_ s) s = s.
Proof. destruct s; reflexivity. Qed.


Lemma filled_add_operation o p :
  filled p -> (type o = "A"%char -> duration o = 0) ->
  filled (add_operation o p).
Proof.
  intros (Hs & Hi & Hr) Hz. unfold filled.
  cbn [state id running_time operations add_operation].
  repeat split; try assumption.
  rewrite filter_app, map_app. cbn [filter].
  destruct (bracketing o) eqn:Hb; cbn [negb map].
  - rewrite app_nil_r, <- Hr.
    unfold bracketing in Hb. apply andb_prop in Hb. destruct Hb as [Ht _].
    apply Ascii.eqb_eq in Ht. rewrite (Hz Ht), Z.add_0_r.
    apply wrap_small. rewrite Hr. apply int_sum_in_int.
  - rewrite int_sum_app, <- Hr. reflexivity.
Qed.

Lemma read_program_filled fuel : forall l np s l' np' s',
  read_program fuel l np s = Ok ((l', np'), s') ->
  filled np ->
  s' = s /\ filled np' /\ ends_well (operations np').
Proof.
  induction fuel as [|fuel IH]; intros l np s l' np' s' H Hf;
    cbn [read_program] in H; [discriminate|].
  inv_bind H.
  destruct (String.eqb_spec (fst (getline (fin l) (input l) ";")) "A(end)0")
    as [E|E]; cbn [negb] in H.
  - rewrite E in Hm. rewrite parse_operation_end in Hm.
    inversion Hm; subst; clear Hm. inversion H; subst; clear H.
    split; [reflexivity|]. split.
    + apply filled_add_operation; [exact Hf|]. reflexivity.
    + eexists _, _. split; reflexivity.
  - destruct (parse_operation_inv _ _ _ _ _ Hm) as (-> & _ & Hz).
    eapply IH; [exact H|]. apply filled_add_operation; assumption.
Qed.

Lemma read_programs_filled fuel : forall l s l' s',
  read_programs fuel l s = Ok (l', s') ->
  exists loaded,
    s' = with_programs (programs_ s ++ loaded) s /\
    Forall (fun p => filled p /\ ends_well (operations p)) loaded.
Proof.
  induction fuel as [|fuel IH]; intros l s l' s' H; cbn [read_programs] in H;
    cbv zeta in H;
    destruct (match fst (peek (fin l)) with
              | Some c => Ascii.eqb c "S"
              | None => false
              end).
  1, 3: inversion H; subst; exists []; rewrite app_nil_r, with_programs_same;
        split; [reflexivity | constructor].
  - discriminate.
  - inv_bind H. destruct a as [l1 np1].
    apply read_program_filled in Hm;
      [|repeat split; reflexivity].
    destruct Hm as (-> & Hf & Hw).
    inv_bind H. inversion Hm; subst; clear Hm. cbn [fst snd] in H.
    apply IH in H. destruct H as (loaded & -> & Hl).
    exists (np1 :: loaded). split.
    + cbn [programs_ with_programs]. rewrite <- app_assoc. reflexivity.
    + constructor; [split; assumption | exact Hl].
Qed.

Lemma load_meta_data_filled file op0 fuel s s' :
  load_meta_data file op0 fuel s = Ok (tt, s') ->
  exists loaded,
    s' = with_programs (programs_ s ++ loaded) s /\
    Forall (fun p => filled p /\ ends_well (operations p)) loaded.
Proof.
  unfold load_meta_data. destruct file as [text|]; [|discriminate].
  cbv zeta. cbn [input fin operation].
  destruct (negb _); [discriminate|].
  intros H. inv_bind H.
  apply read_programs_filled in Hm. destruct Hm as (loaded & -> & Hl).
  exists loaded. split; [|exact Hl].
  destruct (negb _); [discriminate|].
  destruct (negb _); [discriminate|].
  inversion H; subst. reflexivity.
Qed.

Lemma subjects_app a b : subjects (a ++ b) = subjects a ++ subjects b.
Proof. apply flat_map_app. Qed.

Lemma subjects_scheduling evs : subjects (scheduling evs) = subjects evs.
Proof.
  unfold subjects, scheduling. induction evs as [|e evs IH]; [reflexivity|].
  destruct e; cbn [filter flat_map app]; rewrite IH; reflexivity.
Qed.

Lemma subjects_states (programs : list Program) st :
  subjects (map (fun p => EvState p st) programs) = programs.
Proof.
  unfold subjects. induction programs as [|p l IH]; cbn [map flat_map app];
    [reflexivity | rewrite IH; reflexivity].
Qed.

Lemma copy_of_refl p : copy_of p p.
Proof. split; [reflexivity | exists []; reflexivity]. Qed.

Lemma copy_of_fields p x :
  running_time x = running_time p -> operations x = operations p ->
  copy_of p x.
Proof. intros H1 H2. split; [exact H1 | exists []; rewrite H2; reflexivity]. Qed.

Lemma copy_of_trans p q r : copy_of p q -> copy_of q r -> copy_of p r.
Proof.
  intros (H1 & c1 & E1) (H2 & c2 & E2). split; [congruence|].
  exists (c1 ++ c2). rewrite E1, E2, app_assoc. reflexivity.
Qed.

Lemma pq_push_In x p q : In x (pq_push p q) -> x = p \/ In x q.
Proof.
  intros H. apply (Permutation_in _ (pq_push_perm p q)) in H.
  destruct H; auto.
Qed.

Lemma enqueue_all_In x programs : forall q,
  In x (enqueue_all programs q) ->
  In x q \/ exists y, In y programs /\ x = with_state READY y.
Proof.
  induction programs as [|p rest IH]; intros q H; cbn [enqueue_all fold_left] in H;
    [left; exact H|].
  apply IH in H. destruct H as [H|(y & Hy & ->)].
  - apply pq_push_In in H. destruct H as [->|H]; [|left; exact H].
    right. exists p. split; [left; reflexivity | reflexivity].
  - right. exists y. split; [right; exact Hy | reflexivity].
Qed.

Lemma subjects_FIFO_schedule programs : forall pc,
  Forall (fun x => exists y, In y programs /\ copy_of y x)
    (subjects (FIFO_schedule programs pc)).
Proof.
  induction programs as [|p rest IH]; intros pc; cbn [FIFO_schedule];
    [constructor|].
  rewrite subjects_app. apply Forall_app. split.
  - cbn [subjects flat_map app].
    repeat constructor; exists p; (split; [left; reflexivity|]).
    + apply copy_of_refl.
    + apply copy_of_fields; reflexivity.
    + split; [reflexivity|]. exists (operations p).
      cbn [operations with_operations]. rewrite app_nil_r. reflexivity.
  - eapply Forall_impl; [|apply IH]. cbv beta.
    intros x (y & Hy & Hc). exists y. split; [right; exact Hy | exact Hc].
Qed.

Lemma subjects_SRTF_schedule fuel : forall pc q,
  Forall (fun x => exists y, In y q /\ copy_of y x)
    (subjects (SRTF_schedule fuel pc q)).
Proof.
  induction fuel as [|fuel IH]; intros pc q; cbn [SRTF_schedule];
    [constructor|].
  destruct q as [|p rest]; [constructor|].
  destruct (consume (operations p)) as [ops'|] eqn:Hc; [|constructor].
  assert (Hp2 : copy_of p
                  (with_operations ops' (with_state RUNNING (identified pc p)))).
  { split.
    - cbn [running_time with_operations with_state].
      apply identified_running_time.
    - cbn [operations with_operations]. apply consume_suffix, Hc. }
  rewrite subjects_app. apply Forall_app. split.
  - cbn [turn_records subjects flat_map app].
    repeat constructor; exists p; (split; [left; reflexivity|]).
    + apply copy_of_refl.
    + split; [apply identified_running_time|]. exists [].
      rewrite identified_operations. reflexivity.
    + exact Hp2.
  - eapply Forall_impl; [|apply IH]. cbv beta.
    intros x (y & Hy & Hxy). unfold turn_queue in Hy.
    cbn [operations with_operations] in Hy.
    destruct ops' as [|o l].
    + exists y. split; [right; exact Hy | exact Hxy].
    + apply pq_push_In in Hy. destruct Hy as [->|Hy].
      * exists p. split; [left; reflexivity|].
        eapply copy_of_trans; [|exact Hxy].
        eapply copy_of_trans; [exact Hp2|].
        split; [reflexivity | exists []; reflexivity].
      * exists y. split; [right; exact Hy | exact Hxy].
Qed.

Lemma ends_wellb_correct ops : ends_wellb ops = true -> ends_well ops.
Proof.
  unfold ends_wellb. intros H. destruct (rev ops) as [|e l] eqn:E;
    [discriminate|].
  exists (rev l), e. split.
  - rewrite <- (rev_involutive ops), E. reflexivity.
  - apply negb_true_iff. exact H.
Qed.

Lemma as_loadedb_correct p : as_loadedb p = true -> as_loaded p.
Proof.
  unfold as_loadedb, as_loaded. intros H.
  apply andb_prop in H. destruct H as [H Hw].
  apply andb_prop in H. destruct H as [Hs Hi].
  repeat split.
  - destruct (state p); (reflexivity || discriminate).
  - apply Z.eqb_eq. exact Hi.
  - apply ends_wellb_correct. exact Hw.
Qed.

Lemma Forall_ends_wellb programs :
  forallb (fun p => ends_wellb (operations p)) programs = true ->
  Forall (fun p => operations p = [] \/ ends_well (operations p)) programs.
Proof.
  intros H. apply Forall_forall. intros p Hp. right.
  apply ends_wellb_correct. rewrite forallb_forall in H. apply H. exact Hp.
Qed.

Lemma Forall_as_loadedb programs :
  forallb as_loadedb programs = true -> Forall as_loaded programs.
Proof.
  intros H. apply Forall_forall. intros p Hp.
  apply as_loadedb_correct. rewrite forallb_forall in H. apply H. exact Hp.
Qed.

(** ** The text of the meta-data file *)

Lemma append_assoc (a b c : string) :
  ((a ++ b) ++ c)%string = (a ++ (b ++ c))%string.
Proof. induction a as [|x a IH]; cbn; [reflexivity | rewrite IH; reflexivity]. Qed.




(** A stream that has met the end of the file stays so, and the two loops
    never come to their end with it. *)
Lemma getline_bad f str delim :
  good f = false -> getline f str delim = (str, f).
Proof. unfold getline. intros ->. reflexivity. Qed.

Lemma ws_bad f : good f = false -> ws f = f.
Proof. unfold ws. intros ->. reflexivity. Qed.

Lemma peek_bad f : good f = false -> peek f = (None, f).
Proof. unfold peek. intros ->. reflexivity. Qed.














(** ** Tokens *)

Lemma find_append_none c d r :
  find c d = None -> find c (d ++ String c r)%string = Some (String.length d).
Proof.
  induction d as [|x d IH]; cbn.
  - intros _. rewrite Ascii.eqb_refl. reflexivity.
  - destruct (Ascii.eqb x c); [discriminate|].
    destruct (find c d); [discriminate|]. intros _.
    rewrite IH by reflexivity. reflexivity.
Qed.

Lemma substring_prefix d r :
  substring 0 (String.length d) (d ++ r)%string = d.
Proof.
  induction d as [|x d IH]; cbn.
  - destruct r; reflexivity.
  - rewrite IH. reflexivity.
Qed.

Lemma substring_skip d r m :
  substring (String.length d) m (d ++ r)%string = substring 0 m r.
Proof. induction d as [|x d IH]; cbn; [reflexivity | exact IH]. Qed.

Lemma substring_all k m :
  (String.length k <= m)%nat -> substring 0 m k = k.
Proof.
  revert m. induction k as [|x k IH]; intros m H; cbn.
  - destruct m; reflexivity.
  - destruct m; cbn in H; [lia|]. rewrite IH by lia. reflexivity.
Qed.

Lemma length_append (a b : string) :
  String.length (a ++ b)%string = (String.length a + String.length b)%nat.
Proof. induction a as [|x a IH]; cbn; [reflexivity | rewrite IH; reflexivity]. Qed.

Lemma set_operation_cycle_time_eq o s :
  set_operation_cycle_time o s =
  if recognized_type (type o)
  then Ok (with_cycleTime (resolved_cycle_time s o) o, s)
  else Throw UnrecognizedOperationType.
Proof.
  unfold set_operation_cycle_time, recognized_type, resolved_cycle_time.
  destruct (Ascii.eqb (type o) "P"); cbn [orb]; [reflexivity|].
  destruct (Ascii.eqb (type o) "I"); cbn [orb].
  { repeat match goal with
           | |- context [String.eqb ?a ?b] => destruct (String.eqb a b)
           end; try reflexivity; destruct o; reflexivity. }
  destruct (Ascii.eqb (type o) "O"); cbn [orb].
  { repeat match goal with
           | |- context [String.eqb ?a ?b] => destruct (String.eqb a b)
           end; try reflexivity; destruct o; reflexivity. }
  destruct (Ascii.eqb (type o) "A"); cbn [orb]; [reflexivity|].
  destruct (Ascii.eqb (type o) "S"); reflexivity.
Qed.

Lemma parse_operation_fields input op s o s' :
  parse_operation input op s = Ok (o, s') ->
  recognized_type (type o) = true /\ in_int (cycles o).
Proof.
  unfold parse_operation. intros H.
  inv_bind H. inv_bind H. inv_bind H.
  apply stoi_inv in Hm1. destruct Hm1 as (-> & Hn).
  inv_bind H. rewrite set_operation_cycle_time_eq in Hm1.
  cbn [type with_cycles with_description with_type] in Hm1.
  destruct (recognized_type a) eqn:Hr; [|discriminate].
  inversion Hm1; subst; clear Hm1. inversion H; subst; clear H.
  cbn [type cycles derive_duration with_duration with_cycleTime with_cycles
       with_description with_type].
  split; assumption.
Qed.

Lemma read_program_shape fuel : forall l np s l' np' s',
  read_program fuel l np s = Ok ((l', np'), s') ->
  state np = START -> id np = 0 ->
  Forall (fun o => recognized_type (type o) = true /\ in_int (cycles o))
    (operations np) ->
  loaded_shape np'.
Proof.
  induction fuel as [|fuel IH]; intros l np s l' np' s' H Hs Hi Hf;
    cbn [read_program] in H; [discriminate|].
  inv_bind H. pose proof (parse_operation_fields _ _ _ _ _ Hm) as Ha.
  assert (Hf' : Forall (fun o => recognized_type (type o) = true /\
                                 in_int (cycles o))
                  (operations (add_operation a np))).
  { cbn [operations add_operation]. apply Forall_app. split; [exact Hf|].
    constructor; [exact Ha | constructor]. }
  destruct (String.eqb_spec (fst (getline (fin l) (input l) ";")) "A(end)0")
    as [E|E]; cbn [negb] in H.
  - rewrite E in Hm. rewrite parse_operation_end in Hm.
    inversion Hm; subst; clear Hm. inversion H; subst; clear H.
    repeat split; try assumption.
    eexists _, _. repeat split.
  - eapply IH; [exact H | exact Hs | exact Hi | exact Hf'].
Qed.

Lemma read_programs_shape fuel : forall l s l' s',
  read_programs fuel l s = Ok (l', s') ->
  exists loaded,
    s' = with_programs (programs_ s ++ loaded) s /\
    Forall loaded_shape loaded.
Proof.
  induction fuel as [|fuel IH]; intros l s l' s' H; cbn [read_programs] in H;
    cbv zeta in H;
    destruct (match fst (peek (fin l)) with
              | Some c => Ascii.eqb c "S"
              | None => false
              end).
  1, 3: inversion H; subst; exists []; rewrite app_nil_r, with_programs_same;
        split; [reflexivity | constructor].
  - discriminate.
  - inv_bind H. destruct a as [l1 np1].
    pose proof Hm as Hm'.
    apply read_program_filled in Hm'; [|repeat split; reflexivity].
    destruct Hm' as (-> & _ & _).
    apply read_program_shape in Hm; [|reflexivity|reflexivity|constructor].
    inv_bind H. inversion Hm0; subst; clear Hm0. cbn [fst snd] in H.
    apply IH in H. destruct H as (loaded & -> & Hl).
    exists (np1 :: loaded). split.
    + cbn [programs_ with_programs]. rewrite <- app_assoc. reflexivity.
    + constructor; assumption.
Qed.

Lemma blank_skipws w : blank w = true -> skipws w = EmptyString.
Proof.
  induction w as [|c w IH]; cbn; [reflexivity|].
  destruct (isspace c); [exact IH | discriminate].
Qed.


(** At the end of the file the [do] loop reads the same token again and
    again: it is cut, or it stops at once on [A(end)0]. *)
Lemma read_program_end_of_file fuel : forall l np s,
  good (fin l) = false -> parses (input l) ->
  read_program fuel l np s = Timeout \/
  (input l = "A(end)0"%string /\
   exists o np',
     read_program fuel l np s = Ok ((mkLocals (fin l) (input l) o, np'), s)).
Proof.
  induction fuel as [|fuel IH]; intros l np s Hb Hp; cbn [read_program];
    [left; reflexivity|].
  rewrite (getline_bad _ _ _ Hb). cbn [fst snd]. rewrite (ws_bad _ Hb).
  destruct (Hp (operation l) s) as [o Ho].
  rewrite (bind_of_Ok _ _ _ _ _ Ho).
  destruct (String.eqb_spec (input l) "A(end)0") as [E|E]; cbn [negb].
  - right. split; [exact E|]. eexists _, _. reflexivity.
  - destruct (IH (mkLocals (fin l) (input l) o) (add_operation o np) s Hb Hp)
      as [H|(H & _)]; [left; exact H|]. cbn [input] in H. contradiction.
Qed.

Lemma read_programs_end_of_file fuel : forall l s,
  good (fin l) = false -> parses (input l) ->
  read_programs fuel l s = Timeout.
Proof.
  induction fuel as [|fuel IH]; intros l s Hb Hp; cbn [read_programs];
    cbv zeta; rewrite (peek_bad _ Hb); cbn [fst snd]; [reflexivity|].
  destruct (read_program_end_of_file fuel
              (mkLocals (fin l) (input l) (operation l)) Program_new s Hb Hp)
    as [H|(_ & o & np' & H)].
  - unfold bind. rewrite H. reflexivity.
  - rewrite (bind_of_Ok _ _ _ _ _ H). cbn [fst snd fin input].
    unfold push_back. unfold bind at 1. cbn [modify].
    apply IH; assumption.
Qed.

Lemma exits_app a b : exits (a ++ b) = exits a ++ exits b.
Proof. apply flat_map_app. Qed.

Lemma running_app a b : running (a ++ b) = running a ++ running b.
Proof. apply flat_map_app. Qed.

Lemma exits_scheduling evs : exits (scheduling evs) = exits evs.
Proof.
  unfold exits, scheduling. induction evs as [|e evs IH]; [reflexivity|].
  destruct e; cbn [filter flat_map app]; rewrite IH; reflexivity.
Qed.

Lemma running_scheduling evs : running (scheduling evs) = running evs.
Proof.
  unfold running, scheduling. induction evs as [|e evs IH]; [reflexivity|].
  destruct e; cbn [filter flat_map app]; rewrite IH; reflexivity.
Qed.

Lemma exits_states (programs : list Program) :
  exits (map (fun p => EvState p READY) programs) = [].
Proof. induction programs; cbn; auto. Qed.

Lemma running_states (programs : list Program) :
  running (map (fun p => EvState p READY) programs) = [].
Proof. induction programs; cbn; auto. Qed.

Lemma consume_count ops ops' :
  consume ops = Some ops' ->
  exists consumed,
    ops = consumed ++ ops' /\
    (1 <= List.length consumed <= 3)%nat.
Proof.
  unfold consume. destruct ops as [|o rest]; [discriminate|].
  destruct (is_start o).
  - destruct rest as [|o1 [|o2 [|o3 r]]]; intros H; inversion H; subst.
    + exists [o; o1]. split; [reflexivity | cbn; lia].
    + exists [o; o1; o2]. split; [reflexivity | cbn; lia].
    + exists [o; o1]. split; [reflexivity | cbn; lia].
  - destruct rest as [|o2 [|o3 r]]; intros H; inversion H; subst.
    + exists [o]. split; [reflexivity | cbn; lia].
    + exists [o; o2]. split; [reflexivity | cbn; lia].
    + exists [o]. split; [reflexivity | cbn; lia].
Qed.

Lemma consume_none ops :
  consume ops = None <->
  ops = [] \/ exists o, ops = [o] /\ is_start o = true.
Proof.
  unfold consume. split.
  - destruct ops as [|o rest]; [left; reflexivity|].
    destruct (is_start o) eqn:Hs.
    + destruct rest as [|o1 [|o2 [|o3 r]]]; try discriminate.
      intros _. right. exists o. split; [reflexivity | exact Hs].
    + destruct rest as [|o2 [|o3 r]]; discriminate.
  - intros [->|(o & -> & Hs)]; [reflexivity|]. rewrite Hs. reflexivity.
Qed.

Lemma exits_SRTF_schedule fuel : forall pc q,
  Forall (fun p => ends_well (operations p)) q ->
  (total_operations q <= fuel)%nat ->
  List.length (exits (SRTF_schedule fuel pc q)) = List.length q /\
  Forall (fun p => operations p = [] /\ state p = RUNNING)
    (exits (SRTF_schedule fuel pc q)).
Proof.
  induction fuel as [|fuel IH]; intros pc q Hw Hf; cbn [SRTF_schedule].
  - destruct q as [|p rest]; [split; [reflexivity | constructor]|].
    inversion Hw as [|? ? Hp _]; subst. apply ends_well_length in Hp.
    rewrite total_operations_cons in Hf. lia.
  - destruct q as [|p rest]; [split; [reflexivity | constructor]|].
    inversion Hw as [|? ? Hp Hrest]; subst.
    destruct (consume_ends_well _ Hp) as [ops' Hc]. rewrite Hc.
    rewrite exits_app.
    assert (Hw' : Forall (fun x => ends_well (operations x))
                    (turn_queue
                       (with_operations ops'
                          (with_state RUNNING (identified pc p))) rest)).
    { unfold identified. destruct (id p =? 0).
      - apply turn_queue_ends_well; assumption.
      - replace p with (with_id (id p) p) at 1 by (destruct p; reflexivity).
        apply turn_queue_ends_well; assumption. }
    assert (Hf' : (total_operations
                     (turn_queue
                        (with_operations ops'
                           (with_state RUNNING (identified pc p))) rest)
                   <= fuel)%nat).
    { rewrite turn_queue_total. cbn [operations with_operations].
      apply consume_length in Hc. rewrite total_operations_cons in Hf. lia. }
    destruct (IH (turn_counter pc p) _ Hw' Hf') as [Hlen Hall].
    rewrite length_app, Hlen. unfold turn_queue, turn_records in *.
    cbn [operations with_operations] in *. destruct ops' as [|o l].
    + cbn [exits flat_map app List.length]. split; [reflexivity|].
      constructor; [split; reflexivity | exact Hall].
    + cbn [exits flat_map app List.length].
      rewrite (Permutation_length (pq_push_perm _ _)).
      split; [reflexivity|]. exact Hall.
Qed.

Lemma exits_FIFO_schedule programs : forall pc,
  List.length (exits (FIFO_schedule programs pc)) = List.length programs /\
  Forall (fun p => operations p = [] /\ state p = RUNNING)
    (exits (FIFO_schedule programs pc)).
Proof.
  induction programs as [|p rest IH]; intros pc; cbn [FIFO_schedule];
    [split; [reflexivity | constructor]|].
  destruct (IH (wrap (pc + 1))) as [Hlen Hall].
  rewrite exits_app. cbn [exits flat_map app List.length].
  fold (exits (FIFO_schedule rest (wrap (pc + 1)))).
  rewrite Hlen. split; [reflexivity|].
  constructor; [split; reflexivity | exact Hall].
Qed.

Lemma running_FIFO_schedule programs : forall pc,
  0 <= pc -> pc + Z.of_nat (List.length programs) < 2 ^ 31 ->
  running (FIFO_schedule programs pc) =
  map (fun ip => with_id (Z.of_nat (fst ip)) (snd ip))
    (combine (seq (S (Z.to_nat pc)) (List.length programs)) programs).
Proof.
  induction programs as [|p rest IH]; intros pc H0 Hb; cbn [FIFO_schedule];
    [reflexivity|].
  cbn [List.length] in Hb.
  rewrite running_app. cbn [running flat_map app List.length seq combine map].
  fold (running (FIFO_schedule rest (wrap (pc + 1)))).
  assert (Hw : wrap (pc + 1) = pc + 1)
    by (apply wrap_small; unfold in_int; lia).
  rewrite Hw, IH by lia. cbn [fst snd].
  replace (Z.of_nat (S (Z.to_nat pc))) with (pc + 1) by lia.
  replace (S (Z.to_nat (pc + 1))) with (S (S (Z.to_nat pc))) by lia.
  reflexivity.
Qed.

Lemma ends_quietly_well ops : ends_quietly ops -> ends_well ops.
Proof. intros (body & e & H & Hs & _). exists body, e. auto. Qed.

Lemma ends_quietly_suffix pre ops :
  ends_quietly (pre ++ ops) -> ops <> [] -> ends_quietly ops.
Proof.
  intros (body & e & H & Hs & Ht) Hne.
  destruct (exists_last Hne) as (l & x & ->).
  rewrite app_assoc in H. apply app_inj_tail in H. destruct H as [_ ->].
  exists l, e. auto.
Qed.

Lemma ends_quietlyb_correct ops : ends_quietlyb ops = true -> ends_quietly ops.
Proof.
  unfold ends_quietlyb. intros H. destruct (rev ops) as [|e l] eqn:E;
    [discriminate|].
  apply andb_prop in H. destruct H as [H1 H2].
  exists (rev l), e. split; [|split].
  - rewrite <- (rev_involutive ops), E. reflexivity.
  - apply negb_true_iff. exact H1.
  - apply negb_true_iff. exact H2.
Qed.

Lemma Forall_ends_quietlyb programs :
  forallb (fun p => ends_quietlyb (operations p)) programs = true ->
  Forall (fun p => ends_quietly (operations p)) programs.
Proof.
  intros H. apply Forall_forall. intros p Hp.
  apply ends_quietlyb_correct. rewrite forallb_forall in H. apply H. exact Hp.
Qed.

Lemma start_not_timed o : is_start o = true -> timed o = false.
Proof.
  unfold is_start, timed. intros H. apply andb_prop in H. destruct H as [H _].
  apply Ascii.eqb_eq in H. rewrite H. reflexivity.
Qed.

Lemma timed_durations_cons o r :
  timed_durations (o :: r) =
  (if timed o then [duration o] else []) ++ timed_durations r.
Proof. unfold timed_durations. cbn [filter]. destruct (timed o); reflexivity. Qed.

(** What one call of [process_operation] blocks for, and what is left to
    block for. *)
Lemma consume_timed ops ops' o r :
  ends_quietly ops -> consume ops = Some ops' -> after_start ops = o :: r ->
  timed_durations ops =
  (if timed o then [duration o] else []) ++ timed_durations ops'.
Proof.
  intros Hq Hc Ha.
  assert (Hr : timed_durations r = timed_durations ops' /\
               timed_durations ops = timed_durations (o :: r)).
  { unfold consume, after_start in *. destruct ops as [|o1 rest];
      [discriminate|].
    destruct (is_start o1) eqn:Hs.
    - subst rest. split.
      + destruct r as [|x [|y l]]; inversion Hc; subst; try reflexivity.
        destruct Hq as (body & e & H & _ & Ht).
        change [o1; o; x] with ([o1; o] ++ [x]) in H.
        apply app_inj_tail in H. destruct H as [_ ->].
        unfold timed_durations. cbn [filter]. rewrite Ht. reflexivity.
      + rewrite (timed_durations_cons o1). rewrite (start_not_timed _ Hs).
        reflexivity.
    - inversion Ha; subst. split; [|reflexivity].
      destruct r as [|x [|y l]]; inversion Hc; subst; try reflexivity.
      destruct Hq as (body & e & H & _ & Ht).
      change [o; x] with ([o] ++ [x]) in H.
      apply app_inj_tail in H. destruct H as [_ ->].
      unfold timed_durations. cbn [filter]. rewrite Ht. reflexivity. }
  destruct Hr as [Hr1 Hr2]. rewrite Hr2, timed_durations_cons, Hr1.
  reflexivity.
Qed.

Lemma consume_quietly ops ops' :
  ends_quietly ops -> consume ops = Some ops' ->
  ops' = [] \/ ends_quietly ops'.
Proof.
  intros Hq Hc. destruct (consume_suffix _ _ Hc) as [pre ->].
  destruct ops' as [|x l]; [left; reflexivity | right].
  eapply ends_quietly_suffix; [eassumption | discriminate].
Qed.

Lemma sleeps_states (programs : list Program) st :
  sleeps (map (fun p => EvState p st) programs) = [].
Proof. induction programs; cbn; auto. Qed.

Lemma enqueue_all_durations programs : forall q0,
  Permutation
    (flat_map (fun p => timed_durations (operations p))
       (enqueue_all programs q0))
    (flat_map (fun p => timed_durations (operations p)) q0 ++
     flat_map (fun p => timed_durations (operations p)) programs).
Proof.
  induction programs as [|p rest IH]; intros q0;
    cbn [enqueue_all fold_left flat_map].
  - rewrite app_nil_r. reflexivity.
  - fold (enqueue_all rest (pq_push (with_state READY p) q0)).
    rewrite IH, (Permutation_flat_map _ (pq_push_perm _ q0)).
    cbn [flat_map operations with_state].
    rewrite (app_assoc
               (flat_map (fun p => timed_durations (operations p)) q0)).
    apply Permutation_app_tail, Permutation_app_comm.
Qed.

Lemma messages_states (programs : list Program) st :
  messages (map (fun p => EvState p st) programs) = [].
Proof. induction programs; cbn; auto. Qed.

Lemma combine_map_filter_fresh_turn fuel : forall pc q,
  Forall (fun p => ends_well (operations p)) q ->
  (total_operations q <= fuel)%nat ->
  0 <= pc -> pc + Z.of_nat (List.length (filter fresh q)) < 2 ^ 31 ->
  let d := combine (selects (SRTF_schedule fuel pc q))
             (running (SRTF_schedule fuel pc q)) in
  map (fun x => id (snd x)) (filter (fun x => fresh (fst x)) d) =
    map Z.of_nat (seq (S (Z.to_nat pc)) (List.length (filter fresh q))) /\
  Forall (fun x => (fresh (fst x) = false -> snd x = fst x) /\
                   (fresh (fst x) = true ->
                    snd x = with_id (id (snd x)) (fst x))) d.
Proof.
  induction fuel as [|fuel IH]; intros pc q Hw Hf Hpc Hb; cbn [SRTF_schedule].
  - destruct q as [|p rest]; [split; [reflexivity | constructor]|].
    inversion Hw as [|? ? Hp _]; subst. apply ends_well_length in Hp.
    rewrite total_operations_cons in Hf. lia.
  - destruct q as [|p rest]; [split; [reflexivity | constructor]|].
    inversion Hw as [|? ? Hp Hrest]; subst.
    destruct (consume_ends_well _ Hp) as [ops' Hc]. rewrite Hc.
    assert (Hfr : fresh p = true -> pc + 1 < 2 ^ 31).
    { intros E. cbn [filter] in Hb. rewrite E in Hb. cbn [List.length] in Hb.
      lia. }
    assert (Hw' : Forall (fun x => ends_well (operations x))
                    (turn_queue
                       (with_operations ops'
                          (with_state RUNNING (identified pc p))) rest)).
    { unfold identified. destruct (id p =? 0).
      - apply turn_queue_ends_well; assumption.
      - replace p with (with_id (id p) p) at 1 by (destruct p; reflexivity).
        apply turn_queue_ends_well; assumption. }
    assert (Hf' : (total_operations
                     (turn_queue
                        (with_operations ops'
                           (with_state RUNNING (identified pc p))) rest)
                   <= fuel)%nat).
    { rewrite turn_queue_total. cbn [operations with_operations].
      apply consume_length in Hc. rewrite total_operations_cons in Hf. lia. }
    assert (Hpc' : 0 <= turn_counter pc p).
    { unfold turn_counter. fold (fresh p). destruct (fresh p) eqn:E.
      - rewrite wrap_small; [lia|]. unfold in_int. specialize (Hfr eq_refl).
        lia.
      - exact Hpc. }
    assert (Hb' : turn_counter pc p +
                  Z.of_nat (List.length (filter fresh
                     (turn_queue
                        (with_operations ops'
                           (with_state RUNNING (identified pc p))) rest)))
                  < 2 ^ 31).
    { rewrite filter_fresh_turn_queue by assumption.
      unfold turn_counter. fold (fresh p). cbn [filter] in Hb.
      destruct (fresh p) eqn:E.
      - cbn [List.length] in Hb. rewrite wrap_small; [lia|].
        unfold in_int. lia.
      - exact Hb. }
    destruct (IH (turn_counter pc p) _ Hw' Hf' Hpc' Hb') as [Hids Hall].
    rewrite filter_fresh_turn_queue in Hids by assumption.
    rewrite selects_app, running_app.
    assert (Hrec : selects (turn_records pc p ops') = [p] /\
                   running (turn_records pc p ops') = [identified pc p]).
    { unfold turn_records. destruct ops'; split; reflexivity. }
    destruct Hrec as [-> ->]. cbn [app combine]. cbv zeta. split.
    + cbn [filter fst snd]. unfold turn_counter in Hids |- *.
      fold (fresh p) in Hids |- *.
      destruct (fresh p) eqn:E.
      * cbn [map List.length seq fst snd]. rewrite Hids.
        unfold identified. fold (fresh p). rewrite E. cbn [id with_id].
        rewrite wrap_small by (unfold in_int; specialize (Hfr eq_refl); lia).
        replace (Z.of_nat (S (Z.to_nat pc))) with (pc + 1) by lia.
        replace (S (Z.to_nat (pc + 1))) with (S (S (Z.to_nat pc))) by lia.
        reflexivity.
      * exact Hids.
    + constructor; [|exact Hall]. cbn [fst snd]. unfold identified.
      fold (fresh p). split; intros E; rewrite E; reflexivity.
Qed.

(** ** Computations that do not look at the scheduling code *)

Lemma blind_ret {A} (a : A) : code_blind (ret a).
Proof. intros c s. reflexivity. Qed.

Lemma blind_bind {A B} (m : M A) (k : A -> M B) :
  code_blind m -> (forall a, code_blind (k a)) -> code_blind (bind m k).
Proof.
  intros Hm Hk c s. unfold bind. rewrite Hm.
  destruct (m s) as [[a s1]| | |]; cbn [recoded]; try reflexivity.
  apply Hk.
Qed.

Lemma blind_gets {A} (f : Simulator -> A) :
  (forall c s, f (with_code c s) = f s) -> code_blind (gets f).
Proof. intros Hf c s. unfold gets. cbn [recoded]. rewrite Hf. reflexivity. Qed.

Lemma blind_modify f :
  (forall c s, f (with_code c s) = with_code c (f s)) ->
  code_blind (modify f).
Proof. intros Hf c s. unfold modify. cbn [recoded]. rewrite Hf. reflexivity. Qed.

Lemma blind_undefined {A} : code_blind (@undefined A).
Proof. intros c s. reflexivity. Qed.

Lemma blind_timeout {A} : code_blind (@timeout A).
Proof. intros c s. reflexivity. Qed.

Lemma blind_of_option {A} (o : option A) : code_blind (of_option o).
Proof. destruct o; [apply blind_ret | apply blind_undefined]. Qed.

Lemma blind_emit e : code_blind (emit e).
Proof. apply blind_modify. reflexivity. Qed.

Lemma readied_app a b : readied (a ++ b) = readied a ++ readied b.
Proof. apply flat_map_app. Qed.

Lemma readied_scheduling evs : readied (scheduling evs) = readied evs.
Proof.
  unfold readied, scheduling. induction evs as [|e evs IH]; [reflexivity|].
  destruct e; cbn [filter flat_map app]; rewrite IH; reflexivity.
Qed.

Lemma readied_states (programs : list Program) :
  readied (map (fun p => EvState p READY) programs) =
  map (with_state READY) programs.
Proof.
  unfold readied. induction programs as [|p rest IH]; [reflexivity|].
  cbn [map flat_map app]. rewrite IH. reflexivity.
Qed.

(** A Program pushed goes behind the queued Programs of its
    [running_time], and leaves the others where they are. *)
Lemma filter_pq_push_class k p q :
  pq_sorted q ->
  filter (fun x => running_time x =? k) (pq_push p q) =
  filter (fun x => running_time x =? k) q ++
  filter (fun x => running_time x =? k) [p].
Proof.
  intros Hq. cbn [filter].
  destruct (Z.eqb_spec (running_time p) k) as [E|E].
  - apply filter_pq_push_key; assumption.
  - rewrite app_nil_r. apply filter_pq_push_other_key. exact E.
Qed.

(** Within one [running_time] the SRTF loop dispatches in the order of
    the pushes: first what is queued, then what is put back, turn after
    turn. *)
Lemma SRTF_schedule_ties fuel : forall pc q k,
  pq_sorted q ->
  Forall (fun p => ends_well (operations p)) q ->
  (total_operations q <= fuel)%nat ->
  filter (fun x => running_time x =? k) (selects (SRTF_schedule fuel pc q)) =
  filter (fun x => running_time x =? k)
    (q ++ readied (SRTF_schedule fuel pc q)).
Proof.
  induction fuel as [|fuel IH]; intros pc q k Hs Hw Hf; cbn [SRTF_schedule].
  - destruct q as [|p rest]; [reflexivity|].
    inversion Hw as [|? ? Hp _]; subst. apply ends_well_length in Hp.
    rewrite total_operations_cons in Hf. lia.
  - destruct q as [|p rest]; [reflexivity|].
    inversion Hw as [|? ? Hp Hrest]; subst.
    inversion Hs as [|? ? Hsrest _]; subst.
    destruct (consume_ends_well _ Hp) as [ops' Hc]. rewrite Hc.
    rewrite selects_app, readied_app.
    set (p2 := with_operations ops' (with_state RUNNING (identified pc p))).
    assert (Hw' : Forall (fun x => ends_well (operations x))
                    (turn_queue p2 rest)).
    { unfold p2, identified. destruct (id p =? 0).
      - apply turn_queue_ends_well; assumption.
      - replace p with (with_id (id p) p) at 1 by (destruct p; reflexivity).
        apply turn_queue_ends_well; assumption. }
    assert (Hf' : (total_operations (turn_queue p2 rest) <= fuel)%nat).
    { rewrite turn_queue_total. unfold p2. cbn [operations with_operations].
      apply consume_length in Hc. rewrite total_operations_cons in Hf. lia. }
    specialize (IH (turn_counter pc p) (turn_queue p2 rest) k
                  (turn_queue_sorted p2 rest Hsrest) Hw' Hf').
    assert (Hq : filter (fun x => running_time x =? k) (turn_queue p2 rest) =
                 filter (fun x => running_time x =? k) rest ++
                 filter (fun x => running_time x =? k)
                   (readied (turn_records pc p ops'))).
    { unfold turn_queue, turn_records. fold p2. unfold p2 at 1 3.
      cbn [operations with_operations]. destruct ops' as [|x l].
      - cbn [readied flat_map app filter]. rewrite app_nil_r. reflexivity.
      - rewrite filter_pq_push_class by exact Hsrest. reflexivity. }
    assert (Hsel : selects (turn_records pc p ops') = [p]) by reflexivity.
    rewrite Hsel. cbn [app filter].
    rewrite IH, !filter_app, Hq, <- app_assoc.
    destruct (running_time p =? k); reflexivity.
Qed.

(** ** Reading a well-formed text forwards *)



























Lemma filter_pq_push_perm (f : Program -> bool) x q :
  f x = true -> Permutation (filter f (pq_push x q)) (x :: filter f q).
Proof.
  intros Hx. induction q as [|y q IH]; cbn [pq_push filter].
  - rewrite Hx. reflexivity.
  - destruct (Program_lt x y); cbn [filter]; rewrite ?Hx.
    + reflexivity.
    + destruct (f y); [|exact IH].
      rewrite IH. apply perm_swap.
Qed.

Lemma enqueue_all_perm programs : forall q,
  Permutation (enqueue_all programs q)
    (q ++ map (with_state READY) programs).
Proof.
  induction programs as [|p rest IH]; intros q; cbn [enqueue_all fold_left map].
  - rewrite app_nil_r. reflexivity.
  - fold (enqueue_all rest (pq_push (with_state READY p) q)).
    rewrite IH, (pq_push_perm _ q). cbn [app].
    apply Permutation_middle.
Qed.

Lemma numbered_from_cons first p l :
  numbered_from first (p :: l) =
  finished (with_id (Z.of_nat first) p) :: numbered_from (S first) l.
Proof. reflexivity. Qed.

Lemma numbered_from_readied first : forall l,
  numbered_from first (map (with_state READY) l) = numbered_from first l.
Proof.
  intros l. revert first. induction l as [|p l IH]; intros first;
    [reflexivity|].
  cbn [map]. rewrite !numbered_from_cons, IH. reflexivity.
Qed.

Lemma numbered_from_perm_length first l :
  List.length (numbered_from first l) = List.length l.
Proof.
  unfold numbered_from. rewrite length_map, length_combine, length_seq.
  apply Nat.min_id.
Qed.

(** The Programs the SRTF loop sets EXIT are the queued ones, each once:
    those that have a number keep it, the others are numbered from the
    counter on in the order of the queue. *)
Lemma exits_SRTF_schedule_numbered fuel : forall pc q,
  Forall (fun p => ends_well (operations p)) q ->
  (total_operations q <= fuel)%nat ->
  0 <= pc -> pc + Z.of_nat (List.length (filter fresh q)) < 2 ^ 31 ->
  Permutation (exits (SRTF_schedule fuel pc q))
    (map finished (filter (fun p => negb (fresh p)) q) ++
     numbered_from (S (Z.to_nat pc)) (filter fresh q)).
Proof.
  induction fuel as [|fuel IH]; intros pc q Hw Hf Hpc Hb; cbn [SRTF_schedule].
  - destruct q as [|p rest]; [reflexivity|].
    inversion Hw as [|? ? Hp _]; subst. apply ends_well_length in Hp.
    rewrite total_operations_cons in Hf. lia.
  - destruct q as [|p rest]; [reflexivity|].
    inversion Hw as [|? ? Hp Hrest]; subst.
    destruct (consume_ends_well _ Hp) as [ops' Hc]. rewrite Hc.
    rewrite exits_app.
    set (p2 := with_operations ops' (with_state RUNNING (identified pc p))).
    assert (Hfr : fresh p = true -> pc + 1 < 2 ^ 31).
    { intros E. cbn [filter] in Hb. rewrite E in Hb.
      cbn [List.length] in Hb. lia. }
    assert (Hw' : Forall (fun x => ends_well (operations x))
                    (turn_queue p2 rest)).
    { unfold p2, identified. destruct (id p =? 0).
      - apply turn_queue_ends_well; assumption.
      - replace p with (with_id (id p) p) at 1 by (destruct p; reflexivity).
        apply turn_queue_ends_well; assumption. }
    assert (Hf' : (total_operations (turn_queue p2 rest) <= fuel)%nat).
    { rewrite turn_queue_total. unfold p2. cbn [operations with_operations].
      apply consume_length in Hc. rewrite total_operations_cons in Hf. lia. }
    assert (Hfq : filter fresh (turn_queue p2 rest) = filter fresh rest)
      by (apply filter_fresh_turn_queue; assumption).
    assert (Hpc' : 0 <= turn_counter pc p).
    { unfold turn_counter. fold (fresh p). destruct (fresh p) eqn:E.
      - rewrite wrap_small; [lia|]. unfold in_int.
        specialize (Hfr eq_refl). lia.
      - exact Hpc. }
    assert (Hb' : turn_counter pc p +
                  Z.of_nat (List.length (filter fresh (turn_queue p2 rest)))
                  < 2 ^ 31).
    { rewrite Hfq. unfold turn_counter. fold (fresh p). cbn [filter] in Hb.
      destruct (fresh p) eqn:E.
      - cbn [List.length] in Hb. rewrite wrap_small; [lia|].
        unfold in_int. lia.
      - exact Hb. }
    specialize (IH (turn_counter pc p) (turn_queue p2 rest) Hw' Hf' Hpc' Hb').
    rewrite Hfq in IH.
    assert (Hq : Permutation
                   (exits (turn_records pc p ops') ++
                    map finished
                      (filter (fun x => negb (fresh x))
                         (turn_queue p2 rest)))
                   (finished (identified pc p) ::
                    map finished (filter (fun x => negb (fresh x)) rest))).
    { unfold turn_records, turn_queue. fold p2. unfold p2 at 2 3.
      cbn [operations with_operations]. destruct ops' as [|x l].
      - cbn [exits flat_map app]. reflexivity.
      - cbn [exits flat_map app].
        rewrite filter_pq_push_perm.
        + cbn [map]. reflexivity.
        + unfold fresh, p2, identified. cbn [id with_state with_operations].
          destruct (id p =? 0) eqn:E; cbn [id with_id]; [|rewrite E; reflexivity].
          replace (wrap (pc + 1) =? 0) with false; [reflexivity|].
          symmetry. apply Z.eqb_neq. rewrite wrap_small; [lia|].
          unfold in_int. specialize (Hfr E). lia. }
    rewrite IH, app_assoc, Hq. cbn [filter].
    unfold identified, turn_counter. fold (fresh p).
    destruct (fresh p) eqn:E; cbn [negb map app].
    + rewrite numbered_from_cons.
      rewrite (wrap_small (pc + 1))
        by (unfold in_int; specialize (Hfr eq_refl); lia).
      replace (Z.of_nat (S (Z.to_nat pc))) with (pc + 1) by lia.
      replace (S (Z.to_nat (pc + 1))) with (S (S (Z.to_nat pc))) by lia.
      apply Permutation_middle.
    + reflexivity.
Qed.

Lemma exits_FIFO_schedule_numbered programs : forall pc,
  0 <= pc -> pc + Z.of_nat (List.length programs) < 2 ^ 31 ->
  exits (FIFO_schedule programs pc) =
  numbered_from (S (Z.to_nat pc)) programs.
Proof.
  induction programs as [|p rest IH]; intros pc H0 Hb; cbn [FIFO_schedule];
    [reflexivity|].
  cbn [List.length] in Hb.
  rewrite exits_app. cbn [exits flat_map app].
  fold (exits (FIFO_schedule rest (wrap (pc + 1)))).
  assert (Hw : wrap (pc + 1) = pc + 1)
    by (apply wrap_small; unfold in_int; lia).
  rewrite Hw, IH by lia. rewrite numbered_from_cons.
  replace (Z.of_nat (S (Z.to_nat pc))) with (pc + 1) by lia.
  replace (S (Z.to_nat (pc + 1))) with (S (S (Z.to_nat pc))) by lia.
  reflexivity.
Qed.




(** ** The engine's steps *)

Section EngineSteps.

Variable clock : nat -> Z.

Lemma stamps_from_app start r n m :
  stamps_from clock start r (n + m) =
  stamps_from clock start r n ++ stamps_from clock start (r + n) m.
Proof. unfold stamps_from. rewrite seq_app, map_app. reflexivity. Qed.

Lemma engine_step_refl s : engine_step clock s s.
Proof.
  repeat split; auto. exists []. rewrite app_nil_r, Nat.sub_diag.
  split; reflexivity.
Qed.

Lemma engine_step_trans s1 s2 s3 :
  engine_step clock s1 s2 -> engine_step clock s2 s3 -> engine_step clock s1 s3.
Proof.
  intros (Hp1 & Hs1 & Hr1 & e1 & Ht1 & Hst1) (Hp2 & Hs2 & Hr2 & e2 & Ht2 & Hst2).
  repeat split; try congruence; try lia.
  exists (e1 ++ e2). split.
  - rewrite Ht2, Ht1, app_assoc. reflexivity.
  - rewrite stamps_app, Hst1, Hst2, Hs1.
    replace (clock_reads s3 - clock_reads s1)%nat
      with ((clock_reads s2 - clock_reads s1) +
            (clock_reads s3 - clock_reads s2))%nat by lia.
    rewrite stamps_from_app.
    replace (clock_reads s1 + (clock_reads s2 - clock_reads s1))%nat
      with (clock_reads s2) by lia.
    reflexivity.
Qed.

Lemma output_step_refl s : output_step clock s s.
Proof.
  repeat split; auto. exists []. rewrite app_nil_r, Nat.sub_diag.
  repeat split; reflexivity.
Qed.

Lemma output_step_trans s1 s2 s3 :
  output_step clock s1 s2 -> output_step clock s2 s3 -> output_step clock s1 s3.
Proof.
  intros (Hp1 & Hq1 & Hs1 & Hr1 & e1 & Ht1 & Hg1 & Hst1)
         (Hp2 & Hq2 & Hs2 & Hr2 & e2 & Ht2 & Hg2 & Hst2).
  repeat split; try congruence; try lia.
  exists (e1 ++ e2). repeat split.
  - rewrite Ht2, Ht1, app_assoc. reflexivity.
  - rewrite scheduling_app, Hg1, Hg2. reflexivity.
  - rewrite stamps_app, Hst1, Hst2, Hs1.
    replace (clock_reads s3 - clock_reads s1)%nat
      with ((clock_reads s2 - clock_reads s1) +
            (clock_reads s3 - clock_reads s2))%nat by lia.
    rewrite stamps_from_app.
    replace (clock_reads s1 + (clock_reads s2 - clock_reads s1))%nat
      with (clock_reads s2) by lia.
    reflexivity.
Qed.

Lemma output_engine_step s s' : output_step clock s s' -> engine_step clock s s'.
Proof.
  intros (Hp & Hq & Hs & Hr & evs & Ht & Hg & Hst).
  repeat split; auto. exists evs. split; assumption.
Qed.

Lemma print_eq message s :
  print clock message s =
  Ok (tt, record (EvPrint (clock (clock_reads s) - start_ s) message) (tick s)).
Proof. reflexivity. Qed.

Lemma output_print message : steps (output_step clock) (print clock message).
Proof.
  intros s a s' H. rewrite print_eq in H. inversion H; subst; clear H.
  unfold output_step.
  cbn [programs_ SRTF_queue_ start_ clock_reads trace record tick].
  repeat split; auto.
  eexists. repeat split.
  replace (S (clock_reads s) - clock_reads s)%nat with 1%nat by lia.
  reflexivity.
Qed.

Lemma output_sleep_for ms : steps (output_step clock) (sleep_for ms).
Proof.
  intros s a s' H. inversion H; subst; clear H.
  unfold output_step.
  cbn [programs_ SRTF_queue_ start_ clock_reads trace record tick].
  repeat split; auto.
  eexists. repeat split.
  rewrite Nat.sub_diag. reflexivity.
Qed.

Lemma output_ret {A} (a : A) : steps (output_step clock) (ret a).
Proof. apply steps_ret, output_step_refl. Qed.

Lemma output_bind {A B} (m : M A) (k : A -> M B) :
  steps (output_step clock) m ->
  (forall a, steps (output_step clock) (k a)) ->
  steps (output_step clock) (bind m k).
Proof. apply steps_bind, output_step_trans. Qed.

Lemma output_of_option {A} (o : option A) :
  steps (output_step clock) (of_option o).
Proof. apply steps_of_option, output_step_refl. Qed.

Ltac output_steps :=
  repeat match goal with
  | |- steps _ (if ?c then _ else _) => destruct c
  | |- steps _ (bind _ _) => apply output_bind; [ | intros ? ]
  | |- steps _ (print _ _) => apply output_print
  | |- steps _ (sleep_for _) => apply output_sleep_for
  | |- steps _ (of_option _) => apply output_of_option
  | |- steps _ (ret _) => apply output_ret
  end.

Lemma output_process_IO operation programID :
  steps (output_step clock) (process_IO clock operation programID).
Proof. unfold process_IO. output_steps. Qed.

Lemma output_process_operation program :
  steps (output_step clock) (process_operation clock program).
Proof.
  unfold process_operation. output_steps; apply output_process_IO.
Qed.

Lemma returns_print message : returns (print clock message) tt.
Proof. intros s. eexists. apply print_eq. Qed.

Lemma returns_sleep_for ms : returns (sleep_for ms) tt.
Proof. intros s. eexists. reflexivity. Qed.

Ltac returns_steps :=
  repeat match goal with
  | |- returns (if ?c then _ else _) _ => destruct c
  | |- returns (bind _ _) _ => eapply returns_bind
  | |- returns (print _ _) _ => apply returns_print
  | |- returns (sleep_for _) _ => apply returns_sleep_for
  | |- returns (of_option (Some _)) _ => apply returns_ret
  | |- returns (ret _) _ => apply returns_ret
  end.

Lemma returns_process_IO operation programID :
  returns (process_IO clock operation programID) tt.
Proof. unfold process_IO. returns_steps. Qed.

Lemma process_operation_returns p ops' :
  consume (operations p) = Some ops' ->
  returns (process_operation clock p) (with_operations ops' p).
Proof.
  destruct p as [ops st rt i]. unfold process_operation, consume, next.
  cbn [operations id].
  destruct ops as [|o r]; [discriminate|].
  intros H.
  eapply returns_bind; [apply returns_ret|]. cbn [fst snd].
  destruct (is_start o) eqn:Hs.
  - destruct r as [|o' r']; [discriminate|].
    eapply returns_bind.
    { eapply returns_bind; [apply returns_print|]. apply returns_ret. }
    cbn [fst snd]. eapply returns_bind.
    { returns_steps. apply returns_process_IO. }
    rewrite remaining_one. cbn [operations with_operations].
    destruct r' as [|x [|y l]]; inversion H; subst; returns_steps.
  - eapply returns_bind; [apply returns_ret|].
    cbn [fst snd]. eapply returns_bind.
    { returns_steps. apply returns_process_IO. }
    rewrite remaining_one. cbn [operations with_operations].
    destruct r as [|x [|y l]]; inversion H; subst; returns_steps.
Qed.

Lemma process_operation_wrong p :
  consume (operations p) = None -> goes_wrong (process_operation clock p).
Proof.
  destruct p as [ops st rt i]. unfold process_operation, consume, next.
  cbn [operations id].
  destruct ops as [|o r].
  - intros _ s. reflexivity.
  - destruct (is_start o) eqn:Hs.
    + destruct r as [|o' [|x [|y l]]]; try discriminate.
      intros _. eapply wrong_bind; [apply returns_ret|]. cbn [fst snd].
      rewrite Hs. apply wrong_first. eapply wrong_bind; [apply returns_print|].
      intros s. reflexivity.
    + destruct r as [|x [|y l]]; discriminate.
Qed.
Lemma post_print message s (Q : unit -> Simulator -> Prop) :
  Q tt (record (EvPrint (clock (clock_reads s) - start_ s) message) (tick s)) ->
  post (print clock message) s Q.
Proof. intros H. eexists _, _. split; [apply print_eq | exact H]. Qed.

Lemma post_emit e s (Q : unit -> Simulator -> Prop) :
  Q tt (record e s) -> post (emit e) s Q.
Proof. intros H. eexists _, _. split; [reflexivity | exact H]. Qed.

Lemma post_assign_state p st s (Q : Program -> Simulator -> Prop) :
  Q (with_state st p) (record (EvState p st) s) ->
  post (assign_state p st) s Q.
Proof. intros H. eexists _, _. split; [reflexivity | exact H]. Qed.

(** What [process_operation] does to the Program and to the trace. *)
Lemma post_process_operation p ops' s :
  consume (operations p) = Some ops' ->
  post (process_operation clock p) s
    (fun p' s' => p' = with_operations ops' p /\ output_step clock s s').
Proof.
  intros H. destruct (process_operation_returns p ops' H s) as [s' Hs].
  exists (with_operations ops' p), s'. split; [exact Hs|].
  split; [reflexivity|].
  eapply output_process_operation; eassumption.
Qed.

Lemma process_operation_inv p s p' s' :
  process_operation clock p s = Ok (p', s') ->
  exists ops', consume (operations p) = Some ops' /\
               p' = with_operations ops' p /\ output_step clock s s'.
Proof.
  intros H. destruct (consume (operations p)) as [ops'|] eqn:Hc.
  - exists ops'. split; [reflexivity|].
    apply (post_Ok _ _ _ _ _ (post_process_operation p ops' s Hc) H).
  - rewrite (process_operation_wrong p Hc s) in H. discriminate.
Qed.

Lemma sleeps_are_print message : steps (sleeps_are []) (print clock message).
Proof.
  intros s a s' H. rewrite print_eq in H. inversion H; subst.
  eexists. split; reflexivity.
Qed.

Lemma sleeps_are_sleep_for ms : steps (sleeps_are [ms]) (sleep_for ms).
Proof.
  intros s a s' H. inversion H; subst. eexists. split; reflexivity.
Qed.

Ltac sleeps_steps :=
  lazymatch goal with
  | |- steps (sleeps_are _) (bind _ _) =>
      eapply sleeps_are_bind; [ sleeps_steps | intros ?; sleeps_steps | reflexivity ]
  | |- steps (sleeps_are _) (print _ _) => apply sleeps_are_print
  | |- steps (sleeps_are _) (sleep_for _) => apply sleeps_are_sleep_for
  | |- steps (sleeps_are _) (of_option _) => apply sleeps_are_of_option
  | |- steps (sleeps_are _) (ret _) => apply sleeps_are_ret
  | |- steps (sleeps_are _) (if ?c then _ else _) => destruct c; sleeps_steps
  end.

Lemma sleeps_execute (o : Operation) (programID : Z) :
  steps (sleeps_are (if timed o then [duration o] else []))
    (if Ascii.eqb (type o) "P" then
       print clock ("Process " ++ to_string programID ++ ": start processing action") ;;
       sleep_for (duration o) ;;
       print clock ("Process " ++ to_string programID ++ ": end processing action")
     else if Ascii.eqb (type o) "I" || Ascii.eqb (type o) "O" then
       process_IO clock o programID
     else ret tt).
Proof.
  unfold timed, process_IO.
  destruct (Ascii.eqb (type o) "P"); cbn [orb andb]; [sleeps_steps|].
  destruct (Ascii.eqb (type o) "I" || Ascii.eqb (type o) "O")%bool;
    cbn [orb andb]; [|sleeps_steps].
  destruct (String.eqb (description o) "hard drive"); cbn [orb]; [sleeps_steps|].
  destruct (String.eqb (description o) "keyboard"); cbn [orb]; [sleeps_steps|].
  destruct (String.eqb (description o) "monitor"); cbn [orb]; [sleeps_steps|].
  destruct (String.eqb (description o) "printer"); cbn [orb]; sleeps_steps.
Qed.

Lemma sleeps_process_operation p o r :
  after_start (operations p) = o :: r ->
  steps (sleeps_are (if timed o then [duration o] else []))
    (process_operation clock p).
Proof.
  intros H. destruct p as [ops st rt i]. cbn [operations] in H.
  destruct ops as [|o1 rest]; [discriminate|].
  unfold process_operation, next. cbn [operations id].
  eapply sleeps_are_bind_ret;
    [apply returns_ret | apply sleeps_are_ret | | reflexivity].
  cbn [fst snd]. cbn [after_start] in H.
  destruct (is_start o1).
  - subst rest.
    eapply sleeps_are_bind_ret with (l1 := []);
      [ eapply returns_bind; [apply returns_print | apply returns_ret]
      | sleeps_steps | | reflexivity ].
    cbn [fst snd].
    eapply sleeps_are_bind;
      [ apply sleeps_execute | intros ?; sleeps_steps
      | symmetry; apply app_nil_r ].
  - inversion H; subst.
    eapply sleeps_are_bind_ret with (l1 := []);
      [ apply returns_ret | sleeps_steps | | reflexivity ].
    cbn [fst snd].
    eapply sleeps_are_bind;
      [ apply sleeps_execute | intros ?; sleeps_steps
      | symmetry; apply app_nil_r ].
Qed.

Lemma engine_ret {A} (a : A) : steps (engine_step clock) (ret a).
Proof. apply steps_ret, engine_step_refl. Qed.

Lemma engine_bind {A B} (m : M A) (k : A -> M B) :
  steps (engine_step clock) m ->
  (forall a, steps (engine_step clock) (k a)) ->
  steps (engine_step clock) (bind m k).
Proof. apply steps_bind, engine_step_trans. Qed.

Lemma engine_output {A} (m : M A) :
  steps (output_step clock) m -> steps (engine_step clock) m.
Proof. intros H s a s' E. apply output_engine_step. eapply H. exact E. Qed.

Lemma engine_emit e :
  match e with EvPrint _ _ => False | _ => True end ->
  steps (engine_step clock) (emit e).
Proof.
  intros He s a s' H. inversion H; subst; clear H.
  unfold engine_step. cbn [programs_ start_ clock_reads trace record].
  repeat split; auto. exists [e]. split; [reflexivity|].
  rewrite Nat.sub_diag. destruct e; [destruct He | | | ]; reflexivity.
Qed.

Lemma engine_assign_state p st :
  steps (engine_step clock) (assign_state p st).
Proof.
  unfold assign_state. apply engine_bind; [apply engine_emit; exact I|].
  intros. apply engine_ret.
Qed.

Lemma engine_with_queue f :
  steps (engine_step clock) (modify (fun s => with_queue (f s) s)).
Proof.
  apply steps_modify. intros s. unfold engine_step.
  cbn [programs_ start_ clock_reads trace with_queue].
  repeat split; auto. exists []. rewrite app_nil_r, Nat.sub_diag.
  split; reflexivity.
Qed.

Ltac engine_steps :=
  repeat match goal with
  | |- steps _ (if ?c then _ else _) => destruct c
  | |- steps _ (bind _ _) => apply engine_bind; [ | intros ? ]
  | |- steps _ (print _ _) => apply engine_output, output_print
  | |- steps _ (process_operation _ _) =>
      apply engine_output, output_process_operation
  | |- steps _ (assign_state _ _) => apply engine_assign_state
  | |- steps _ (emit (EvSelect _)) => apply engine_emit; exact I
  | |- steps _ (SRTF_push _) => apply engine_with_queue
  | |- steps _ SRTF_pop => apply engine_with_queue
  | |- steps _ (gets _) => apply steps_gets, engine_step_refl
  | |- steps _ (of_option _) => apply steps_of_option, engine_step_refl
  | |- steps _ timeout => apply steps_timeout
  | |- steps _ (ret _) => apply engine_ret
  end.

Lemma engine_SRTF_turn pc : steps (engine_step clock) (SRTF_turn clock pc).
Proof. unfold SRTF_turn, SRTF_top. cbv zeta. engine_steps. Qed.

Lemma engine_SRTF_loop fuel :
  forall pc, steps (engine_step clock) (SRTF_loop clock fuel pc).
Proof.
  induction fuel as [|fuel IH]; intros pc; cbn [SRTF_loop]; unfold SRTF_empty;
    engine_steps.
  - apply engine_SRTF_turn.
  - apply IH.
Qed.

Lemma engine_drain fuel :
  forall p, steps (engine_step clock) (drain clock fuel p).
Proof.
  induction fuel as [|fuel IH]; intros p; cbn [drain]; engine_steps.
  apply IH.
Qed.

Lemma engine_FIFO_loop programs :
  forall pc, steps (engine_step clock) (FIFO_loop clock programs pc).
Proof.
  induction programs as [|p rest IH]; intros pc; cbn [FIFO_loop]; cbv zeta;
    engine_steps.
  - apply engine_drain.
  - apply IH.
Qed.

Lemma engine_for_each programs body :
  (forall p, steps (engine_step clock) (body p)) ->
  steps (engine_step clock) (for_each programs body).
Proof.
  intros Hb. induction programs as [|p rest IH]; cbn [for_each]; engine_steps.
  - apply Hb.
  - apply IH.
Qed.

Lemma post_process_operation_full p ops' o r s :
  consume (operations p) = Some ops' ->
  after_start (operations p) = o :: r ->
  post (process_operation clock p) s
    (fun p' s' => p' = with_operations ops' p /\ output_step clock s s' /\
                  sleeps_are (if timed o then [duration o] else []) s s').
Proof.
  intros Hc Ha.
  destruct (post_process_operation p ops' s Hc) as (p' & s' & H & -> & Ho).
  exists (with_operations ops' p), s'. split; [exact H|].
  split; [reflexivity|]. split; [exact Ho|].
  eapply sleeps_process_operation; eassumption.
Qed.

Lemma identified_eq pc p :
  (if id p =? 0
   then with_id (if id p =? 0 then wrap (pc + 1) else pc) p
   else p) = identified pc p.
Proof. unfold identified. destruct (id p =? 0); reflexivity. Qed.

Lemma post_SRTF_turn pc p rest ops' o r s :
  SRTF_queue_ s = p :: rest ->
  consume (operations p) = Some ops' ->
  after_start (operations p) = o :: r ->
  post (SRTF_turn clock pc) s (fun pc' s' =>
    pc' = turn_counter pc p /\
    SRTF_queue_ s' =
      turn_queue (with_operations ops' (with_state RUNNING (identified pc p)))
        rest /\
    exists evs,
      trace s' = trace s ++ evs /\
      scheduling evs = turn_records pc p ops' /\
      sleeps evs = if timed o then [duration o] else []).
Proof.
  intros Hq Hc Ha. unfold SRTF_turn, SRTF_top, SRTF_pop, SRTF_push. cbv zeta.
  apply post_bind, post_print.
  apply post_bind, post_bind, post_gets.
  cbn [SRTF_queue_ record tick]. rewrite Hq. cbn [hd_error of_option].
  apply post_ret.
  apply post_bind, post_modify.
  apply post_bind, post_emit.
  rewrite identified_eq.
  apply post_bind, post_assign_state.
  apply post_bind.
  eapply post_weaken.
  { eapply (post_process_operation_full
              (with_state RUNNING (identified pc p)) ops' o r).
    - unfold identified. destruct (id p =? 0); exact Hc.
    - unfold identified. destruct (id p =? 0); exact Ha. }
  cbv beta. intros p' s2 (-> & Ho & Hs).
  destruct Ho as (Hp2 & Hq2 & Hst2 & Hr2 & evo & Ht2 & Hg2 & _).
  destruct Hs as (evs' & Ht2' & Hsl).
  rewrite Ht2 in Ht2'. apply app_inv_head in Ht2'. subst evs'.
  cbn [SRTF_queue_ trace record tick with_queue tl] in Hq2, Ht2.
  rewrite Hq in Hq2. cbn [tl] in Hq2.
  unfold done. cbn [operations with_operations].
  destruct ops' as [|x ops'].
  - apply post_bind, post_bind, post_assign_state, post_ret, post_ret.
    split; [reflexivity|].
    cbn [SRTF_queue_ trace record]. split.
    + rewrite Hq2. reflexivity.
    + eexists. split.
      * rewrite Ht2. rewrite <- !app_assoc. reflexivity.
      * cbn [app]. split.
        -- cbn [scheduling filter]. rewrite scheduling_app, Hg2. reflexivity.
        -- cbn [sleeps flat_map app]. rewrite sleeps_app, Hsl.
           cbn. apply app_nil_r.
  - apply post_bind, post_bind, post_assign_state, post_modify, post_ret.
    split; [reflexivity|].
    cbn [SRTF_queue_ trace record with_queue]. split.
    + rewrite Hq2. reflexivity.
    + eexists. split.
      * rewrite Ht2. rewrite <- !app_assoc. reflexivity.
      * cbn [app]. split.
        -- cbn [scheduling filter]. rewrite scheduling_app, Hg2. reflexivity.
        -- cbn [sleeps flat_map app]. rewrite sleeps_app, Hsl.
           cbn. apply app_nil_r.
Qed.

Lemma post_SRTF_loop fuel : forall pc s,
  Forall (fun p => ends_well (operations p)) (SRTF_queue_ s) ->
  (total_operations (SRTF_queue_ s) <= fuel)%nat ->
  post (SRTF_loop clock fuel pc) s (fun _ s' =>
    SRTF_queue_ s' = [] /\
    exists evs,
      trace s' = trace s ++ evs /\
      scheduling evs = SRTF_schedule fuel pc (SRTF_queue_ s)).
Proof.
  induction fuel as [|fuel IH]; intros pc s Hw Hf; cbn [SRTF_loop];
    unfold SRTF_empty.
  - apply post_bind, post_bind, post_gets, post_ret.
    destruct (SRTF_queue_ s) as [|p rest] eqn:Hq.
    + apply post_ret. split; [exact Hq|]. exists []. rewrite app_nil_r.
      split; reflexivity.
    + inversion Hw as [|? ? Hp _]; subst.
      apply ends_well_length in Hp. rewrite total_operations_cons in Hf. lia.
  - apply post_bind, post_bind, post_gets, post_ret.
    destruct (SRTF_queue_ s) as [|p rest] eqn:Hq.
    + apply post_ret. split; [exact Hq|]. exists []. rewrite app_nil_r.
      split; reflexivity.
    + inversion Hw as [|? ? Hp Hrest]; subst.
      destruct (consume_ends_well _ Hp) as [ops' Hc].
      destruct (consume_after_start _ _ Hc) as (o & r & Ha & _).
      apply post_bind. eapply post_weaken.
      { eapply post_SRTF_turn; eassumption. }
      cbv beta. intros pc' s1 (-> & Hq1 & ev1 & Ht1 & Hg1 & _).
      eapply post_weaken.
      { apply IH.
        - rewrite Hq1. unfold identified.
          destruct (id p =? 0).
          + apply turn_queue_ends_well; assumption.
          + replace p with (with_id (id p) p) at 1 by (destruct p; reflexivity).
            apply turn_queue_ends_well; assumption.
        - rewrite Hq1, turn_queue_total. cbn [operations with_operations].
          apply consume_length in Hc. rewrite total_operations_cons in Hf. lia. }
      cbv beta. intros _ s' (Hq' & ev2 & Ht2 & Hg2).
      split; [exact Hq'|]. exists (ev1 ++ ev2). split.
      * rewrite Ht2, Ht1, app_assoc. reflexivity.
      * rewrite scheduling_app, Hg1, Hg2, Hq1. cbn [SRTF_schedule].
        rewrite Hc. reflexivity.
Qed.

Lemma post_enqueue_all programs : forall s,
  post (for_each programs (fun program =>
          program <- assign_state program READY ;; SRTF_push program)) s
    (fun _ s' =>
       SRTF_queue_ s' = enqueue_all programs (SRTF_queue_ s) /\
       trace s' = trace s ++ map (fun p => EvState p READY) programs).
Proof.
  induction programs as [|p rest IH]; intros s; cbn [for_each].
  - apply post_ret. rewrite app_nil_r. split; reflexivity.
  - apply post_bind, post_bind, post_assign_state. unfold SRTF_push.
    apply post_modify. eapply post_weaken; [apply IH|].
    cbv beta. intros _ s' (Hq & Ht). split.
    + rewrite Hq. reflexivity.
    + rewrite Ht. cbn [trace record with_queue map].
      rewrite <- app_assoc. reflexivity.
Qed.

Lemma post_prepare programs : forall s,
  post (for_each programs (fun program =>
          _ <- assign_state program READY ;; ret tt)) s
    (fun _ s' =>
       SRTF_queue_ s' = SRTF_queue_ s /\
       trace s' = trace s ++ map (fun p => EvState p READY) programs).
Proof.
  induction programs as [|p rest IH]; intros s; cbn [for_each].
  - apply post_ret. rewrite app_nil_r. split; reflexivity.
  - apply post_bind, post_bind, post_assign_state, post_ret.
    eapply post_weaken; [apply IH|].
    cbv beta. intros _ s' (Hq & Ht). split.
    + rewrite Hq. reflexivity.
    + rewrite Ht. cbn [trace record map].
      rewrite <- app_assoc. reflexivity.
Qed.

Lemma post_drain fuel : forall p s,
  operations p = [] \/ ends_well (operations p) ->
  (List.length (operations p) <= fuel)%nat ->
  post (drain clock fuel p) s
    (fun p' s' => p' = with_operations [] p /\ output_step clock s s').
Proof.
  induction fuel as [|fuel IH]; intros p s Hw Hf; cbn [drain]; unfold done.
  - destruct (operations p) as [|o r] eqn:E; [|cbn in Hf; lia].
    apply post_ret. split; [|apply output_step_refl].
    symmetry. apply with_operations_nil. exact E.
  - destruct (operations p) as [|o r] eqn:E.
    + apply post_ret. split; [|apply output_step_refl].
      symmetry. apply with_operations_nil. exact E.
    + destruct Hw as [Hw|Hw]; [discriminate|].
      rewrite <- E in Hw, Hf.
      destruct (consume_ends_well _ Hw) as [ops' Hc].
      apply post_bind. eapply post_weaken; [apply post_process_operation, Hc|].
      cbv beta. intros p1 s1 (-> & Ho1).
      eapply post_weaken.
      { apply IH; cbn [operations with_operations].
        - destruct (consume_preserves _ _ Hw Hc); auto.
        - apply consume_length in Hc. lia. }
      cbv beta. intros p2 s2 (-> & Ho2). split; [reflexivity|].
      eapply output_step_trans; eassumption.
Qed.

Lemma post_FIFO_loop programs : forall pc s,
  Forall (fun p => operations p = [] \/ ends_well (operations p)) programs ->
  post (FIFO_loop clock programs pc) s (fun _ s' =>
    SRTF_queue_ s' = SRTF_queue_ s /\
    exists evs,
      trace s' = trace s ++ evs /\
      scheduling evs = FIFO_schedule programs pc).
Proof.
  induction programs as [|p rest IH]; intros pc s Hw; cbn [FIFO_loop].
  - apply post_ret. split; [reflexivity|]. exists []. rewrite app_nil_r.
    split; reflexivity.
  - inversion Hw as [|? ? Hp Hrest]; subst. cbv zeta.
    apply post_bind, post_emit.
    apply post_bind, post_print.
    apply post_bind, post_assign_state.
    apply post_bind. eapply post_weaken.
    { apply post_drain; cbn [operations with_state with_id]; auto. }
    cbv beta. intros p1 s1 (-> & Ho).
    destruct Ho as (_ & Hq1 & _ & _ & evo & Ht1 & Hg1 & _).
    cbn [SRTF_queue_ trace record tick] in Hq1, Ht1.
    apply post_bind, post_assign_state.
    eapply post_weaken; [apply IH; exact Hrest|].
    cbv beta. intros _ s' (Hq' & ev' & Ht' & Hg').
    cbn [SRTF_queue_ trace record] in Hq', Ht'. split; [congruence|].
    eexists. split.
    + rewrite Ht', Ht1. rewrite <- !app_assoc. reflexivity.
    + cbn [app scheduling filter]. rewrite scheduling_app, Hg1.
      cbn [app scheduling filter FIFO_schedule]. fold (scheduling ev').
      rewrite Hg'. reflexivity.
Qed.

Lemma post_run_SRTF s :
  String.eqb (schedulingCode_ s) "FIFO" = false ->
  SRTF_queue_ s = [] ->
  Forall (fun p => ends_well (operations p)) (programs_ s) ->
  post (run clock) s (fun _ s' =>
    exists evs, trace s' = trace s ++ evs /\
                scheduling evs = SRTF_records (programs_ s)).
Proof.
  intros Hc Hq Hw. unfold run.
  apply post_bind. eexists _, _. split; [reflexivity|].
  apply post_bind, post_modify.
  apply post_bind, post_print.
  apply post_bind, post_gets.
  apply post_bind, post_gets.
  cbn [schedulingCode_ programs_ record tick with_start]. rewrite Hc.
  apply post_bind, post_bind, post_print.
  apply post_bind. eapply post_weaken; [apply post_enqueue_all|].
  cbv beta. intros _ s1 (Hq1 & Ht1).
  cbn [SRTF_queue_ trace record tick with_start] in Hq1, Ht1.
  rewrite Hq in Hq1.
  apply post_bind, post_gets.
  eapply post_weaken.
  { apply post_SRTF_loop with (fuel := total_operations (SRTF_queue_ s1)).
    - rewrite Hq1. apply enqueue_all_Forall; [exact Hw | constructor].
    - apply Nat.le_refl. }
  cbv beta. intros _ s2 (Hq2 & ev2 & Ht2 & Hg2).
  apply post_print.
  cbn [trace record tick]. eexists. split.
  - rewrite Ht2, Ht1. rewrite <- !app_assoc. reflexivity.
  - cbn [app scheduling filter]. rewrite !scheduling_app, scheduling_states, Hg2.
    rewrite Hq1. cbn [scheduling filter]. rewrite app_nil_r. reflexivity.
Qed.

Lemma post_run_FIFO s :
  String.eqb (schedulingCode_ s) "FIFO" = true ->
  Forall (fun p => operations p = [] \/ ends_well (operations p))
    (programs_ s) ->
  post (run clock) s (fun _ s' =>
    exists evs, trace s' = trace s ++ evs /\
                scheduling evs = FIFO_records (programs_ s)).
Proof.
  intros Hc Hw. unfold run.
  apply post_bind. eexists _, _. split; [reflexivity|].
  apply post_bind, post_modify.
  apply post_bind, post_print.
  apply post_bind, post_gets.
  apply post_bind, post_gets.
  cbn [schedulingCode_ programs_ record tick with_start]. rewrite Hc.
  apply post_bind, post_bind, post_print.
  apply post_bind. eapply post_weaken; [apply post_prepare|].
  cbv beta. intros _ s1 (Hq1 & Ht1).
  cbn [SRTF_queue_ trace record tick with_start] in Hq1, Ht1.
  eapply post_weaken; [apply post_FIFO_loop; exact Hw|].
  cbv beta. intros _ s2 (Hq2 & ev2 & Ht2 & Hg2).
  apply post_print.
  cbn [trace record tick]. eexists. split.
  - rewrite Ht2, Ht1. rewrite <- !app_assoc. reflexivity.
  - cbn [app scheduling filter]. rewrite !scheduling_app, scheduling_states, Hg2.
    cbn [scheduling filter]. rewrite app_nil_r. reflexivity.
Qed.

Lemma engine_run s s' :
  run clock s = Ok (tt, s') ->
  engine_step clock (with_start (clock (clock_reads s)) (tick s)) s'.
Proof.
  unfold run. intros H.
  inv_bind H. inversion Hm; subst; clear Hm.
  inv_bind H. inversion Hm; subst; clear Hm.
  revert H.
  match goal with
  | |- ?m ?s0 = _ -> _ =>
      assert (Hr : steps (engine_step clock) m); [|intros H; eapply Hr, H]
  end.
  engine_steps.
  - apply engine_for_each. intros p. engine_steps.
  - apply engine_FIFO_loop.
  - apply engine_for_each. intros p. engine_steps.
  - apply engine_SRTF_loop.
Qed.

Lemma stamps_from_sorted start :
  (forall i j, (i <= j)%nat -> clock i <= clock j) ->
  forall n r, Sorted Z.le (stamps_from clock start r n).
Proof.
  intros Hmono. unfold stamps_from.
  induction n as [|n IH]; intros r; cbn [seq map]; [constructor|].
  constructor; [apply IH|].
  destruct n; cbn [seq map]; constructor.
  specialize (Hmono r (S r) ltac:(lia)). lia.
Qed.

Lemma stamps_from_length start r n :
  List.length (stamps_from clock start r n) = n.
Proof. unfold stamps_from. rewrite length_map, length_seq. reflexivity. Qed.

(** [run] taken apart: the two opening lines, the loops of the chosen
    branch, the closing line. *)
Lemma run_inv s s' :
  run clock s = Ok (tt, s') ->
  exists s1 s2,
    print clock "OS: preparing all processes"
      (record (EvPrint (clock (S (clock_reads s)) - clock (clock_reads s))
                 "Simulator program starting")
         (tick (with_start (clock (clock_reads s)) (tick s)))) = Ok (tt, s1) /\
    (if String.eqb (schedulingCode_ s) "FIFO"
     then
       (for_each (programs_ s) (fun program =>
          _ <- assign_state program READY ;; ret tt) ;;
        FIFO_loop clock (programs_ s) 0) s1
     else
       (for_each (programs_ s) (fun program =>
          program <- assign_state program READY ;; SRTF_push program) ;;
        q <- gets SRTF_queue_ ;;
        SRTF_loop clock (total_operations q) 0) s1) = Ok (tt, s2) /\
    print clock "Simulator program ending" s2 = Ok (tt, s').
Proof.
  unfold run. intros H.
  inv_bind H. inversion Hm; subst; clear Hm.
  inv_bind H. inversion Hm; subst; clear Hm.
  inv_bind H. rewrite print_eq in Hm. inversion Hm; subst; clear Hm.
  inv_bind H. inversion Hm; subst; clear Hm.
  inv_bind H. inversion Hm; subst; clear Hm.
  inv_bind H.
  cbn [schedulingCode_ programs_ record tick with_start clock_reads start_]
    in Hm, H |- *.
  destruct (String.eqb (schedulingCode_ s) "FIFO");
    inv_bind Hm; destruct a; destruct a0; eauto.
Qed.

Lemma SRTF_branch_queue programs s1 s2 :
  SRTF_queue_ s1 = [] ->
  Forall (fun p => ends_well (operations p)) programs ->
  (for_each programs (fun program =>
     program <- assign_state program READY ;; SRTF_push program) ;;
   q <- gets SRTF_queue_ ;;
   SRTF_loop clock (total_operations q) 0) s1 = Ok (tt, s2) ->
  SRTF_queue_ s2 = [].
Proof.
  intros Hq Hw H.
  apply bind_Ok in H. destruct H as ([] & sa & Ha & H).
  pose proof (post_Ok _ _ _ _ _ (post_enqueue_all programs s1) Ha)
    as (Hq1 & _).
  rewrite Hq in Hq1.
  apply bind_Ok in H. destruct H as (q & sb & Hb & H).
  inversion Hb; subst; clear Hb.
  assert (Hw1 : Forall (fun p => ends_well (operations p)) (SRTF_queue_ sb)).
  { rewrite Hq1. apply enqueue_all_Forall; [exact Hw | constructor]. }
  pose proof (post_Ok _ _ _ _ _
                (post_SRTF_loop (total_operations (SRTF_queue_ sb)) 0 sb Hw1
                   (Nat.le_refl _)) H) as (Hq2 & _).
  exact Hq2.
Qed.

Lemma FIFO_branch_queue programs s1 s2 :
  Forall (fun p => operations p = [] \/ ends_well (operations p)) programs ->
  (for_each programs (fun program =>
     _ <- assign_state program READY ;; ret tt) ;;
   FIFO_loop clock programs 0) s1 = Ok (tt, s2) ->
  SRTF_queue_ s2 = SRTF_queue_ s1.
Proof.
  intros Hw H.
  apply bind_Ok in H. destruct H as ([] & sa & Ha & H).
  pose proof (post_Ok _ _ _ _ _ (post_prepare programs s1) Ha)
    as (Hq1 & _).
  pose proof (post_Ok _ _ _ _ _ (post_FIFO_loop programs 0 sa Hw) H)
    as (Hq2 & _).
  congruence.
Qed.

Lemma sleeps_are_emit e :
  match e with EvSleep _ => False | _ => True end ->
  steps (sleeps_are []) (emit e).
Proof.
  intros He s a s' H. inversion H; subst. exists [e]. split; [reflexivity|].
  destruct e; [| destruct He | |]; reflexivity.
Qed.

Lemma returns_assign_state p st : returns (assign_state p st) (with_state st p).
Proof. intros s. eexists. reflexivity. Qed.

Lemma sleeps_are_assign_state p st : steps (sleeps_are []) (assign_state p st).
Proof.
  unfold assign_state.
  eapply sleeps_are_bind;
    [apply sleeps_are_emit; exact I | intros; apply sleeps_are_ret
    | reflexivity].
Qed.

Lemma sleeps_drain fuel : forall p,
  operations p = [] \/ ends_quietly (operations p) ->
  steps (sleeps_are (timed_durations (operations p))) (drain clock fuel p).
Proof.
  induction fuel as [|fuel IH]; intros p Hq; cbn [drain]; unfold done;
    destruct (operations p) as [|o0 r0] eqn:E.
  1, 3: apply sleeps_are_ret.
  - intros s a s' H. discriminate.
  - destruct Hq as [Hq|Hq]; [discriminate|]. rewrite <- E in *.
    destruct (consume_ends_well _ (ends_quietly_well _ Hq)) as [ops' Hc].
    destruct (consume_after_start _ _ Hc) as (o & r & Ha & _).
    eapply sleeps_are_bind_ret.
    + apply process_operation_returns. exact Hc.
    + eapply sleeps_process_operation. exact Ha.
    + apply IH. cbn [operations with_operations].
      apply (consume_quietly _ _ Hq Hc).
    + cbn [operations with_operations].
      apply (consume_timed _ _ _ _ Hq Hc Ha).
Qed.

Lemma returns_drain p :
  operations p = [] \/ ends_well (operations p) ->
  returns (drain clock (List.length (operations p)) p) (with_operations [] p).
Proof.
  intros Hw s.
  destruct (post_drain (List.length (operations p)) p s Hw (Nat.le_refl _))
    as (p' & s' & H & -> & _).
  exists s'. exact H.
Qed.

Lemma sleeps_FIFO_loop programs : forall pc,
  Forall (fun p => operations p = [] \/ ends_quietly (operations p))
    programs ->
  steps (sleeps_are (flat_map (fun p => timed_durations (operations p))
                       programs))
    (FIFO_loop clock programs pc).
Proof.
  induction programs as [|p rest IH]; intros pc Hq; cbn [FIFO_loop flat_map].
  - apply sleeps_are_ret.
  - inversion Hq as [|? ? Hp Hrest]; subst. cbv zeta.
    eapply sleeps_are_bind;
      [apply sleeps_are_emit; exact I | intros _ | reflexivity].
    eapply sleeps_are_bind;
      [apply sleeps_are_print | intros _ | reflexivity].
    eapply sleeps_are_bind_ret;
      [apply returns_assign_state | apply sleeps_are_assign_state |
      | reflexivity].
    cbn [operations with_state with_id].
    eapply sleeps_are_bind_ret with
      (x := with_operations []
              (with_state RUNNING (with_id (wrap (pc + 1)) p)))
      (l1 := timed_durations (operations p)).
    + apply (returns_drain (with_state RUNNING (with_id (wrap (pc + 1)) p))).
      cbn [operations with_state with_id].
      destruct Hp as [Hp|Hp]; [left; exact Hp|].
      right. apply ends_quietly_well, Hp.
    + apply (sleeps_drain _ (with_state RUNNING (with_id (wrap (pc + 1)) p))).
      exact Hp.
    + eapply sleeps_are_bind;
        [apply sleeps_are_assign_state | intros _; apply IH, Hrest
        | reflexivity].
    + reflexivity.
Qed.

Lemma sleeps_SRTF_loop fuel : forall pc s s',
  Forall (fun p => ends_quietly (operations p)) (SRTF_queue_ s) ->
  SRTF_loop clock fuel pc s = Ok (tt, s') ->
  exists evs,
    trace s' = trace s ++ evs /\
    Permutation (sleeps evs)
      (flat_map (fun p => timed_durations (operations p)) (SRTF_queue_ s)).
Proof.
  induction fuel as [|fuel IH]; intros pc s s' Hq H; cbn [SRTF_loop] in H;
    unfold SRTF_empty in H;
    apply bind_Ok in H; destruct H as (e & s0 & He & H);
    apply bind_Ok in He; destruct He as (q & s00 & Hg & He);
    inversion Hg; subst; clear Hg; inversion He; subst; clear He;
    destruct (SRTF_queue_ s0) as [|p rest] eqn:Eq.
  1, 3: inversion H; subst; exists []; rewrite app_nil_r;
        split; [reflexivity | constructor].
  - discriminate.
  - apply bind_Ok in H. destruct H as (pc' & s1 & Ht & H).
    inversion Hq as [|? ? Hp Hrest]; subst.
    destruct (consume_ends_well _ (ends_quietly_well _ Hp)) as [ops' Hc].
    destruct (consume_after_start _ _ Hc) as (o & r & Ha & _).
    pose proof (post_Ok _ _ _ _ _
                  (post_SRTF_turn pc p rest ops' o r s0 Eq Hc Ha) Ht)
      as (-> & Hq1 & ev1 & Ht1 & _ & Hs1).
    assert (Hq' : Forall (fun x => ends_quietly (operations x))
                    (SRTF_queue_ s1)).
    { rewrite Hq1. unfold turn_queue. cbn [operations with_operations].
      destruct (consume_quietly _ _ Hp Hc) as [E|Hx].
      - subst ops'. exact Hrest.
      - destruct ops' as [|x l]; [exact Hrest|].
        apply pq_push_Forall; [exact Hx | exact Hrest]. }
    destruct (IH _ _ _ Hq' H) as (ev2 & Ht2 & Hperm).
    exists (ev1 ++ ev2). split.
    + rewrite Ht2, Ht1, app_assoc. reflexivity.
    + rewrite sleeps_app, Hs1. cbn [flat_map].
      rewrite (consume_timed _ _ _ _ Hp Hc Ha), <- app_assoc.
      apply Permutation_app_head.
      rewrite Hperm, Hq1. unfold turn_queue.
      cbn [operations with_operations]. destruct ops' as [|x l].
      * reflexivity.
      * rewrite (Permutation_flat_map _ (pq_push_perm _ rest)).
        reflexivity.
Qed.

Lemma blind_print message : code_blind (print clock message).
Proof. intros c s. reflexivity. Qed.

Ltac blind_steps :=
  repeat match goal with
  | |- code_blind (if ?c then _ else _) => destruct c
  | |- code_blind (bind _ _) => apply blind_bind; [ | intros ? ]
  | |- code_blind (print _ _) => apply blind_print
  | |- code_blind (sleep_for _) => apply blind_emit
  | |- code_blind (emit _) => apply blind_emit
  | |- code_blind (assign_state _ _) => unfold assign_state
  | |- code_blind (of_option _) => apply blind_of_option
  | |- code_blind (gets SRTF_queue_) => apply blind_gets; reflexivity
  | |- code_blind (modify _) => apply blind_modify; reflexivity
  | |- code_blind timeout => apply blind_timeout
  | |- code_blind (ret _) => apply blind_ret
  end.

Lemma blind_process_operation p : code_blind (process_operation clock p).
Proof. unfold process_operation, process_IO. blind_steps. Qed.

Lemma blind_SRTF_turn pc : code_blind (SRTF_turn clock pc).
Proof.
  unfold SRTF_turn, SRTF_top, SRTF_pop, SRTF_push. cbv zeta. blind_steps;
    apply blind_process_operation.
Qed.

Lemma blind_SRTF_loop fuel : forall pc, code_blind (SRTF_loop clock fuel pc).
Proof.
  induction fuel as [|fuel IH]; intros pc; cbn [SRTF_loop]; unfold SRTF_empty;
    blind_steps.
  - apply blind_SRTF_turn.
  - apply IH.
Qed.

Lemma blind_for_each programs body :
  (forall p, code_blind (body p)) -> code_blind (for_each programs body).
Proof.
  intros Hb. induction programs as [|p rest IH]; cbn [for_each]; blind_steps.
  - apply Hb.
  - apply IH.
Qed.

Lemma run_unfold s :
  run clock s =
  (programs <- gets programs_ ;;
   (if String.eqb (schedulingCode_ s) "FIFO" then
      print clock "OS: preparing all processes" ;;
      for_each programs (fun program =>
        _ <- assign_state program READY ;; ret tt) ;;
      FIFO_loop clock programs 0
    else
      print clock "OS: preparing all processes" ;;
      for_each programs (fun program =>
        program <- assign_state program READY ;;
        SRTF_push program) ;;
      q <- gets SRTF_queue_ ;;
      SRTF_loop clock (total_operations q) 0) ;;
   print clock "Simulator program ending")
    (record (EvPrint (clock (S (clock_reads s)) - clock (clock_reads s))
               "Simulator program starting")
       (tick (with_start (clock (clock_reads s)) (tick s)))).
Proof. reflexivity. Qed.

Lemma blind_SRTF_branch :
  code_blind
    (programs <- gets programs_ ;;
     (print clock "OS: preparing all processes" ;;
      for_each programs (fun program =>
        program <- assign_state program READY ;;
        SRTF_push program) ;;
      q <- gets SRTF_queue_ ;;
      SRTF_loop clock (total_operations q) 0) ;;
     print clock "Simulator program ending").
Proof.
  apply blind_bind; [apply blind_gets; reflexivity | intros programs].
  apply blind_bind; [|intros _; apply blind_print].
  apply blind_bind; [apply blind_print | intros _].
  apply blind_bind.
  - apply blind_for_each. intros p. unfold SRTF_push. blind_steps.
  - intros _. apply blind_bind; [apply blind_gets; reflexivity|].
    intros q. apply blind_SRTF_loop.
Qed.

(** No turn of the SRTF loop blocks for more than one operation. *)
Lemma pace_SRTF_loop fuel : forall pc s s',
  Forall (fun p => ends_well (operations p)) (SRTF_queue_ s) ->
  SRTF_loop clock fuel pc s = Ok (tt, s') ->
  exists evs,
    trace s' = trace s ++ evs /\
    (List.length (sleeps evs) <= List.length (selects evs))%nat.
Proof.
  induction fuel as [|fuel IH]; intros pc s s' Hw H; cbn [SRTF_loop] in H;
    unfold SRTF_empty in H;
    apply bind_Ok in H; destruct H as (e & s0 & He & H);
    apply bind_Ok in He; destruct He as (q & s00 & Hg & He);
    inversion Hg; subst; clear Hg; inversion He; subst; clear He;
    destruct (SRTF_queue_ s0) as [|p rest] eqn:Eq.
  1, 3: inversion H; subst; exists []; rewrite app_nil_r;
        split; [reflexivity | apply Nat.le_refl].
  - discriminate.
  - apply bind_Ok in H. destruct H as (pc' & s1 & Ht & H).
    inversion Hw as [|? ? Hp Hrest]; subst.
    destruct (consume_ends_well _ Hp) as [ops' Hc].
    destruct (consume_after_start _ _ Hc) as (o & r & Ha & _).
    pose proof (post_Ok _ _ _ _ _
                  (post_SRTF_turn pc p rest ops' o r s0 Eq Hc Ha) Ht)
      as (-> & Hq1 & ev1 & Ht1 & Hg1 & Hs1).
    assert (Hw' : Forall (fun x => ends_well (operations x))
                    (SRTF_queue_ s1)).
    { rewrite Hq1. unfold identified. destruct (id p =? 0).
      - apply turn_queue_ends_well; assumption.
      - replace p with (with_id (id p) p) at 1 by (destruct p; reflexivity).
        apply turn_queue_ends_well; assumption. }
    destruct (IH _ _ _ Hw' H) as (ev2 & Ht2 & Hle).
    exists (ev1 ++ ev2). split.
    + rewrite Ht2, Ht1, app_assoc. reflexivity.
    + rewrite sleeps_app, selects_app, !length_app, Hs1.
      rewrite <- (selects_scheduling ev1), Hg1.
      unfold turn_records. cbn [selects flat_map app List.length].
      destruct (timed o); cbn [List.length]; lia.
Qed.

(** Draining a Program: its queue is emptied, nothing is scheduled
    meanwhile, and every timed operation is blocked for. *)
Lemma post_drain_body fuel p s :
  operations p = [] \/ ends_quietly (operations p) ->
  (List.length (operations p) <= fuel)%nat ->
  post (drain clock fuel p) s
    (fun p' s' =>
       p' = with_operations [] p /\
       SRTF_queue_ s' = SRTF_queue_ s /\
       exists body,
         trace s' = trace s ++ body /\
         scheduling body = [] /\
         sleeps body = timed_durations (operations p)).
Proof.
  intros Hq Hf.
  assert (Hw : operations p = [] \/ ends_well (operations p)).
  { destruct Hq as [Hq|Hq]; [left; exact Hq|].
    right. apply ends_quietly_well, Hq. }
  destruct (post_drain fuel p s Hw Hf) as (p' & s' & H & -> & Ho).
  exists (with_operations [] p), s'. split; [exact H|].
  split; [reflexivity|].
  destruct Ho as (_ & Hq1 & _ & _ & body & Ht & Hg & _).
  split; [exact Hq1|].
  exists body. split; [exact Ht|]. split; [exact Hg|].
  destruct (sleeps_drain fuel p Hq s _ s' H) as (body' & Ht' & Hs).
  rewrite Ht in Ht'. apply app_inv_head in Ht'. subst body'. exact Hs.
Qed.

Lemma post_FIFO_loop_blocks programs : forall pc s,
  Forall (fun p => operations p = [] \/ ends_quietly (operations p))
    programs ->
  post (FIFO_loop clock programs pc) s (fun _ s' =>
    exists blocks,
      trace s' = trace s ++ List.concat blocks /\
      FIFO_blocks programs pc blocks).
Proof.
  induction programs as [|p rest IH]; intros pc s Hq; cbn [FIFO_loop].
  - apply post_ret. exists []. cbn [List.concat]. rewrite app_nil_r.
    split; [reflexivity | exact I].
  - inversion Hq as [|? ? Hp Hrest]; subst. cbv zeta.
    apply post_bind, post_emit.
    apply post_bind, post_print.
    apply post_bind, post_assign_state.
    apply post_bind. eapply post_weaken.
    { apply post_drain_body; cbn [operations with_state with_id];
        [exact Hp | apply Nat.le_refl]. }
    cbv beta. intros p1 s1 (-> & _ & body & Ht1 & Hg1 & Hs1).
    cbn [trace record tick operations with_state with_id] in Ht1, Hs1.
    apply post_bind, post_assign_state.
    eapply post_weaken; [apply IH; exact Hrest|].
    cbv beta. intros _ s' (blocks & Ht' & Hb).
    cbn [trace record] in Ht'.
    exists ((EvSelect p ::
             EvPrint (clock (clock_reads s) - start_ s)
               "OS: selecting next process" ::
             EvState (with_id (wrap (pc + 1)) p) RUNNING ::
             body ++
             [EvState
                (with_operations []
                   (with_state RUNNING (with_id (wrap (pc + 1)) p)))
                EXIT]) :: blocks).
    split.
    + rewrite Ht', Ht1. cbn [List.concat app]. rewrite <- !app_assoc.
      cbn [app]. reflexivity.
    + cbn [FIFO_blocks]. split; [|exact Hb].
      exists (clock (clock_reads s) - start_ s), body.
      split; [reflexivity|]. split; assumption.
Qed.

End EngineSteps.

(** * The scheduler *)

Lemma selects_SRTF_records programs :
  selects (SRTF_records programs) =
  selects (SRTF_schedule (total_operations (enqueue_all programs [])) 0
             (enqueue_all programs [])).
Proof.
  unfold SRTF_records. rewrite selects_app, selects_states. reflexivity.
Qed.

Lemma as_loaded_queue programs :
  Forall as_loaded programs ->
  Forall (fun p => ends_well (operations p)) (enqueue_all programs []) /\
  Forall (fun p => fresh p = true) (enqueue_all programs []) /\
  Forall (fun p => state p = READY) (enqueue_all programs []).
Proof.
  intros H. repeat split; (apply enqueue_all_Forall; [|constructor]);
    (eapply Forall_impl; [|exact H]); intros p (Hs & Hi & Hw);
    cbn [operations state id with_state]; auto.
  unfold fresh. cbn [id with_state]. rewrite Hi. reflexivity.
Qed.

(** C3.  Under the SRTF-N discipline (every scheduling code but FIFO) the
    Programs bound for dispatch come in ascending [running_time].  Among
    the Programs of one [running_time] the dispatches come in the order
    of the pushes on the priority structure, at admission and every time
    a Program is put back: a Program put back goes behind the queued
    ones of its [running_time].  In particular the first dispatches of
    the Programs of one [running_time] come in the order of admission.
    No dispatch blocks for more than one operation, every Program is
    dispatched until it is set EXIT, and the dispatch order is the same
    whatever the clock reads, run after run. *)
Theorem SRTF_dispatch_order (clock : nat -> Z) (s : Simulator) :
  String.eqb (schedulingCode_ s) "FIFO" = false ->
  SRTF_queue_ s = [] ->
  Forall as_loaded (programs_ s) ->
  Z.of_nat (List.length (programs_ s)) < 2 ^ 31 ->
  exists s' evs,
    run clock s = Ok (tt, s') /\
    trace s' = trace s ++ evs /\
    Sorted (fun a b => running_time a <= running_time b) (selects evs) /\
    (forall k,
       filter (fun p => running_time p =? k) (selects evs) =
       filter (fun p => running_time p =? k) (readied evs)) /\
    (forall k,
       filter (fun p => running_time p =? k) (filter fresh (selects evs)) =
       filter (fun p => running_time p =? k)
         (map (with_state READY) (programs_ s))) /\
    (List.length (sleeps evs) <= List.length (selects evs))%nat /\
    List.length (exits evs) = List.length (programs_ s) /\
    (forall clock2, exists s2 evs2,
       run clock2 s = Ok (tt, s2) /\
       trace s2 = trace s ++ evs2 /\
       selects evs2 = selects evs).
Proof.
  intros Hc Hq Ha Hn.
  destruct (as_loaded_queue _ Ha) as (Hw & Hfresh & _).
  assert (Hw0 : Forall (fun p => ends_well (operations p)) (programs_ s)).
  { eapply Forall_impl; [|exact Ha]. intros p (_ & _ & H). exact H. }
  destruct (post_run_SRTF clock s Hc Hq Hw0) as ([] & s' & Hrun & evs & Ht & Hg).
  assert (Hsel : selects evs =
                 selects (SRTF_schedule
                            (total_operations (enqueue_all (programs_ s) [])) 0
                            (enqueue_all (programs_ s) []))).
  { rewrite <- selects_scheduling, Hg. apply selects_SRTF_records. }
  exists s', evs. split; [exact Hrun|]. split; [exact Ht|].
  assert (Hsorted : pq_sorted (enqueue_all (programs_ s) []))
    by (apply enqueue_all_sorted; constructor).
  split; [|split; [|split; [|split; [|split]]]].
  - rewrite Hsel. apply StronglySorted_Sorted.
    apply SRTF_schedule_ascending. exact Hsorted.
  - intros k. rewrite Hsel.
    rewrite SRTF_schedule_ties by (assumption || apply Nat.le_refl).
    rewrite <- (readied_scheduling evs), Hg. unfold SRTF_records.
    rewrite readied_app, readied_states, !filter_app.
    rewrite enqueue_all_stable by constructor. reflexivity.
  - intros k. rewrite Hsel, SRTF_schedule_first.
    + rewrite (filter_all fresh) by exact Hfresh.
      rewrite enqueue_all_stable by constructor. reflexivity.
    + exact Hw.
    + apply Nat.le_refl.
    + lia.
    + rewrite (filter_all fresh) by exact Hfresh.
      rewrite enqueue_all_length. cbn [List.length]. lia.
  - destruct (run_inv clock s s' Hrun) as (s1 & s2 & H1 & H2 & H3).
    rewrite Hc in H2. rewrite print_eq in H1, H3.
    inversion H1; subst; clear H1. inversion H3; subst; clear H3.
    apply bind_Ok in H2. destruct H2 as ([] & sa & Hpa & H2).
    pose proof (post_Ok _ _ _ _ _ (post_enqueue_all (programs_ s) _) Hpa)
      as (Hqa & Hta).
    apply bind_Ok in H2. destruct H2 as (q & sb & Hb & H2).
    inversion Hb; subst; clear Hb.
    cbn [SRTF_queue_ trace record tick with_start] in Ht, Hta, Hqa.
    rewrite Hq in Hqa.
    assert (Hwq : Forall (fun p => ends_well (operations p)) (SRTF_queue_ sb))
      by (rewrite Hqa; exact Hw).
    destruct (pace_SRTF_loop clock _ _ _ _ Hwq H2) as (ev2 & Ht2 & Hle).
    rewrite Ht2, Hta, <- !app_assoc in Ht. apply app_inv_head in Ht.
    subst evs.
    rewrite !sleeps_app, !selects_app, sleeps_states, selects_states.
    cbn [sleeps selects flat_map app List.length].
    rewrite !length_app. cbn [List.length]. lia.
  - rewrite <- exits_scheduling, Hg. unfold SRTF_records.
    rewrite exits_app, exits_states. cbn [app].
    destruct (exits_SRTF_schedule
                (total_operations (enqueue_all (programs_ s) [])) 0
                (enqueue_all (programs_ s) []) Hw (Nat.le_refl _))
      as [Hlen _].
    rewrite enqueue_all_length in Hlen. cbn [List.length] in Hlen.
    rewrite Nat.add_0_r in Hlen. exact Hlen.
  - intros clock2.
    destruct (post_run_SRTF clock2 s Hc Hq Hw0)
      as ([] & s2 & Hrun2 & evs2 & Ht2 & Hg2).
    exists s2, evs2. split; [exact Hrun2|]. split; [exact Ht2|].
    rewrite <- (selects_scheduling evs2), <- (selects_scheduling evs).
    rewrite Hg, Hg2. reflexivity.
Qed.

Lemma selects_FIFO_schedule programs : forall pc,
  selects (FIFO_schedule programs pc) = programs.
Proof.
  induction programs as [|p rest IH]; intros pc; cbn [FIFO_schedule];
    [reflexivity|].
  rewrite selects_app. cbn [selects flat_map app].
  fold (selects (FIFO_schedule rest (wrap (pc + 1)))). rewrite IH. reflexivity.
Qed.

(** C6.  Under the FIFO discipline the Programs are bound for dispatch in
    the order of [programs_], whatever their [running_time].  What [run]
    appends to the trace is its two opening lines, the assignments of
    READY, one block for each Program in that order, and its closing
    line: in its block the Program is bound, set RUNNING, blocked for
    once for each of its timed operations in the order of its queue, and
    set EXIT with its queue empty, before the next Program is bound. *)
Theorem FIFO_dispatch_order (clock : nat -> Z) (s : Simulator) :
  String.eqb (schedulingCode_ s) "FIFO" = true ->
  Forall (fun p => operations p = [] \/ ends_quietly (operations p))
    (programs_ s) ->
  exists s' evs,
    run clock s = Ok (tt, s') /\
    trace s' = trace s ++ evs /\
    selects evs = programs_ s /\
    scheduling evs =
      map (fun p => EvState p READY) (programs_ s) ++
      FIFO_schedule (programs_ s) 0 /\
    exists t0 t1 t2 blocks,
      evs =
        [EvPrint t0 "Simulator program starting";
         EvPrint t1 "OS: preparing all processes"] ++
        map (fun p => EvState p READY) (programs_ s) ++
        List.concat blocks ++
        [EvPrint t2 "Simulator program ending"] /\
      FIFO_blocks (programs_ s) 0 blocks.
Proof.
  intros Hc Hq.
  assert (Hw : Forall (fun p => operations p = [] \/ ends_well (operations p))
                 (programs_ s)).
  { eapply Forall_impl; [|exact Hq]. intros p [H|H]; [left; exact H|].
    right. apply ends_quietly_well, H. }
  destruct (post_run_FIFO clock s Hc Hw) as ([] & s' & Hrun & evs & Ht & Hg).
  exists s', evs. split; [exact Hrun|]. split; [exact Ht|].
  split; [|split].
  - rewrite <- selects_scheduling, Hg. unfold FIFO_records.
    rewrite selects_app, selects_states. apply selects_FIFO_schedule.
  - exact Hg.
  - destruct (run_inv clock s s' Hrun) as (s1 & s2 & H1 & H2 & H3).
    rewrite Hc in H2. rewrite print_eq in H1, H3.
    inversion H1; subst; clear H1. inversion H3; subst; clear H3.
    apply bind_Ok in H2. destruct H2 as ([] & sa & Hpa & H2).
    pose proof (post_Ok _ _ _ _ _ (post_prepare (programs_ s) _) Hpa)
      as (_ & Hta).
    pose proof (post_Ok _ _ _ _ _
                  (post_FIFO_loop_blocks clock (programs_ s) 0 sa Hq) H2)
      as (blocks & Htb & Hb).
    cbn [trace record tick with_start] in Ht, Hta.
    rewrite Htb, Hta, <- !app_assoc in Ht. apply app_inv_head in Ht.
    subst evs. eexists _, _, _, blocks. split; [|exact Hb].
    cbn [app]. reflexivity.
Qed.

Lemma transitions_states (programs : list Program) st :
  transitions (map (fun p => EvState p st) programs) =
  map (fun p => (state p, st)) programs.
Proof.
  unfold transitions. induction programs as [|p l IH]; cbn [map flat_map app];
    [reflexivity | rewrite IH; reflexivity].
Qed.

Lemma transitions_FIFO_schedule programs : forall pc,
  Forall (fun p => state p = START) programs ->
  Forall (fun t => (rank (fst t) < rank (snd t))%nat)
    (transitions (FIFO_schedule programs pc)).
Proof.
  induction programs as [|p rest IH]; intros pc Hs; cbn [FIFO_schedule].
  - constructor.
  - inversion Hs as [|? ? Hp Hrest]; subst.
    rewrite transitions_app. apply Forall_app. split; [|apply IH, Hrest].
    cbn [transitions flat_map app state with_id with_state with_operations].
    rewrite Hp. repeat constructor.
Qed.

Lemma transitions_SRTF_schedule fuel : forall pc q,
  Forall (fun p => state p = READY) q ->
  Forall (fun t => follows (fst t) (snd t) || requeues (fst t) (snd t) = true)
    (transitions (SRTF_schedule fuel pc q)).
Proof.
  induction fuel as [|fuel IH]; intros pc q Hs; cbn [SRTF_schedule];
    [constructor|].
  destruct q as [|p rest]; [constructor|].
  destruct (consume (operations p)) as [ops'|]; [|constructor].
  inversion Hs as [|? ? Hp Hrest]; subst.
  rewrite transitions_app. apply Forall_app. split.
  - cbn [turn_records transitions flat_map app state with_state with_operations].
    rewrite identified_state, Hp.
    destruct ops'; repeat constructor.
  - apply IH. unfold turn_queue. cbn [operations with_operations].
    destruct ops'; [exact Hrest|].
    apply pq_push_Forall; [reflexivity | exact Hrest].
Qed.

(** C4, as the code has it.  Under SRTF-N every assignment to a Program's
    [state] takes it to the next state of Start, Ready, Running, Exit, or
    back from Running to Ready when the Program is put back in the
    priority structure; under FIFO no assignment takes a Program back to
    an earlier state. *)
Theorem state_transitions (clock : nat -> Z) (s : Simulator) :
  SRTF_queue_ s = [] ->
  Forall as_loaded (programs_ s) ->
  exists s' evs,
    run clock s = Ok (tt, s') /\
    trace s' = trace s ++ evs /\
    (String.eqb (schedulingCode_ s) "FIFO" = false ->
     Forall (fun t => follows (fst t) (snd t) || requeues (fst t) (snd t) = true)
       (transitions evs)) /\
    (String.eqb (schedulingCode_ s) "FIFO" = true ->
     Forall (fun t => (rank (fst t) < rank (snd t))%nat) (transitions evs)).
Proof.
  intros Hq Ha.
  assert (Hstart : Forall (fun p => state p = START) (programs_ s)).
  { eapply Forall_impl; [|exact Ha]. intros p (H & _). exact H. }
  assert (Hw0 : Forall (fun p => ends_well (operations p)) (programs_ s)).
  { eapply Forall_impl; [|exact Ha]. intros p (_ & _ & H). exact H. }
  destruct (String.eqb (schedulingCode_ s) "FIFO") eqn:Hc.
  - assert (Hw1 : Forall (fun p => operations p = [] \/ ends_well (operations p))
                    (programs_ s)).
    { eapply Forall_impl; [|exact Hw0]. intros p H. right. exact H. }
    destruct (post_run_FIFO clock s Hc Hw1) as ([] & s' & Hrun & evs & Ht & Hg).
    exists s', evs. split; [exact Hrun|]. split; [exact Ht|].
    split; [discriminate|]. intros _.
    rewrite <- transitions_scheduling, Hg. unfold FIFO_records.
    rewrite transitions_app, transitions_states. apply Forall_app. split.
    + apply Forall_map. eapply Forall_impl; [|exact Hstart].
      intros p Hp. cbn [fst snd]. rewrite Hp. cbn. lia.
    + apply transitions_FIFO_schedule, Hstart.
  - destruct (post_run_SRTF clock s Hc Hq Hw0) as ([] & s' & Hrun & evs & Ht & Hg).
    exists s', evs. split; [exact Hrun|]. split; [exact Ht|].
    split; [|discriminate]. intros _.
    rewrite <- transitions_scheduling, Hg. unfold SRTF_records.
    rewrite transitions_app, transitions_states. apply Forall_app. split.
    + apply Forall_map. eapply Forall_impl; [|exact Hstart].
      intros p Hp. cbn [fst snd]. rewrite Hp. reflexivity.
    + apply transitions_SRTF_schedule.
      apply (as_loaded_queue _ Ha).
Qed.

(** C5.  One turn of the SRTF-N loop takes the front of the priority
    structure, a Program of least [running_time]; gives it the next id if
    its id is still 0 and leaves its id alone otherwise; sets it RUNNING;
    runs [process_operation] once, which executes the one operation [o]
    that follows a start announcement, if any, and blocks for nothing
    else; then sets the Program EXIT and drops it if its queue is empty,
    and otherwise sets it READY and pushes it back. *)
Theorem SRTF_turn_spec (clock : nat -> Z) (programCounter : Z)
    (s : Simulator) (p : Program) (rest : list Program) :
  SRTF_queue_ s = p :: rest ->
  pq_sorted (p :: rest) ->
  ends_well (operations p) ->
  exists o r s' evs,
    after_start (operations p) = o :: r /\
    SRTF_turn clock programCounter s =
      Ok (if id p =? 0 then wrap (programCounter + 1) else programCounter, s') /\
    trace s' = trace s ++ evs /\
    Forall (fun x => running_time p <= running_time x) rest /\
    selects evs = [p] /\
    sleeps evs = (if timed o then [duration o] else []) /\
    let p1 :=
      if id p =? 0 then with_id (wrap (programCounter + 1)) p else p in
    let p2 :=
      with_operations (match r with [_] => [] | _ => r end)
        (with_state RUNNING p1) in
    scheduling evs =
      [EvSelect p; EvState p1 RUNNING;
       EvState p2 (if done p2 then EXIT else READY)] /\
    SRTF_queue_ s' =
      (if done p2 then rest else pq_push (with_state READY p2) rest).
Proof.
  intros Hq Hs Hw.
  destruct (consume_ends_well _ Hw) as [ops' Hc].
  destruct (consume_after_start _ _ Hc) as (o & r & Ha & Hops).
  destruct (post_SRTF_turn clock programCounter p rest ops' o r s Hq Hc Ha)
    as (pc' & s' & Hrun & -> & Hq' & evs & Ht & Hg & Hsl).
  exists o, r, s', evs. split; [exact Ha|]. split; [exact Hrun|].
  split; [exact Ht|]. split.
  { inversion Hs; subst. assumption. }
  split.
  { rewrite <- selects_scheduling, Hg. reflexivity. }
  split; [exact Hsl|].
  cbv zeta. fold (identified programCounter p). rewrite <- Hops. split.
  - rewrite Hg. unfold turn_records, done. cbn [operations with_operations].
    destruct ops'; reflexivity.
  - rewrite Hq'. unfold turn_queue, done. cbn [operations with_operations].
    destruct ops'; reflexivity.
Qed.

(** * The log and the stored Programs *)

(** C9, as the code has it.  Each line of a run is stamped with the
    reading of the system clock at the call of [print] less the reading
    taken when the run started; the stamps of consecutive lines are
    non-decreasing whenever the system clock is not set back during the
    run. *)
Theorem stamps_follow_clock (clock : nat -> Z) (s s' : Simulator) :
  run clock s = Ok (tt, s') ->
  exists evs,
    trace s' = trace s ++ evs /\
    stamps evs =
      map (fun k => clock k - clock (clock_reads s))
        (seq (S (clock_reads s)) (List.length (stamps evs))) /\
    ((forall i j, (i <= j)%nat -> clock i <= clock j) ->
     Sorted Z.le (stamps evs)).
Proof.
  intros H. apply engine_run in H.
  destruct H as (_ & _ & _ & evs & Ht & Hst).
  cbn [trace start_ clock_reads with_start tick] in Ht, Hst.
  exists evs. split; [exact Ht|]. split.
  - rewrite Hst at 2. rewrite stamps_from_length. exact Hst.
  - intros Hmono. rewrite Hst. apply stamps_from_sorted, Hmono.
Qed.

(** C10.  [run] leaves [programs_] as it found it: the loops of both
    branches work on copies, so every stored Program keeps its state, its
    id and its operation queue. *)
Theorem run_keeps_programs (clock : nat -> Z) (s s' : Simulator) :
  run clock s = Ok (tt, s') ->
  programs_ s' = programs_ s /\
  (Forall (fun p => state p = START /\ id p = 0) (programs_ s) ->
   Forall (fun p => state p = START /\ id p = 0) (programs_ s')).
Proof.
  intros H. apply engine_run in H. destruct H as (Hp & _).
  cbn [programs_ with_start tick] in Hp. split; [exact Hp|].
  rewrite Hp. auto.
Qed.

(** C8.  The [running_time] of every Program that [load_meta_data] builds
    is the 32-bit sum of the durations of its operations other than the
    bracketing program-control operations; and [run] leaves the stored
    Programs alone and handles only copies that carry the [running_time]
    of the Program they were copied from. *)
Theorem running_time_is_sum (file : option string) (operation0 : Operation)
    (fuel : nat) (s s' : Simulator) :
  load_meta_data file operation0 fuel s = Ok (tt, s') ->
  programs_ s = [] ->
  SRTF_queue_ s = [] ->
  Forall (fun p =>
            running_time p =
            int_sum (map duration
                       (filter (fun o => negb (bracketing o)) (operations p))))
    (programs_ s') /\
  forall clock, exists s2 evs,
    run clock s' = Ok (tt, s2) /\
    trace s2 = trace s' ++ evs /\
    programs_ s2 = programs_ s' /\
    Forall (fun x => exists y, In y (programs_ s') /\ copy_of y x)
      (subjects evs).
Proof.
  intros Hload Hp Hq.
  apply load_meta_data_filled in Hload. destruct Hload as (loaded & -> & Hl).
  rewrite Hp. cbn [app programs_ with_programs]. split.
  { eapply Forall_impl; [|exact Hl]. intros p ((_ & _ & H) & _). exact H. }
  intros clock.
  set (s1 := with_programs loaded s).
  assert (Hw : Forall (fun p => ends_well (operations p)) (programs_ s1)).
  { eapply Forall_impl; [|exact Hl]. intros p (_ & H). exact H. }
  destruct (String.eqb (schedulingCode_ s1) "FIFO") eqn:Hc.
  - assert (Hw1 : Forall (fun p => operations p = [] \/ ends_well (operations p))
                    (programs_ s1)).
    { eapply Forall_impl; [|exact Hw]. intros p H. right. exact H. }
    destruct (post_run_FIFO clock s1 Hc Hw1) as ([] & s2 & Hrun & evs & Ht & Hg).
    exists s2, evs. split; [exact Hrun|]. split; [exact Ht|].
    split; [apply (run_keeps_programs clock s1 s2 Hrun)|].
    rewrite <- subjects_scheduling, Hg. unfold FIFO_records.
    rewrite subjects_app, subjects_states. apply Forall_app. split.
    + apply Forall_forall. intros x Hx. exists x. split; [exact Hx|].
      apply copy_of_refl.
    + apply subjects_FIFO_schedule.
  - destruct (post_run_SRTF clock s1 Hc Hq Hw) as ([] & s2 & Hrun & evs & Ht & Hg).
    exists s2, evs. split; [exact Hrun|]. split; [exact Ht|].
    split; [apply (run_keeps_programs clock s1 s2 Hrun)|].
    rewrite <- subjects_scheduling, Hg. unfold SRTF_records.
    rewrite subjects_app, subjects_states. apply Forall_app. split.
    + apply Forall_forall. intros x Hx. exists x. split; [exact Hx|].
      apply copy_of_refl.
    + eapply Forall_impl; [|apply subjects_SRTF_schedule]. cbv beta.
      intros x (y & Hy & Hxy). apply enqueue_all_In in Hy.
      destruct Hy as [[]|(y0 & Hy0 & ->)].
      exists y0. split; [exact Hy0|].
      eapply copy_of_trans; [|exact Hxy].
      split; [reflexivity | exists []; reflexivity].
Qed.

(** * Sample runs *)

(** C1.  What the code does with an input operation on a device it does
    not know: [set_operation_cycle_time] returns without an error and
    leaves the cycle time as it was; [load_meta_data] accepts the file,
    the operation keeping the cycle time of the operation before it; and
    the run prints nothing for it. *)
Theorem unrecognized_device_accepted :
  (forall s,
     set_operation_cycle_time (mkOperation "I" "scanner" 5 7 35) s =
     Ok (mkOperation "I" "scanner" 5 7 35, s)) /\
  load_meta_data (Some scanner_text) sample_operation 64
    (sample_config "FIFO") =
  Ok (tt,
      with_programs
        [ {| operations :=
               [ mkOperation "A" "start" 0 0 0;
                 mkOperation "P" "run" 3 10 30;
                 mkOperation "I" "scanner" 5 10 50;
                 mkOperation "A" "end" 0 0 0 ];
             state := START; running_time := 80; id := 0 |} ]
        (sample_config "FIFO")) /\
  forall clock,
    messages (run_trace clock (constructed "FIFO" scanner_text)) =
    [ "Simulator program starting"; "OS: preparing all processes";
      "OS: selecting next process"; "OS: starting process 1";
      "Process 1: start processing action";
      "Process 1: end processing action";
      "OS: removing process 1"; "Simulator program ending" ]%string.
Proof.
  split; [intros s; reflexivity|]. split; [vm_compute; reflexivity|].
  intros clock. vm_compute. reflexivity.
Qed.

(** C2.  What the code does with a Program made of the two bracketing
    operations only: under either discipline the start of the process is
    announced and its removal is not, because the end operation has been
    taken off the queue when the test for one remaining operation is
    made; under FIFO the dispatched copy is never READY. *)
Theorem minimal_program_trace (clock : nat -> Z) :
  programs_ (constructed "FIFO" minimal_text) =
    [ {| operations :=
           [ mkOperation "A" "start" 0 0 0; mkOperation "A" "end" 0 0 0 ];
         state := START; running_time := 0; id := 0 |} ] /\
  messages (run_trace clock (constructed "FIFO" minimal_text)) =
    [ "Simulator program starting"; "OS: preparing all processes";
      "OS: selecting next process"; "OS: starting process 1";
      "Simulator program ending" ]%string /\
  transitions (run_trace clock (constructed "FIFO" minimal_text)) =
    [ (START, READY); (START, RUNNING); (RUNNING, EXIT) ] /\
  messages (run_trace clock (constructed "SRTF-N" minimal_text)) =
    [ "Simulator program starting"; "OS: preparing all processes";
      "OS: selecting next process"; "OS: starting process 1";
      "Simulator program ending" ]%string /\
  transitions (run_trace clock (constructed "SRTF-N" minimal_text)) =
    [ (START, READY); (READY, RUNNING); (RUNNING, EXIT) ].
Proof. repeat split; vm_compute; reflexivity. Qed.

(** C4, the claim as it stands fails: under SRTF-N a Program with two
    timed operations is put back in the priority structure after the
    first, and its state goes from RUNNING back to READY. *)
Lemma requeue_steps_back :
  ~ Forall (fun t => follows (fst t) (snd t) = true)
      (transitions
         (run_trace (fun n => Z.of_nat n) (constructed "SRTF-N" sample_text))).
Proof.
  intros H. rewrite Forall_forall in H.
  specialize (H (RUNNING, READY)).
  assert (Hin : In (RUNNING, READY)
                  (transitions
                     (run_trace (fun n => Z.of_nat n)
                        (constructed "SRTF-N" sample_text)))).
  { vm_compute. tauto. }
  specialize (H Hin). clear Hin. cbn in H. discriminate H.
Qed.

(** C9, the claim as it stands fails: the stamps come from
    [std::chrono::system_clock], and when it is set back between two
    lines the later line carries the smaller stamp. *)
Lemma stamps_decrease_when_clock_set_back :
  ~ Sorted Z.le
      (stamps (run_trace clock_set_back (constructed "FIFO" sample_text))).
Proof.
  intros H. vm_compute in H.
  inversion H as [|? ? _ Hd]; subst. inversion Hd as [|? ? Hle]; subst.
  apply Hle. reflexivity.
Qed.

(** * The meta-data file *)



(** * More of the code *)

(** X1.  [Program::operator<] is a strict weak ordering, as a comparator
    of a priority queue has to be: no Program is less than itself, the
    order is asymmetric and transitive, and being neither less nor greater
    is having the same [running_time], hence transitive too. *)
Theorem Program_lt_strict_weak_order :
  (forall p, Program_lt p p = false) /\
  (forall p q, Program_lt p q = true -> Program_lt q p = false) /\
  (forall p q r,
     Program_lt p q = true -> Program_lt q r = true -> Program_lt p r = true) /\
  (forall p q, Program_equiv p q <-> running_time p = running_time q) /\
  (forall p q r, Program_equiv p q -> Program_equiv q r -> Program_equiv p r).
Proof.
  assert (Heq : forall p q,
             Program_equiv p q <-> running_time p = running_time q).
  { intros p q. unfold Program_equiv, Program_lt.
    rewrite !Z.ltb_ge. lia. }
  split; [|split; [|split; [|split]]].
  - intros p. apply Z.ltb_irrefl.
  - intros p q H. apply Z.ltb_lt in H. apply Z.ltb_ge. lia.
  - intros p q r H1 H2. apply Z.ltb_lt in H1, H2. apply Z.ltb_lt. lia.
  - exact Heq.
  - intros p q r H1 H2. apply Heq in H1, H2. apply Heq. congruence.
Qed.

(** X2.  [set_operation_cycle_time] throws exactly for an operation whose
    type is none of P, I, O, A, S, and throws nothing else; when it
    returns it has changed nothing of the simulator and at most the cycle
    time of the operation: the processor's for P, the device's for I and O
    on hard drive, keyboard, monitor or printer, zero for A and S, and the
    one the operation came with for I and O on any other device. *)
Theorem set_operation_cycle_time_table (o : Operation) (s : Simulator) :
  (recognized_type (type o) = false ->
   set_operation_cycle_time o s = Throw UnrecognizedOperationType) /\
  (recognized_type (type o) = true ->
   exists t,
     set_operation_cycle_time o s = Ok (with_cycleTime t o, s) /\
     (type o = "P"%char -> t = processorCycleTime_ s) /\
     (type o = "A"%char \/ type o = "S"%char -> t = 0) /\
     (type o = "I"%char \/ type o = "O"%char ->
      (description o = "hard drive"%string -> t = hardDriveCycleTime_ s) /\
      (description o = "keyboard"%string -> t = keyboardCycleTime_ s) /\
      (description o = "monitor"%string -> t = monitorDisplayTime_ s) /\
      (description o = "printer"%string -> t = printerCycleTime_ s) /\
      (description o <> "hard drive"%string ->
       description o <> "keyboard"%string ->
       description o <> "monitor"%string ->
       description o <> "printer"%string -> t = cycleTime o))).
Proof.
  rewrite set_operation_cycle_time_eq. split; intros H; rewrite H;
    [reflexivity|].
  exists (resolved_cycle_time s o). split; [reflexivity|].
  unfold resolved_cycle_time.
  split; [|split; [|intros Ht; split; [|split; [|split; [|split]]]]].
  - intros ->. reflexivity.
  - intros [-> | ->]; reflexivity.
  - intros ->. destruct Ht as [-> | ->]; reflexivity.
  - intros ->. destruct Ht as [-> | ->]; reflexivity.
  - intros ->. destruct Ht as [-> | ->]; reflexivity.
  - intros ->. destruct Ht as [-> | ->]; reflexivity.
  - intros H1 H2 H3 H4.
    apply String.eqb_neq in H1, H2, H3, H4. rewrite H1, H2, H3, H4.
    destruct Ht as [-> | ->]; reflexivity.
Qed.

(** X3.  How the loader reads a token: the type is its first character,
    the description what stands between its third character and the first
    closing parenthesis, and the cycles what [std::stoi] reads after that
    parenthesis; the second character is not looked at.  The operation is
    refused, after the three fields are read, when the type is none of P,
    I, O, A, S. *)
Theorem parse_operation_layout (c x : ascii) (d k : string) (n : Z)
    (operation0 : Operation) (s : Simulator) :
  c <> ")"%char -> x <> ")"%char -> find ")" d = None ->
  (forall s0, stoi k s0 = Ok (n, s0)) ->
  let token := String c (String x (d ++ String ")" k)) in
  (recognized_type c = true ->
   exists o,
     parse_operation token operation0 s = Ok (o, s) /\
     type o = c /\ description o = d /\ cycles o = n) /\
  (recognized_type c = false ->
   parse_operation token operation0 s = Throw UnrecognizedOperationType).
Proof.
  intros Hc Hx Hd Hk token.
  assert (Hfind : find_int ")" token = Z.of_nat (S (S (String.length d)))).
  { unfold find_int, token. cbn [find].
    apply Ascii.eqb_neq in Hc, Hx. rewrite Hc, Hx.
    rewrite (find_append_none _ _ _ Hd). reflexivity. }
  assert (Hfront : forall s0, front token s0 = Ok (c, s0)) by reflexivity.
  assert (Hsub : forall s0,
             substr token 2 (find_int ")" token - 2) s0 = Ok (d, s0)).
  { intros s0. unfold substr. rewrite Hfind.
    replace (Nat.ltb (String.length token) 2) with false
      by (symmetry; apply Nat.ltb_ge; cbn; lia).
    replace (Z.of_nat (S (S (String.length d))) - 2 <? 0) with false
      by (symmetry; apply Z.ltb_ge; lia).
    replace (Z.to_nat (Z.of_nat (S (S (String.length d))) - 2))
      with (String.length d) by lia.
    unfold token. cbn [substring]. rewrite substring_prefix. reflexivity. }
  assert (Hfrom : from_position token (find_int ")" token + 1) = k).
  { unfold from_position. rewrite Hfind.
    replace (Z.to_nat (Z.of_nat (S (S (String.length d))) + 1))
      with (S (S (S (String.length d)))) by lia.
    unfold token. cbn [substring].
    change (String ")" k) with (String ")" EmptyString ++ k)%string.
    rewrite <- append_assoc.
    replace (S (String.length d))
      with (String.length (d ++ String ")" EmptyString)%string)
      by (rewrite length_append; cbn; lia).
    rewrite substring_skip. apply substring_all.
    cbn [String.length]. rewrite !length_append. cbn. lia. }
  assert (Hrun : parse_operation token operation0 s =
                 bind (set_operation_cycle_time
                         (with_cycles n
                            (with_description d (with_type c operation0))))
                   (fun o => ret (derive_duration o)) s).
  { unfold parse_operation.
    rewrite (bind_of_Ok _ _ _ _ _ (Hfront s)).
    rewrite (bind_of_Ok _ _ _ _ _ (Hsub s)).
    rewrite Hfrom. rewrite (bind_of_Ok _ _ _ _ _ (Hk s)). reflexivity. }
  rewrite Hrun. unfold bind. rewrite set_operation_cycle_time_eq.
  cbn [type with_cycles with_description with_type].
  split; intros Hr; rewrite Hr; [|reflexivity].
  eexists. split; [reflexivity|]. repeat split.
Qed.

(** X4.  [load_meta_data] only adds to [programs_]: when it returns, the
    Programs stored before are still there, in front, and no other member
    of the simulator has changed; every Program it has added is in state
    START with id 0, ends with the operation read from [A(end)0], and
    holds only operations of type P, I, O, A or S with cycles in the range
    of [int]. *)
Theorem load_meta_data_appends (file : option string)
    (operation0 : Operation) (fuel : nat) (s s' : Simulator) :
  load_meta_data file operation0 fuel s = Ok (tt, s') ->
  exists loaded,
    s' = with_programs (programs_ s ++ loaded) s /\
    Forall loaded_shape loaded.
Proof.
  unfold load_meta_data. destruct file as [text|]; [|discriminate].
  cbv zeta. cbn [input fin operation].
  destruct (negb _); [discriminate|].
  intros H. inv_bind H.
  apply read_programs_shape in Hm. destruct Hm as (loaded & -> & Hl).
  exists loaded. split; [|exact Hl].
  destruct (negb _); [discriminate|].
  destruct (negb _); [discriminate|].
  inversion H; subst. reflexivity.
Qed.

(** X5.  Once the stream has met the end of the file, the [while] loop of
    [load_meta_data] cannot come to its end: [getline] leaves the last
    token in [input], the token is parsed again, and the loop neither
    returns nor throws; every bound on its iterations cuts it.  So does a
    file that stops after the preamble, blanks apart. *)
Theorem load_meta_data_spins_at_end_of_file :
  (forall fuel l s,
     good (fin l) = false -> parses (input l) ->
     read_programs fuel l s = Timeout) /\
  (forall w operation0 fuel s,
     blank w = true ->
     load_meta_data (Some (preamble ++ String ";" w)%string) operation0 fuel s
     = Timeout) /\
  (forall operation0 fuel s,
     load_meta_data (Some preamble) operation0 fuel s = Timeout).
Proof.
  assert (Hpre : parses preamble).
  { intros op s. eexists. lazy. reflexivity. }
  split; [exact read_programs_end_of_file|]. split.
  - intros w op0 fuel s Hw. unfold load_meta_data. cbv zeta.
    assert (Hg : getline (mkIstream (preamble ++ String ";" w) true)
                   EmptyString ";" = (preamble, mkIstream w true))
      by reflexivity.
    rewrite Hg. cbn [fst snd input fin operation].
    rewrite String.eqb_refl. cbn [negb].
    assert (Hws : ws (mkIstream w true) = mkIstream EmptyString false).
    { unfold ws. cbn [good rdbuf]. rewrite (blank_skipws _ Hw). reflexivity. }
    rewrite Hws. unfold bind.
    rewrite read_programs_end_of_file; [reflexivity | reflexivity | exact Hpre].
  - intros op0 fuel s. unfold load_meta_data. cbv zeta.
    assert (Hg : getline (mkIstream preamble true) EmptyString ";" =
                 (preamble, mkIstream EmptyString false)) by reflexivity.
    rewrite Hg. cbn [fst snd input fin operation].
    rewrite String.eqb_refl. cbn [negb].
    assert (Hws : ws (mkIstream EmptyString false) =
                  mkIstream EmptyString false) by reflexivity.
    rewrite Hws. unfold bind.
    rewrite read_programs_end_of_file; [reflexivity | reflexivity | exact Hpre].
Qed.

(** X6.  One call of [process_operation] takes between one and three
    operations off the front of the Program's queue and leaves the rest
    in their order; it changes neither the Program's state, id and
    [running_time], nor the stored Programs, nor the priority
    structure. *)
Theorem process_operation_consumes (clock : nat -> Z) (p p' : Program)
    (s s' : Simulator) :
  process_operation clock p s = Ok (p', s') ->
  state p' = state p /\ id p' = id p /\
  running_time p' = running_time p /\
  (exists consumed,
     operations p = consumed ++ operations p' /\
     (1 <= List.length consumed <= 3)%nat) /\
  programs_ s' = programs_ s /\ SRTF_queue_ s' = SRTF_queue_ s.
Proof.
  intros H. apply process_operation_inv in H.
  destruct H as (ops' & Hc & -> & Hp & Hq & _).
  cbn [state id running_time operations with_operations].
  repeat split; try assumption. apply consume_count, Hc.
Qed.

(** [process_operation] reads past the end of the operation queue,
    which is undefined, exactly when the queue is empty or holds a start
    announcement and nothing else; on any other queue it returns. *)
Theorem process_operation_defined (clock : nat -> Z) (p : Program)
    (s : Simulator) :
  (operations p = [] \/
   (exists o, operations p = [o] /\ is_start o = true) ->
   process_operation clock p s = Undefined) /\
  (~ (operations p = [] \/
      exists o, operations p = [o] /\ is_start o = true) ->
   exists p' s', process_operation clock p s = Ok (p', s')).
Proof.
  split; intros H.
  - apply process_operation_wrong. apply consume_none. exact H.
  - destruct (consume (operations p)) as [ops'|] eqn:Hc.
    + destruct (process_operation_returns clock p ops' Hc s) as [s' Hs].
      eauto.
    + exfalso. apply H. apply consume_none. exact Hc.
Qed.

(** X7.  Under either discipline every Program of [programs_] is set
    EXIT exactly once: the Programs set EXIT are, each once, the stored
    Programs numbered from 1 to their number, RUNNING and with an empty
    operation queue; under FIFO they come in the order of [programs_].
    The priority structure is empty when [run] returns. *)
Theorem every_program_exits (clock : nat -> Z) (s : Simulator) :
  SRTF_queue_ s = [] ->
  Forall as_loaded (programs_ s) ->
  Z.of_nat (List.length (programs_ s)) < 2 ^ 31 ->
  exists s' evs order,
    run clock s = Ok (tt, s') /\
    trace s' = trace s ++ evs /\
    Permutation order (programs_ s) /\
    Permutation (exits evs) (numbered_from 1 order) /\
    (String.eqb (schedulingCode_ s) "FIFO" = true ->
     order = programs_ s /\ exits evs = numbered_from 1 order) /\
    List.length (exits evs) = List.length (programs_ s) /\
    Forall (fun p => operations p = [] /\ state p = RUNNING) (exits evs) /\
    SRTF_queue_ s' = [].
Proof.
  intros Hq Ha Hn.
  assert (Hw : Forall (fun p => ends_well (operations p)) (programs_ s)).
  { eapply Forall_impl; [|exact Ha]. intros p (_ & _ & H). exact H. }
  assert (Hw1 : Forall (fun p => operations p = [] \/ ends_well (operations p))
                  (programs_ s)).
  { eapply Forall_impl; [|exact Hw]. intros p H. right. exact H. }
  destruct (String.eqb (schedulingCode_ s) "FIFO") eqn:Hc.
  - destruct (post_run_FIFO clock s Hc Hw1)
      as ([] & s' & Hrun & evs & Ht & Hg).
    exists s', evs, (programs_ s).
    split; [exact Hrun|]. split; [exact Ht|].
    assert (He : exits evs = numbered_from 1 (programs_ s)).
    { rewrite <- exits_scheduling, Hg. unfold FIFO_records.
      rewrite exits_app, exits_states. cbn [app].
      apply (exits_FIFO_schedule_numbered (programs_ s) 0); lia. }
    split; [reflexivity|]. split; [rewrite He; reflexivity|].
    split; [intros _; split; [reflexivity | exact He]|].
    rewrite <- exits_scheduling, Hg. unfold FIFO_records.
    rewrite exits_app, exits_states. cbn [app].
    destruct (exits_FIFO_schedule (programs_ s) 0) as [Hlen Hall].
    split; [exact Hlen|]. split; [exact Hall|].
    destruct (run_inv clock s s' Hrun) as (s1 & s2 & H1 & H2 & H3).
    rewrite Hc in H2. rewrite print_eq in H1, H3.
    inversion H1; subst; clear H1. inversion H3; subst; clear H3.
    apply FIFO_branch_queue in H2; [|exact Hw1].
    cbn [SRTF_queue_ record tick with_start] in H2 |- *. congruence.
  - destruct (post_run_SRTF clock s Hc Hq Hw)
      as ([] & s' & Hrun & evs & Ht & Hg).
    destruct (as_loaded_queue _ Ha) as (Hwq & Hfresh & _).
    destruct (Permutation_map_inv _ _
                (enqueue_all_perm (programs_ s) []))
      as (order & Eo & Hperm).
    cbn [app] in Eo.
    exists s', evs, order.
    split; [exact Hrun|]. split; [exact Ht|].
    split; [symmetry; exact Hperm|].
    assert (He : exits evs =
                 exits (SRTF_schedule
                          (total_operations (enqueue_all (programs_ s) [])) 0
                          (enqueue_all (programs_ s) []))).
    { rewrite <- exits_scheduling, Hg. unfold SRTF_records.
      rewrite exits_app, exits_states. reflexivity. }
    split.
    { rewrite He, exits_SRTF_schedule_numbered.
      - rewrite (filter_all fresh) by exact Hfresh.
        rewrite (filter_none (fun p => negb (fresh p))).
        + cbn [map app]. rewrite Eo, numbered_from_readied. reflexivity.
        + eapply Forall_impl; [|exact Hfresh]. cbn. intros p ->. reflexivity.
      - exact Hwq.
      - apply Nat.le_refl.
      - lia.
      - rewrite (filter_all fresh) by exact Hfresh.
        rewrite enqueue_all_length. cbn [List.length]. lia. }
    split; [intros; discriminate|].
    rewrite He.
    destruct (exits_SRTF_schedule
                (total_operations (enqueue_all (programs_ s) [])) 0
                (enqueue_all (programs_ s) []) Hwq (Nat.le_refl _))
      as [Hlen Hall].
    rewrite enqueue_all_length in Hlen. cbn [List.length] in Hlen.
    rewrite Nat.add_0_r in Hlen.
    split; [exact Hlen|]. split; [exact Hall|].
    destruct (run_inv clock s s' Hrun) as (s1 & s2 & H1 & H2 & H3).
    rewrite Hc in H2. rewrite print_eq in H1, H3.
    inversion H1; subst; clear H1. inversion H3; subst; clear H3.
    apply SRTF_branch_queue in H2; [exact H2 | exact Hq | exact Hw].
Qed.

(** X8.  Under FIFO the Programs are numbered as they are stored: the
    Program set RUNNING at the i-th dispatch is the i-th Program of
    [programs_] with id i, counting from 1. *)
Theorem FIFO_numbers_in_order (clock : nat -> Z) (s : Simulator) :
  String.eqb (schedulingCode_ s) "FIFO" = true ->
  Forall (fun p => operations p = [] \/ ends_well (operations p))
    (programs_ s) ->
  Z.of_nat (List.length (programs_ s)) < 2 ^ 31 ->
  exists s' evs,
    run clock s = Ok (tt, s') /\
    trace s' = trace s ++ evs /\
    running evs =
      map (fun ip => with_id (Z.of_nat (fst ip)) (snd ip))
        (combine (seq 1 (List.length (programs_ s))) (programs_ s)).
Proof.
  intros Hc Hw Hn.
  destruct (post_run_FIFO clock s Hc Hw) as ([] & s' & Hrun & evs & Ht & Hg).
  exists s', evs. split; [exact Hrun|]. split; [exact Ht|].
  rewrite <- running_scheduling, Hg. unfold FIFO_records.
  rewrite running_app, running_states. cbn [app].
  rewrite running_FIFO_schedule by lia. reflexivity.
Qed.

(** X9.  Under FIFO, with Programs that end as the loader makes them
    end, the simulator blocks once for every processing operation and
    every input or output operation on a known device, for the
    operation's duration, Program after Program in the order of
    [programs_] and, within a Program, in the order of its queue. *)
Theorem FIFO_blocks_in_order (clock : nat -> Z) (s : Simulator) :
  String.eqb (schedulingCode_ s) "FIFO" = true ->
  Forall (fun p => operations p = [] \/ ends_quietly (operations p))
    (programs_ s) ->
  exists s' evs,
    run clock s = Ok (tt, s') /\
    trace s' = trace s ++ evs /\
    sleeps evs =
      flat_map (fun p => timed_durations (operations p)) (programs_ s).
Proof.
  intros Hc Hq.
  assert (Hw : Forall (fun p => operations p = [] \/ ends_well (operations p))
                 (programs_ s)).
  { eapply Forall_impl; [|exact Hq]. intros p [H|H]; [left; exact H|].
    right. apply ends_quietly_well, H. }
  destruct (post_run_FIFO clock s Hc Hw) as ([] & s' & Hrun & evs & Ht & _).
  exists s', evs. split; [exact Hrun|]. split; [exact Ht|].
  destruct (run_inv clock s s' Hrun) as (s1 & s2 & H1 & H2 & H3).
  rewrite Hc in H2. rewrite print_eq in H1, H3.
  inversion H1; subst; clear H1. inversion H3; subst; clear H3.
  apply bind_Ok in H2. destruct H2 as ([] & sa & Ha & H2).
  pose proof (post_Ok _ _ _ _ _ (post_prepare (programs_ s) _) Ha)
    as (_ & Hta).
  destruct (sleeps_FIFO_loop clock (programs_ s) 0 Hq _ _ _ H2)
    as (ev2 & Ht2 & Hs2).
  cbn [trace record tick with_start] in Ht, Hta.
  rewrite Ht2, Hta, <- !app_assoc in Ht. apply app_inv_head in Ht.
  subst evs.
  rewrite !sleeps_app, sleeps_states, Hs2. cbn. apply app_nil_r.
Qed.

(** X10.  Under SRTF-N, with Programs that end as the loader makes them
    end, the durations the simulator blocks for are, in some order, the
    durations of all the timed operations of all the Programs: none is
    left out and none is run twice. *)
Theorem SRTF_blocks_once_each (clock : nat -> Z) (s : Simulator) :
  String.eqb (schedulingCode_ s) "FIFO" = false ->
  SRTF_queue_ s = [] ->
  Forall (fun p => ends_quietly (operations p)) (programs_ s) ->
  exists s' evs,
    run clock s = Ok (tt, s') /\
    trace s' = trace s ++ evs /\
    Permutation (sleeps evs)
      (flat_map (fun p => timed_durations (operations p)) (programs_ s)).
Proof.
  intros Hc Hq0 Hq.
  assert (Hw : Forall (fun p => ends_well (operations p)) (programs_ s)).
  { eapply Forall_impl; [|exact Hq]. intros p H.
    apply ends_quietly_well, H. }
  destruct (post_run_SRTF clock s Hc Hq0 Hw)
    as ([] & s' & Hrun & evs & Ht & _).
  exists s', evs. split; [exact Hrun|]. split; [exact Ht|].
  destruct (run_inv clock s s' Hrun) as (s1 & s2 & H1 & H2 & H3).
  rewrite Hc in H2. rewrite print_eq in H1, H3.
  inversion H1; subst; clear H1. inversion H3; subst; clear H3.
  apply bind_Ok in H2. destruct H2 as ([] & sa & Ha & H2).
  pose proof (post_Ok _ _ _ _ _ (post_enqueue_all (programs_ s) _) Ha)
    as (Hqa & Hta).
  apply bind_Ok in H2. destruct H2 as (q & sb & Hb & H2).
  inversion Hb; subst; clear Hb.
  cbn [SRTF_queue_ trace record tick with_start] in Ht, Hta, Hqa.
  rewrite Hq0 in Hqa.
  assert (Hqq : Forall (fun p => ends_quietly (operations p))
                  (SRTF_queue_ sb)).
  { rewrite Hqa. apply enqueue_all_Forall; [exact Hq | constructor]. }
  destruct (sleeps_SRTF_loop clock _ _ _ _ Hqq H2) as (ev2 & Ht2 & Hp2).
  rewrite Ht2, Hta, <- !app_assoc in Ht. apply app_inv_head in Ht.
  subst evs.
  rewrite !sleeps_app, sleeps_states. cbn [sleeps flat_map app].
  rewrite app_nil_r, Hp2, Hqa.
  rewrite enqueue_all_durations. reflexivity.
Qed.

(** X11.  The [main] of Sim01 never gives a simulation a configuration
    file: with one on the command line, as its usage asks, [argc] is not 1
    and it writes the usage error and returns EXIT_FAILURE, whatever the
    Simulator would do; only with no argument does it build a Simulator,
    from the null pointer [argv[1]]. *)
Theorem main_refuses_configuration_file (simulate : option string -> result unit) :
  (forall name path rest,
     main simulate (Z.of_nat (List.length (name :: path :: rest)))
       (name :: path :: rest) =
     Ok (EXIT_FAILURE,
         [ "Error: Incorrect number of command line arguments"%string;
           ("Example usage: " ++ name ++ " config_file.cnf")%string ])) /\
  (forall name,
     main simulate (Z.of_nat (List.length [name])) [name] =
     match simulate None with
     | Ok _ => Ok (EXIT_SUCCESS, [])
     | Throw e => Throw e
     | Undefined => Undefined
     | Timeout => Timeout
     end) /\
  (forall simulate' argv,
     simulate' None = simulate None ->
     main simulate' (Z.of_nat (List.length argv)) argv =
     main simulate (Z.of_nat (List.length argv)) argv).
Proof.
  split; [|split].
  - intros name path rest. unfold main.
    replace (Z.of_nat (List.length (name :: path :: rest)) =? 1) with false
      by (symmetry; apply Z.eqb_neq; cbn [List.length]; lia).
    reflexivity.
  - intros name. reflexivity.
  - intros simulate' argv H. unfold main.
    destruct argv as [|name [|path rest]].
    + reflexivity.
    + cbn. rewrite H. reflexivity.
    + replace (Z.of_nat (List.length (name :: path :: rest)) =? 1) with false
        by (symmetry; apply Z.eqb_neq; cbn [List.length]; lia).
      reflexivity.
Qed.

(** X12.  Every run that returns frames its lines: the first is the
    start announcement, the second the preparation of the processes, and
    the last the end announcement. *)
Theorem run_frames_its_log (clock : nat -> Z) (s s' : Simulator) :
  run clock s = Ok (tt, s') ->
  exists evs middle,
    trace s' = trace s ++ evs /\
    messages evs =
      [ "Simulator program starting"%string;
        "OS: preparing all processes"%string ] ++
      middle ++ [ "Simulator program ending"%string ].
Proof.
  intros Hrun.
  destruct (run_inv clock s s' Hrun) as (s1 & s2 & H1 & H2 & H3).
  rewrite print_eq in H1, H3.
  inversion H1; subst; clear H1. inversion H3; subst; clear H3.
  assert (He : exists evs, trace s2 =
                 trace (record
                   (EvPrint (clock (S (S (clock_reads s))) -
                             clock (clock_reads s))
                      "OS: preparing all processes")
                   (tick (record
                      (EvPrint (clock (S (clock_reads s)) -
                                clock (clock_reads s))
                         "Simulator program starting")
                      (tick (with_start (clock (clock_reads s)) (tick s))))))
                 ++ evs).
  { destruct (String.eqb (schedulingCode_ s) "FIFO"); revert H2;
      match goal with
      | |- ?m ?s0 = _ -> _ =>
          assert (Hr : steps (engine_step clock) m)
      end.
    - apply engine_bind; [|intros _; apply engine_FIFO_loop].
      apply engine_for_each. intros p.
      apply engine_bind; [apply engine_assign_state|].
      intros _. apply engine_ret.
    - intros H2. apply Hr in H2. destruct H2 as (_ & _ & _ & evs & Ht & _).
      exists evs. exact Ht.
    - apply engine_bind.
      + apply engine_for_each. intros p.
        apply engine_bind; [apply engine_assign_state|].
        intros p'. apply engine_with_queue.
      + intros _. apply engine_bind;
          [apply steps_gets, engine_step_refl|].
        intros q. apply engine_SRTF_loop.
    - intros H2. apply Hr in H2. destruct H2 as (_ & _ & _ & evs & Ht & _).
      exists evs. exact Ht. }
  destruct He as (mid & Hmid).
  cbn [trace record tick with_start] in Hmid |- *.
  eexists _, (messages mid). split.
  - rewrite Hmid, <- !app_assoc. reflexivity.
  - rewrite !messages_app. reflexivity.
Qed.

(** X13.  Under SRTF-N the Programs are numbered in the order of their
    first dispatch: the Programs selected with id 0 are set RUNNING with
    the ids 1, 2, ... up to the number of Programs, and a Program selected
    with an id of its own is set RUNNING as it is. *)
Theorem SRTF_numbers_first_dispatches (clock : nat -> Z) (s : Simulator) :
  String.eqb (schedulingCode_ s) "FIFO" = false ->
  SRTF_queue_ s = [] ->
  Forall as_loaded (programs_ s) ->
  Z.of_nat (List.length (programs_ s)) < 2 ^ 31 ->
  exists s' evs,
    run clock s = Ok (tt, s') /\
    trace s' = trace s ++ evs /\
    map (fun x => id (snd x))
      (filter (fun x => fresh (fst x)) (dispatches evs)) =
      map Z.of_nat (seq 1 (List.length (programs_ s))) /\
    Forall (fun x => (fresh (fst x) = false -> snd x = fst x) /\
                     (fresh (fst x) = true ->
                      snd x = with_id (id (snd x)) (fst x)))
      (dispatches evs).
Proof.
  intros Hc Hq Ha Hn.
  destruct (as_loaded_queue _ Ha) as (Hw & Hfresh & _).
  assert (Hw0 : Forall (fun p => ends_well (operations p)) (programs_ s)).
  { eapply Forall_impl; [|exact Ha]. intros p (_ & _ & H). exact H. }
  destruct (post_run_SRTF clock s Hc Hq Hw0)
    as ([] & s' & Hrun & evs & Ht & Hg).
  exists s', evs. split; [exact Hrun|]. split; [exact Ht|].
  unfold dispatches.
  rewrite <- selects_scheduling, <- running_scheduling, Hg.
  unfold SRTF_records.
  rewrite selects_app, running_app, selects_states, running_states.
  cbn [app].
  assert (Hlen : List.length (filter fresh (enqueue_all (programs_ s) [])) =
                 List.length (programs_ s)).
  { rewrite (filter_all fresh) by exact Hfresh.
    rewrite enqueue_all_length. cbn [List.length]. lia. }
  destruct (combine_map_filter_fresh_turn
              (total_operations (enqueue_all (programs_ s) [])) 0
              (enqueue_all (programs_ s) []) Hw (Nat.le_refl _)
              ltac:(lia) ltac:(rewrite Hlen; lia)) as [Hids Hall].
  rewrite Hlen in Hids. split; [exact Hids | exact Hall].
Qed.

(** X14.  Every scheduling code but FIFO takes the same branch of [run]:
    a simulator configured with SJF does what one configured with SRTF-N
    does, event for event and stamp for stamp, to the same outcome. *)
Theorem SJF_runs_as_SRTF (clock : nat -> Z) (s : Simulator) :
  run clock (with_code "SJF"%string s) =
    recoded "SJF"%string (run clock (with_code "SRTF-N"%string s)) /\
  run_trace clock (with_code "SJF"%string s) =
    run_trace clock (with_code "SRTF-N"%string s).
Proof.
  assert (H : run clock (with_code "SJF"%string s) =
              recoded "SJF"%string (run clock (with_code "SRTF-N"%string s))).
  { rewrite !run_unfold.
    cbn [schedulingCode_ with_code String.eqb Ascii.eqb Bool.eqb].
    exact (blind_SRTF_branch clock "SJF"%string
             (record
                (EvPrint (clock (S (clock_reads s)) - clock (clock_reads s))
                   "Simulator program starting")
                (tick (with_start (clock (clock_reads s))
                         (tick (with_code "SRTF-N"%string s)))))). }
  split; [exact H|]. unfold run_trace. rewrite H.
  destruct (run clock (with_code "SRTF-N"%string s)) as [[[] s']| | |]; reflexivity.
Qed.
(** * The theorems at sample inputs *)

Lemma SRTF_dispatch_order_witness :
  String.eqb (schedulingCode_ (constructed "SRTF-N" tied_programs_text))
    "FIFO" = false /\
  SRTF_queue_ (constructed "SRTF-N" tied_programs_text) = [] /\
  Forall as_loaded (programs_ (constructed "SRTF-N" tied_programs_text)) /\
  Z.of_nat (List.length (programs_ (constructed "SRTF-N" tied_programs_text)))
    < 2 ^ 31 /\
  map running_time (programs_ (constructed "SRTF-N" tied_programs_text)) =
    [40; 40] /\
  exists s' evs,
    run Z.of_nat (constructed "SRTF-N" tied_programs_text) = Ok (tt, s') /\
    trace s' = trace (constructed "SRTF-N" tied_programs_text) ++ evs /\
    Sorted (fun a b => running_time a <= running_time b) (selects evs) /\
    (forall k,
       filter (fun p => running_time p =? k) (selects evs) =
       filter (fun p => running_time p =? k) (readied evs)) /\
    (forall k,
       filter (fun p => running_time p =? k) (filter fresh (selects evs)) =
       filter (fun p => running_time p =? k)
         (map (with_state READY)
            (programs_ (constructed "SRTF-N" tied_programs_text)))) /\
    (List.length (sleeps evs) <= List.length (selects evs))%nat /\
    List.length (exits evs) =
      List.length (programs_ (constructed "SRTF-N" tied_programs_text)) /\
    (forall clock2, exists s2 evs2,
       run clock2 (constructed "SRTF-N" tied_programs_text) = Ok (tt, s2) /\
       trace s2 = trace (constructed "SRTF-N" tied_programs_text) ++ evs2 /\
       selects evs2 = selects evs).
Proof.
  assert (H1 : String.eqb
                 (schedulingCode_ (constructed "SRTF-N" tied_programs_text))
                 "FIFO" = false) by (vm_compute; reflexivity).
  assert (H2 : SRTF_queue_ (constructed "SRTF-N" tied_programs_text) = [])
    by (vm_compute; reflexivity).
  assert (H3 : Forall as_loaded
                 (programs_ (constructed "SRTF-N" tied_programs_text)))
    by (apply Forall_as_loadedb; vm_compute; reflexivity).
  assert (H4 : Z.of_nat
                 (List.length
                    (programs_ (constructed "SRTF-N" tied_programs_text)))
               < 2 ^ 31) by (vm_compute; reflexivity).
  assert (H5 : map running_time
                 (programs_ (constructed "SRTF-N" tied_programs_text)) =
               [40; 40]) by (vm_compute; reflexivity).
  split; [exact H1|]. split; [exact H2|]. split; [exact H3|].
  split; [exact H4|]. split; [exact H5|].
  exact (SRTF_dispatch_order Z.of_nat
           (constructed "SRTF-N" tied_programs_text) H1 H2 H3 H4).
Defined.

Lemma FIFO_dispatch_order_witness :
  String.eqb (schedulingCode_ (constructed "FIFO" two_programs_text)) "FIFO"
    = true /\
  Forall (fun p => operations p = [] \/ ends_quietly (operations p))
    (programs_ (constructed "FIFO" two_programs_text)) /\
  exists s' evs,
    run Z.of_nat (constructed "FIFO" two_programs_text) = Ok (tt, s') /\
    trace s' = trace (constructed "FIFO" two_programs_text) ++ evs /\
    selects evs = programs_ (constructed "FIFO" two_programs_text) /\
    scheduling evs =
      map (fun p => EvState p READY)
        (programs_ (constructed "FIFO" two_programs_text)) ++
      FIFO_schedule (programs_ (constructed "FIFO" two_programs_text)) 0 /\
    exists t0 t1 t2 blocks,
      evs =
        [EvPrint t0 "Simulator program starting";
         EvPrint t1 "OS: preparing all processes"] ++
        map (fun p => EvState p READY)
          (programs_ (constructed "FIFO" two_programs_text)) ++
        List.concat blocks ++
        [EvPrint t2 "Simulator program ending"] /\
      FIFO_blocks (programs_ (constructed "FIFO" two_programs_text)) 0 blocks.
Proof.
  assert (H1 : String.eqb
                 (schedulingCode_ (constructed "FIFO" two_programs_text))
                 "FIFO" = true) by (vm_compute; reflexivity).
  assert (H2 : Forall
                 (fun p => operations p = [] \/ ends_quietly (operations p))
                 (programs_ (constructed "FIFO" two_programs_text))).
  { apply Forall_forall. intros p Hp. right. apply ends_quietlyb_correct.
    revert p Hp. apply forallb_forall. vm_compute. reflexivity. }
  split; [exact H1|]. split; [exact H2|].
  exact (FIFO_dispatch_order Z.of_nat
           (constructed "FIFO" two_programs_text) H1 H2).
Defined.

Lemma state_transitions_witness :
  SRTF_queue_ (constructed "SRTF-N" two_programs_text) = [] /\
  Forall as_loaded (programs_ (constructed "SRTF-N" two_programs_text)) /\
  exists s' evs,
    run Z.of_nat (constructed "SRTF-N" two_programs_text) = Ok (tt, s') /\
    trace s' = trace (constructed "SRTF-N" two_programs_text) ++ evs /\
    (String.eqb (schedulingCode_ (constructed "SRTF-N" two_programs_text))
       "FIFO" = false ->
     Forall (fun t => follows (fst t) (snd t) || requeues (fst t) (snd t) = true)
       (transitions evs)) /\
    (String.eqb (schedulingCode_ (constructed "SRTF-N" two_programs_text))
       "FIFO" = true ->
     Forall (fun t => (rank (fst t) < rank (snd t))%nat) (transitions evs)).
Proof.
  assert (H1 : SRTF_queue_ (constructed "SRTF-N" two_programs_text) = [])
    by (vm_compute; reflexivity).
  assert (H2 : Forall as_loaded
                 (programs_ (constructed "SRTF-N" two_programs_text)))
    by (apply Forall_as_loadedb; vm_compute; reflexivity).
  split; [exact H1|]. split; [exact H2|].
  exact (state_transitions Z.of_nat
           (constructed "SRTF-N" two_programs_text) H1 H2).
Defined.

Lemma stamps_follow_clock_witness :
  run Z.of_nat (constructed "FIFO" sample_text) =
    Ok (tt, run_state Z.of_nat (constructed "FIFO" sample_text)) /\
  exists evs,
    trace (run_state Z.of_nat (constructed "FIFO" sample_text)) =
      trace (constructed "FIFO" sample_text) ++ evs /\
    stamps evs =
      map (fun k => Z.of_nat k -
                    Z.of_nat (clock_reads (constructed "FIFO" sample_text)))
        (seq (S (clock_reads (constructed "FIFO" sample_text)))
             (List.length (stamps evs))) /\
    ((forall i j, (i <= j)%nat -> Z.of_nat i <= Z.of_nat j) ->
     Sorted Z.le (stamps evs)).
Proof.
  assert (H1 : run Z.of_nat (constructed "FIFO" sample_text) =
               Ok (tt, run_state Z.of_nat (constructed "FIFO" sample_text)))
    by (vm_compute; reflexivity).
  split; [exact H1|].
  exact (stamps_follow_clock Z.of_nat (constructed "FIFO" sample_text)
           (run_state Z.of_nat (constructed "FIFO" sample_text)) H1).
Defined.

Lemma run_keeps_programs_witness :
  run Z.of_nat (constructed "SRTF-N" sample_text) =
    Ok (tt, run_state Z.of_nat (constructed "SRTF-N" sample_text)) /\
  programs_ (run_state Z.of_nat (constructed "SRTF-N" sample_text)) =
    programs_ (constructed "SRTF-N" sample_text) /\
  (Forall (fun p => state p = START /\ id p = 0)
     (programs_ (constructed "SRTF-N" sample_text)) ->
   Forall (fun p => state p = START /\ id p = 0)
     (programs_ (run_state Z.of_nat (constructed "SRTF-N" sample_text)))).
Proof.
  assert (H1 : run Z.of_nat (constructed "SRTF-N" sample_text) =
               Ok (tt, run_state Z.of_nat (constructed "SRTF-N" sample_text)))
    by (vm_compute; reflexivity).
  split; [exact H1|].
  exact (run_keeps_programs Z.of_nat (constructed "SRTF-N" sample_text)
           (run_state Z.of_nat (constructed "SRTF-N" sample_text)) H1).
Defined.

Lemma running_time_is_sum_witness :
  load_meta_data (Some sample_text) sample_operation 64
    (sample_config "SRTF-N") =
    Ok (tt, constructed "SRTF-N" sample_text) /\
  programs_ (sample_config "SRTF-N") = [] /\
  SRTF_queue_ (sample_config "SRTF-N") = [] /\
  Forall (fun p =>
            running_time p =
            int_sum (map duration
                       (filter (fun o => negb (bracketing o)) (operations p))))
    (programs_ (constructed "SRTF-N" sample_text)) /\
  forall clock, exists s2 evs,
    run clock (constructed "SRTF-N" sample_text) = Ok (tt, s2) /\
    trace s2 = trace (constructed "SRTF-N" sample_text) ++ evs /\
    programs_ s2 = programs_ (constructed "SRTF-N" sample_text) /\
    Forall (fun x => exists y,
              In y (programs_ (constructed "SRTF-N" sample_text)) /\
              copy_of y x)
      (subjects evs).
Proof.
  assert (H1 : load_meta_data (Some sample_text) sample_operation 64
                 (sample_config "SRTF-N") =
               Ok (tt, constructed "SRTF-N" sample_text))
    by (vm_compute; reflexivity).
  assert (H2 : programs_ (sample_config "SRTF-N") = []) by (vm_compute; reflexivity).
  assert (H3 : SRTF_queue_ (sample_config "SRTF-N") = []) by (vm_compute; reflexivity).
  split; [exact H1|]. split; [exact H2|]. split; [exact H3|].
  exact (running_time_is_sum (Some sample_text) sample_operation 64
           (sample_config "SRTF-N") (constructed "SRTF-N" sample_text)
           H1 H2 H3).
Defined.




Lemma SRTF_turn_spec_witness :
  SRTF_queue_
    (with_queue sample_queue (constructed "SRTF-N" two_programs_text)) =
    hd Program_new sample_queue :: tl sample_queue /\
  pq_sorted (hd Program_new sample_queue :: tl sample_queue) /\
  ends_well (operations (hd Program_new sample_queue)) /\
  exists o r s' evs,
    after_start (operations (hd Program_new sample_queue)) = o :: r /\
    SRTF_turn Z.of_nat 0
      (with_queue sample_queue (constructed "SRTF-N" two_programs_text)) =
      Ok (if id (hd Program_new sample_queue) =? 0 then wrap (0 + 1) else 0,
          s') /\
    trace s' =
      trace (with_queue sample_queue
               (constructed "SRTF-N" two_programs_text)) ++ evs /\
    Forall (fun x => running_time (hd Program_new sample_queue)
                     <= running_time x) (tl sample_queue) /\
    selects evs = [hd Program_new sample_queue] /\
    sleeps evs = (if timed o then [duration o] else []) /\
    let p1 :=
      if id (hd Program_new sample_queue) =? 0
      then with_id (wrap (0 + 1)) (hd Program_new sample_queue)
      else hd Program_new sample_queue in
    let p2 :=
      with_operations (match r with [_] => [] | _ => r end)
        (with_state RUNNING p1) in
    scheduling evs =
      [EvSelect (hd Program_new sample_queue); EvState p1 RUNNING;
       EvState p2 (if done p2 then EXIT else READY)] /\
    SRTF_queue_ s' =
      (if done p2 then tl sample_queue
       else pq_push (with_state READY p2) (tl sample_queue)).
Proof.
  assert (H1 : SRTF_queue_
                 (with_queue sample_queue
                    (constructed "SRTF-N" two_programs_text)) =
               hd Program_new sample_queue :: tl sample_queue)
    by (vm_compute; reflexivity).
  assert (H2 : pq_sorted (hd Program_new sample_queue :: tl sample_queue)).
  { unfold pq_sorted. vm_compute.
    repeat constructor; intros H; discriminate H. }
  assert (H3 : ends_well (operations (hd Program_new sample_queue)))
    by (apply ends_wellb_correct; vm_compute; reflexivity).
  split; [exact H1|]. split; [exact H2|]. split; [exact H3|].
  exact (SRTF_turn_spec Z.of_nat 0
           (with_queue sample_queue (constructed "SRTF-N" two_programs_text))
           (hd Program_new sample_queue) (tl sample_queue) H1 H2 H3).
Defined.

Lemma parse_operation_layout_witness :
  "P"%char <> ")"%char /\ "("%char <> ")"%char /\
  find ")" "run" = None /\
  (forall s0, stoi "3" s0 = Ok (3, s0)) /\
  let token := String "P" (String "(" ("run" ++ String ")" "3")) in
  (recognized_type "P" = true ->
   exists o,
     parse_operation token sample_operation (sample_config "FIFO") =
       Ok (o, sample_config "FIFO") /\
     type o = "P"%char /\ description o = "run"%string /\ cycles o = 3) /\
  (recognized_type "P" = false ->
   parse_operation token sample_operation (sample_config "FIFO") =
     Throw UnrecognizedOperationType).
Proof.
  assert (H1 : "P"%char <> ")"%char) by discriminate.
  assert (H2 : "("%char <> ")"%char) by discriminate.
  assert (H3 : find ")" "run" = None) by (vm_compute; reflexivity).
  assert (H4 : forall s0, stoi "3" s0 = Ok (3, s0))
    by (intros s0; reflexivity).
  split; [exact H1|]. split; [exact H2|]. split; [exact H3|].
  split; [exact H4|].
  exact (parse_operation_layout "P" "(" "run" "3" 3 sample_operation
           (sample_config "FIFO") H1 H2 H3 H4).
Defined.

Lemma load_meta_data_appends_witness :
  load_meta_data (Some two_programs_text) sample_operation 64
    (sample_config "FIFO") =
    Ok (tt, constructed "FIFO" two_programs_text) /\
  exists loaded,
    constructed "FIFO" two_programs_text =
      with_programs (programs_ (sample_config "FIFO") ++ loaded)
        (sample_config "FIFO") /\
    Forall loaded_shape loaded.
Proof.
  assert (H1 : load_meta_data (Some two_programs_text) sample_operation 64
                 (sample_config "FIFO") =
               Ok (tt, constructed "FIFO" two_programs_text))
    by (vm_compute; reflexivity).
  split; [exact H1|].
  exact (load_meta_data_appends (Some two_programs_text) sample_operation 64
           (sample_config "FIFO") (constructed "FIFO" two_programs_text) H1).
Defined.

Lemma process_operation_consumes_witness :
  process_operation Z.of_nat sample_program (sample_config "FIFO") =
    Ok (fst (stepped Z.of_nat sample_program (sample_config "FIFO")),
        snd (stepped Z.of_nat sample_program (sample_config "FIFO"))) /\
  state (fst (stepped Z.of_nat sample_program (sample_config "FIFO"))) =
    state sample_program /\
  id (fst (stepped Z.of_nat sample_program (sample_config "FIFO"))) =
    id sample_program /\
  running_time (fst (stepped Z.of_nat sample_program (sample_config "FIFO"))) =
    running_time sample_program /\
  (exists consumed,
     operations sample_program =
       consumed ++
       operations (fst (stepped Z.of_nat sample_program
                          (sample_config "FIFO"))) /\
     (1 <= List.length consumed <= 3)%nat) /\
  programs_ (snd (stepped Z.of_nat sample_program (sample_config "FIFO"))) =
    programs_ (sample_config "FIFO") /\
  SRTF_queue_ (snd (stepped Z.of_nat sample_program (sample_config "FIFO"))) =
    SRTF_queue_ (sample_config "FIFO").
Proof.
  assert (H1 : process_operation Z.of_nat sample_program
                 (sample_config "FIFO") =
               Ok (fst (stepped Z.of_nat sample_program
                          (sample_config "FIFO")),
                   snd (stepped Z.of_nat sample_program
                          (sample_config "FIFO"))))
    by (vm_compute; reflexivity).
  split; [exact H1|].
  exact (process_operation_consumes Z.of_nat sample_program
           (fst (stepped Z.of_nat sample_program (sample_config "FIFO")))
           (sample_config "FIFO")
           (snd (stepped Z.of_nat sample_program (sample_config "FIFO")))
           H1).
Defined.

Lemma every_program_exits_witness :
  SRTF_queue_ (constructed "SRTF-N" two_programs_text) = [] /\
  Forall as_loaded (programs_ (constructed "SRTF-N" two_programs_text)) /\
  Z.of_nat (List.length (programs_ (constructed "SRTF-N" two_programs_text)))
    < 2 ^ 31 /\
  exists s' evs order,
    run Z.of_nat (constructed "SRTF-N" two_programs_text) = Ok (tt, s') /\
    trace s' = trace (constructed "SRTF-N" two_programs_text) ++ evs /\
    Permutation order (programs_ (constructed "SRTF-N" two_programs_text)) /\
    Permutation (exits evs) (numbered_from 1 order) /\
    (String.eqb (schedulingCode_ (constructed "SRTF-N" two_programs_text))
       "FIFO" = true ->
     order = programs_ (constructed "SRTF-N" two_programs_text) /\
     exits evs = numbered_from 1 order) /\
    List.length (exits evs) =
      List.length (programs_ (constructed "SRTF-N" two_programs_text)) /\
    Forall (fun p => operations p = [] /\ state p = RUNNING) (exits evs) /\
    SRTF_queue_ s' = [].
Proof.
  assert (H1 : SRTF_queue_ (constructed "SRTF-N" two_programs_text) = [])
    by (vm_compute; reflexivity).
  assert (H2 : Forall as_loaded
                 (programs_ (constructed "SRTF-N" two_programs_text)))
    by (apply Forall_as_loadedb; vm_compute; reflexivity).
  assert (H3 : Z.of_nat
                 (List.length
                    (programs_ (constructed "SRTF-N" two_programs_text)))
               < 2 ^ 31) by (vm_compute; reflexivity).
  split; [exact H1|]. split; [exact H2|]. split; [exact H3|].
  exact (every_program_exits Z.of_nat
           (constructed "SRTF-N" two_programs_text) H1 H2 H3).
Defined.

Lemma FIFO_numbers_in_order_witness :
  String.eqb (schedulingCode_ (constructed "FIFO" two_programs_text)) "FIFO"
    = true /\
  Forall (fun p => operations p = [] \/ ends_well (operations p))
    (programs_ (constructed "FIFO" two_programs_text)) /\
  Z.of_nat (List.length (programs_ (constructed "FIFO" two_programs_text)))
    < 2 ^ 31 /\
  exists s' evs,
    run Z.of_nat (constructed "FIFO" two_programs_text) = Ok (tt, s') /\
    trace s' = trace (constructed "FIFO" two_programs_text) ++ evs /\
    running evs =
      map (fun ip => with_id (Z.of_nat (fst ip)) (snd ip))
        (combine
           (seq 1 (List.length
                     (programs_ (constructed "FIFO" two_programs_text))))
           (programs_ (constructed "FIFO" two_programs_text))).
Proof.
  assert (H1 : String.eqb
                 (schedulingCode_ (constructed "FIFO" two_programs_text))
                 "FIFO" = true) by (vm_compute; reflexivity).
  assert (H2 : Forall (fun p => operations p = [] \/ ends_well (operations p))
                 (programs_ (constructed "FIFO" two_programs_text))).
  { apply Forall_ends_wellb. vm_compute. reflexivity. }
  assert (H3 : Z.of_nat
                 (List.length
                    (programs_ (constructed "FIFO" two_programs_text)))
               < 2 ^ 31) by (vm_compute; reflexivity).
  split; [exact H1|]. split; [exact H2|]. split; [exact H3|].
  exact (FIFO_numbers_in_order Z.of_nat
           (constructed "FIFO" two_programs_text) H1 H2 H3).
Defined.

Lemma FIFO_blocks_in_order_witness :
  String.eqb (schedulingCode_ (constructed "FIFO" two_programs_text)) "FIFO"
    = true /\
  Forall (fun p => operations p = [] \/ ends_quietly (operations p))
    (programs_ (constructed "FIFO" two_programs_text)) /\
  exists s' evs,
    run Z.of_nat (constructed "FIFO" two_programs_text) = Ok (tt, s') /\
    trace s' = trace (constructed "FIFO" two_programs_text) ++ evs /\
    sleeps evs =
      flat_map (fun p => timed_durations (operations p))
        (programs_ (constructed "FIFO" two_programs_text)).
Proof.
  assert (H1 : String.eqb
                 (schedulingCode_ (constructed "FIFO" two_programs_text))
                 "FIFO" = true) by (vm_compute; reflexivity).
  assert (H2 : Forall
                 (fun p => operations p = [] \/ ends_quietly (operations p))
                 (programs_ (constructed "FIFO" two_programs_text))).
  { apply Forall_forall. intros p Hp. right. apply ends_quietlyb_correct.
    revert p Hp. apply forallb_forall. vm_compute. reflexivity. }
  split; [exact H1|]. split; [exact H2|].
  exact (FIFO_blocks_in_order Z.of_nat
           (constructed "FIFO" two_programs_text) H1 H2).
Defined.

Lemma SRTF_blocks_once_each_witness :
  String.eqb (schedulingCode_ (constructed "SRTF-N" two_programs_text)) "FIFO"
    = false /\
  SRTF_queue_ (constructed "SRTF-N" two_programs_text) = [] /\
  Forall (fun p => ends_quietly (operations p))
    (programs_ (constructed "SRTF-N" two_programs_text)) /\
  exists s' evs,
    run Z.of_nat (constructed "SRTF-N" two_programs_text) = Ok (tt, s') /\
    trace s' = trace (constructed "SRTF-N" two_programs_text) ++ evs /\
    Permutation (sleeps evs)
      (flat_map (fun p => timed_durations (operations p))
         (programs_ (constructed "SRTF-N" two_programs_text))).
Proof.
  assert (H1 : String.eqb
                 (schedulingCode_ (constructed "SRTF-N" two_programs_text))
                 "FIFO" = false) by (vm_compute; reflexivity).
  assert (H2 : SRTF_queue_ (constructed "SRTF-N" two_programs_text) = [])
    by (vm_compute; reflexivity).
  assert (H3 : Forall (fun p => ends_quietly (operations p))
                 (programs_ (constructed "SRTF-N" two_programs_text)))
    by (apply Forall_ends_quietlyb; vm_compute; reflexivity).
  split; [exact H1|]. split; [exact H2|]. split; [exact H3|].
  exact (SRTF_blocks_once_each Z.of_nat
           (constructed "SRTF-N" two_programs_text) H1 H2 H3).
Defined.

Lemma run_frames_its_log_witness :
  run Z.of_nat (constructed "FIFO" two_programs_text) =
    Ok (tt, run_state Z.of_nat (constructed "FIFO" two_programs_text)) /\
  exists evs middle,
    trace (run_state Z.of_nat (constructed "FIFO" two_programs_text)) =
      trace (constructed "FIFO" two_programs_text) ++ evs /\
    messages evs =
      [ "Simulator program starting"%string;
        "OS: preparing all processes"%string ] ++
      middle ++ [ "Simulator program ending"%string ].
Proof.
  assert (H1 : run Z.of_nat (constructed "FIFO" two_programs_text) =
               Ok (tt, run_state Z.of_nat
                         (constructed "FIFO" two_programs_text)))
    by (vm_compute; reflexivity).
  split; [exact H1|].
  exact (run_frames_its_log Z.of_nat (constructed "FIFO" two_programs_text)
           (run_state Z.of_nat (constructed "FIFO" two_programs_text)) H1).
Defined.

Lemma SRTF_numbers_first_dispatches_witness :
  String.eqb (schedulingCode_ (constructed "SJF" two_programs_text)) "FIFO"
    = false /\
  SRTF_queue_ (constructed "SJF" two_programs_text) = [] /\
  Forall as_loaded (programs_ (constructed "SJF" two_programs_text)) /\
  Z.of_nat (List.length (programs_ (constructed "SJF" two_programs_text)))
    < 2 ^ 31 /\
  exists s' evs,
    run Z.of_nat (constructed "SJF" two_programs_text) = Ok (tt, s') /\
    trace s' = trace (constructed "SJF" two_programs_text) ++ evs /\
    map (fun x => id (snd x))
      (filter (fun x => fresh (fst x)) (dispatches evs)) =
      map Z.of_nat
        (seq 1 (List.length
                  (programs_ (constructed "SJF" two_programs_text)))) /\
    Forall (fun x => (fresh (fst x) = false -> snd x = fst x) /\
                     (fresh (fst x) = true ->
                      snd x = with_id (id (snd x)) (fst x)))
      (dispatches evs).
Proof.
  assert (H1 : String.eqb
                 (schedulingCode_ (constructed "SJF" two_programs_text))
                 "FIFO" = false) by (vm_compute; reflexivity).
  assert (H2 : SRTF_queue_ (constructed "SJF" two_programs_text) = [])
    by (vm_compute; reflexivity).
  assert (H3 : Forall as_loaded
                 (programs_ (constructed "SJF" two_programs_text)))
    by (apply Forall_as_loadedb; vm_compute; reflexivity).
  assert (H4 : Z.of_nat
                 (List.length
                    (programs_ (constructed "SJF" two_programs_text)))
               < 2 ^ 31) by (vm_compute; reflexivity).
  split; [exact H1|]. split; [exact H2|]. split; [exact H3|].
  split; [exact H4|].
  exact (SRTF_numbers_first_dispatches Z.of_nat
           (constructed "SJF" two_programs_text) H1 H2 H3 H4).
Defined.
